(** * LUKE entity-aware encoder (luke/model.py): a shallow embedding

    Tensors hold real numbers (the idealisation of the floating-point
    values torch computes with); integer tensors (ids, masks, labels) hold
    [Z].  Activations are nested lists indexed as the Python tensors are
    (batch, slot, ..., hidden); parameters are flat row-major tensors kept in
    a store and referred to by location, so that two modules holding the same
    [nn.Parameter] object hold the same location. *)

From Stdlib Require Import Reals Lra Lia ZArith Ascii.
From stdpp Require Import base option list strings functions pretty.

Set Warnings "-register-all".

(** ** Exceptions, results and state *)

(** One entry of torch's [error_msgs]:
    ['size mismatch for {key}: copying a param with shape {} from
    checkpoint, the shape in current model is {}.'] *)
Inductive error_msg :=
  | size_mismatch (key : string) (checkpoint_shape model_shape : list nat).

Inductive exception :=
  | IndexError
  | KeyError (key : string)
  | AttributeError (name : string)
  | ValueError
  | AssertionError
  (** a shape torch refuses (a [RuntimeError] of its own) *)
  | ShapeError
  (** ['Error(s) in loading state_dict for {class}:\n\t{msgs}'] *)
  | RuntimeError (class_name : string) (msgs : list error_msg).

Inductive result (A : Type) :=
  | Ok (a : A)
  | Raise (e : exception).
Arguments Ok {A} a.
Arguments Raise {A} e.

#[export] Instance result_ret : MRet result := fun A a => Ok a.
#[export] Instance result_bind : MBind result := fun A B f m =>
  match m with
  | Ok a => f a
  | Raise e => Raise e
  end.

(** A computation that reads and writes a state [S] and may raise; what
    it wrote before raising stays written, as in Python. *)
Definition ST (S A : Type) : Type := S -> result A * S.

#[export] Instance ST_ret {S} : MRet (ST S) := fun A a s => (Ok a, s).
#[export] Instance ST_bind {S} : MBind (ST S) := fun A B f m s =>
  match m s with
  | (Ok a, s') => f a s'
  | (Raise e, s') => (Raise e, s')
  end.

Definition lift {S A} (r : result A) : ST S A := fun s => (r, s).
Definition get {S} : ST S S := fun s => (Ok s, s).
Definition modify {S} (f : S -> S) : ST S unit := fun s => (Ok tt, f s).

(** Two sequences zipped through [f]; sequences of different lengths are
    a shape error. *)
Definition zipM `{MRet M, MBind M} {A B C} (raise : M (list C))
    (f : A -> B -> M C) (x : list A) (y : list B) : M (list C) :=
  if (length x =? length y)%nat then mapM (fun p => f p.1 p.2) (zip x y) else raise.

Definition zip_exact {A B C} (f : A -> B -> result C) : list A -> list B -> result (list C) :=
  zipM (Raise ShapeError) f.

(** ** Vectors *)

Module Tensor.
Local Open Scope R_scope.

Abbreviation vec := (list R) (only parsing).

(** Elementwise operations on two vectors are zips: the operands have the
    same length whenever the parameters have the shapes their constructors
    give them (torch raises otherwise). *)
Definition vzero (n : nat) : vec := repeat 0 n.
Definition vadd (x y : vec) : vec := zip_with Rplus x y.
Definition vmul (x y : vec) : vec := zip_with Rmult x y.
Definition vscale (c : R) (x : vec) : vec := map (Rmult c) x.
Definition vdiv (x : vec) (c : R) : vec := map (fun a => a / c) x.
Definition rsum (x : list R) : R := foldr Rplus 0 x.
Definition dot (x y : vec) : R := rsum (vmul x y).

(** [torch.sum(t, dim=-2)] of a (k, n) tensor given by its [k] rows. *)
Definition sum_rows (n : nat) (rows : list vec) : vec := foldr vadd (vzero n) rows.

(** A parameter tensor: its shape and its entries in row-major order. *)
Record tensor := Tensor { shape : list nat; data : list R }.

Definition numel (s : list nat) : nat := foldr Nat.mul 1%nat s.
Definition well_shaped (t : tensor) : Prop := length (data t) = numel (shape t).

(** Row [i] of a 2-D tensor. *)
Definition row (d : nat) (t : tensor) (i : nat) : vec :=
  take d (drop (i * d) (data t)).

End Tensor.
Export Tensor.

(** ** torch.nn.functional *)

Module F.
Local Open Scope R_scope.

(** [F.embedding(ids, weight)] for one index: the row of [weight] at that
    index; an index outside [0, weight.shape[0]) raises. *)
Definition embedding (weight : tensor) (id : Z) : result vec :=
  match shape weight with
  | [n; d] =>
      if ((0 <=? id) && (id <? Z.of_nat n))%Z
      then Ok (row d weight (Z.to_nat id))
      else Raise IndexError
  | _ => Raise ShapeError
  end.

(** [F.softmax(x, dim=-1)] on the last axis. *)
Definition softmax (x : list R) : list R :=
  map (fun a => exp a / rsum (map exp x)) x.

End F.

(** ** Parameters, random generator, module registry *)

(** An [nn.Parameter] object is a location; the store gives the tensor it
    holds now.  Optimiser steps, [copy_], [normal_] and the like write the
    store in place; module attributes keep pointing at the same location. *)
Abbreviation loc := nat (only parsing).
Abbreviation store := (loc -> tensor) (only parsing).

(** The state of torch's random generator: the variates it hands out next. *)
Record Generator := mkGenerator {
  normal_variates : nat -> R;    (* standard normal *)
  uniform_variates : nat -> R;   (* uniform on [0, 1) *)
}.

Definition draw_normal (n : nat) : ST Generator (list R) := fun g =>
  (Ok (map (normal_variates g) (seq 0 n)),
   {| normal_variates := fun i => normal_variates g (n + i);
      uniform_variates := uniform_variates g |}).

Definition draw_uniform (n : nat) : ST Generator (list R) := fun g =>
  (Ok (map (uniform_variates g) (seq 0 n)),
   {| normal_variates := normal_variates g;
      uniform_variates := fun i => uniform_variates g (n + i) |}).

(** What [isinstance] can tell about a module. *)
Inductive module_class :=
  | nn_Linear
  | nn_Embedding (embedding_dim : nat)
  | nn_Dropout
  | nn_ModuleList
  | cls_BertLayerNorm
  | cls (name : string).

(** The registry every [nn.Module] keeps: [_parameters] and [_modules], in
    the order the attributes were assigned. *)
Inductive module :=
  | Module (class : module_class) (_parameters : list (string * loc))
           (_modules : list (string * module)).

Definition class_of (m : module) : module_class := let 'Module c _ _ := m in c.
Definition _parameters (m : module) : list (string * loc) := let 'Module _ ps _ := m in ps.
Definition _modules (m : module) : list (string * module) := let 'Module _ _ ms := m in ms.

(** Python's [d.get(name)] on an insertion-ordered dict kept as a list. *)
Fixpoint assoc {V} (k : string) (d : list (string * V)) : option V :=
  match d with
  | [] => None
  | (k', v) :: d' => if String.eqb k k' then Some v else assoc k d'
  end.

(** ** torch.nn modules the model is built from *)

(** The state of a constructor: the store, the next free location and the
    generator the initial values are drawn from. *)
Record heap := mkHeap { cells : store; next : loc; gen : Generator }.

Definition with_gen {A} (m : ST Generator A) : ST heap A := fun h =>
  let '(r, g) := m (gen h) in (r, mkHeap (cells h) (next h) g).

(** [nn.Parameter(t)]: a new location holding [t]. *)
Definition new_parameter (t : tensor) : ST heap loc := fun h =>
  (Ok (next h), mkHeap (<[next h := t]> (cells h)) (S (next h)) (gen h)).

Definition write (l : loc) (t : tensor) : ST heap unit :=
  modify (fun h => mkHeap (<[l := t]> (cells h)) (next h) (gen h)).

(** [t.normal_(mean, std)], [t.zero_()], [t.fill_(c)]: in place, by location. *)
Definition normal_ (l : loc) (mean std : R) : ST heap unit :=
  h ← get;
  let s := shape (cells h l) in
  z ← with_gen (draw_normal (numel s));
  write l (Tensor s (map (fun zi => mean + std * zi)%R z)).

Definition fill_ (l : loc) (c : R) : ST heap unit :=
  h ← get;
  let s := shape (cells h l) in
  write l (Tensor s (repeat c (numel s))).

Definition zero_ (l : loc) : ST heap unit := fill_ l 0%R.

(** [weight[i].fill_(c)] on a 2-D tensor. *)
Definition fill_row (i : nat) (c : R) (t : tensor) : tensor :=
  let d := nth 1 (shape t) 0%nat in
  Tensor (shape t) (take (i * d) (data t) ++ repeat c d ++ drop (S i * d) (data t)).

Module Embedding.

Record t := mk {
  num_embeddings : nat;
  embedding_dim : nat;
  padding_idx : option nat;
  weight : loc;
}.

(** [nn.Embedding(num_embeddings, embedding_dim, padding_idx)]: the weight
    is drawn from N(0, 1) and the row at [padding_idx] then set to zero
    ([reset_parameters]). *)
Definition init (num_embeddings embedding_dim : nat) (padding_idx : option nat) : ST heap t :=
  _ ← match padding_idx with
       | Some i => if (i <? num_embeddings)%nat then mret tt else lift (Raise AssertionError)
       | None => mret tt
       end;
  weight ← new_parameter (Tensor [num_embeddings; embedding_dim] []);
  _ ← normal_ weight 0 1;
  _ ← match padding_idx with
       | Some i => h ← get; write weight (fill_row i 0%R (cells h weight))
       | None => mret tt
       end;
  mret (mk num_embeddings embedding_dim padding_idx weight).

(** [padding_idx] plays no part in the forward pass: it is a plain lookup. *)
Definition forward (σ : store) (self : t) (id : Z) : result vec :=
  F.embedding (σ (weight self)) id.

Definition registry (self : t) : module :=
  Module (nn_Embedding (embedding_dim self)) [("weight", weight self)] [].

End Embedding.

Module Linear.

(** [nn.Linear(in_features, out_features)]; the initial values are torch's
    default draw (uniform, scaled by the fan-in). *)
Definition init (in_features out_features : nat) : ST heap module :=
  let bound := (1 / sqrt (INR in_features))%R in
  u ← with_gen (draw_uniform (out_features * in_features));
  weight ← new_parameter (Tensor [out_features; in_features]
                                 (map (fun x => (2 * x - 1) * bound)%R u));
  u ← with_gen (draw_uniform out_features);
  bias ← new_parameter (Tensor [out_features] (map (fun x => (2 * x - 1) * bound)%R u));
  mret (Module nn_Linear [("weight", weight); ("bias", bias)] []).

End Linear.

Module Dropout.

(** [nn.Dropout(p)]: in training each entry is kept with probability
    [1 - p] and scaled by [1 / (1 - p)]; in evaluation mode it is the
    identity. *)
Definition forward_vec (training : bool) (p : R) (x : vec) : ST Generator vec :=
  if training then
    if Rle_dec 0 p then
      if Rle_dec p 1 then
        u ← draw_uniform (length x);
        mret (zip_with (fun ui a => if Rlt_dec ui (1 - p) then a / (1 - p) else 0)%R u x)
      else lift (Raise ValueError)
    else lift (Raise ValueError)
  else mret x.

Definition forward3 (training : bool) (p : R) : list (list vec) -> ST Generator (list (list vec)) :=
  mapM (mapM (forward_vec training p)).

Definition forward4 (training : bool) (p : R)
  : list (list (list vec)) -> ST Generator (list (list (list vec))) :=
  mapM (mapM (mapM (forward_vec training p))).

Definition registry : module := Module nn_Dropout [] [].

End Dropout.

(** ** pytorch_transformers.modeling_bert

    The library the model imports its building blocks from.  Constructors
    and the encoder's layer loop are written out; what a layer, the word
    embeddings, the pooler and the prediction-head transform compute from
    their inputs is left to the class [BertForward]. *)

Module BertConfig.

Record t := mk {
  vocab_size : nat;
  hidden_size : nat;
  num_hidden_layers : nat;
  num_attention_heads : nat;
  intermediate_size : nat;
  hidden_dropout_prob : R;
  attention_probs_dropout_prob : R;
  max_position_embeddings : nat;
  type_vocab_size : nat;
  initializer_range : R;
  layer_norm_eps : R;
  output_attentions : bool;
  output_hidden_states : bool;
}.

End BertConfig.

Abbreviation seq3 := (list (list vec)) (only parsing).
Abbreviation attn4 := (list (list (list vec))) (only parsing).

Module BertLayerNorm.

Record t := mk { weight : loc; bias : loc; variance_epsilon : R }.

Definition init (hidden_size : nat) (eps : R) : ST heap t :=
  weight ← new_parameter (Tensor [hidden_size] (repeat 1%R hidden_size));
  bias ← new_parameter (Tensor [hidden_size] (repeat 0%R hidden_size));
  mret (mk weight bias eps).

Definition mean (x : vec) : R := (rsum x / INR (length x))%R.

(** [u = x.mean(-1); s = (x - u).pow(2).mean(-1);
     x = (x - u) / sqrt(s + eps); return weight * x + bias] *)
Definition forward (σ : store) (self : t) (x : vec) : vec :=
  let u := mean x in
  let s := mean (map (fun a => (a - u) ^ 2)%R x) in
  let x := map (fun a => (a - u) / sqrt (s + variance_epsilon self))%R x in
  vadd (vmul (data (σ (weight self))) x) (data (σ (bias self))).

Definition registry (self : t) : module :=
  Module cls_BertLayerNorm [("weight", weight self); ("bias", bias self)] [].

End BertLayerNorm.

Definition BertEmbeddings_init (config : BertConfig.t) : ST heap module :=
  word_embeddings ←
    Embedding.init (BertConfig.vocab_size config) (BertConfig.hidden_size config) (Some 0%nat);
  position_embeddings ←
    Embedding.init (BertConfig.max_position_embeddings config) (BertConfig.hidden_size config) None;
  token_type_embeddings ←
    Embedding.init (BertConfig.type_vocab_size config) (BertConfig.hidden_size config) None;
  LayerNorm ←
    BertLayerNorm.init (BertConfig.hidden_size config) (BertConfig.layer_norm_eps config);
  mret (Module (cls "BertEmbeddings") []
          [("word_embeddings", Embedding.registry word_embeddings);
           ("position_embeddings", Embedding.registry position_embeddings);
           ("token_type_embeddings", Embedding.registry token_type_embeddings);
           ("LayerNorm", BertLayerNorm.registry LayerNorm);
           ("dropout", Dropout.registry)]).

Definition BertSelfAttention_init (config : BertConfig.t) : ST heap module :=
  _ ← (if (BertConfig.hidden_size config mod BertConfig.num_attention_heads config =? 0)%nat
       then mret tt else lift (Raise ValueError));
  query ← Linear.init (BertConfig.hidden_size config) (BertConfig.hidden_size config);
  key ← Linear.init (BertConfig.hidden_size config) (BertConfig.hidden_size config);
  value ← Linear.init (BertConfig.hidden_size config) (BertConfig.hidden_size config);
  mret (Module (cls "BertSelfAttention") []
          [("query", query); ("key", key); ("value", value); ("dropout", Dropout.registry)]).

(** [BertSelfOutput] and [BertOutput]: dense, LayerNorm, dropout. *)
Definition BertOutput_init (name : string) (in_features : nat) (config : BertConfig.t)
  : ST heap module :=
  dense ← Linear.init in_features (BertConfig.hidden_size config);
  LayerNorm ←
    BertLayerNorm.init (BertConfig.hidden_size config) (BertConfig.layer_norm_eps config);
  mret (Module (cls name) []
          [("dense", dense); ("LayerNorm", BertLayerNorm.registry LayerNorm);
           ("dropout", Dropout.registry)]).

Definition BertLayer_init (config : BertConfig.t) : ST heap module :=
  self ← BertSelfAttention_init config;
  output ← BertOutput_init "BertSelfOutput" (BertConfig.hidden_size config) config;
  let attention := Module (cls "BertAttention") [] [("self", self); ("output", output)] in
  dense ← Linear.init (BertConfig.hidden_size config) (BertConfig.intermediate_size config);
  let intermediate := Module (cls "BertIntermediate") [] [("dense", dense)] in
  output ← BertOutput_init "BertOutput" (BertConfig.intermediate_size config) config;
  mret (Module (cls "BertLayer") []
          [("attention", attention); ("intermediate", intermediate); ("output", output)]).

Definition BertPooler_init (config : BertConfig.t) : ST heap module :=
  dense ← Linear.init (BertConfig.hidden_size config) (BertConfig.hidden_size config);
  mret (Module (cls "BertPooler") [] [("dense", dense); ("activation", Module (cls "Tanh") [] [])]).

Definition BertPredictionHeadTransform_init (config : BertConfig.t) : ST heap module :=
  dense ← Linear.init (BertConfig.hidden_size config) (BertConfig.hidden_size config);
  LayerNorm ←
    BertLayerNorm.init (BertConfig.hidden_size config) (BertConfig.layer_norm_eps config);
  mret (Module (cls "BertPredictionHeadTransform") []
          [("dense", dense); ("LayerNorm", BertLayerNorm.registry LayerNorm)]).

Class BertForward := {
  (** [BertEmbeddings.forward(input_ids, token_type_ids)] *)
  BertEmbeddings_forward :
    store -> bool -> module -> list (list Z) -> list (list Z) -> ST Generator seq3;
  (** [BertLayer.forward(hidden_states, attention_mask, head_mask)]: the
      new hidden states and the attention probabilities *)
  BertLayer_forward :
    store -> bool -> module -> seq3 -> list (list R) -> option tensor ->
    ST Generator (seq3 * attn4);
  (** [BertPooler.forward(hidden_states)] *)
  BertPooler_forward : store -> module -> seq3 -> result (list vec);
  (** [BertPredictionHeadTransform.forward(hidden_states)] *)
  BertPredictionHeadTransform_forward : store -> module -> seq3 -> result seq3;
}.

Module BertEncoder.

Record t := mk {
  output_attentions : bool;
  output_hidden_states : bool;
  layer : list module;
}.

(** [nn.ModuleList([BertLayer(config) for _ in range(config.num_hidden_layers)])] *)
Definition init (config : BertConfig.t) : ST heap t :=
  layer ← mapM (fun _ => BertLayer_init config) (seq 0 (BertConfig.num_hidden_layers config));
  mret (mk (BertConfig.output_attentions config) (BertConfig.output_hidden_states config) layer).

Definition registry (self : t) : module :=
  Module (cls "BertEncoder") []
    [("layer", Module nn_ModuleList [] (imap (fun i m => (pretty i, m)) (layer self)))].

(** What the encoder returns: the last hidden states, then the tuple of
    all hidden states and the tuple of all attentions when configured. *)
Inductive output :=
  | hidden_states (h : list seq3)
  | attentions (a : list attn4).

(** The loop [for i, layer_module in enumerate(self.layer)]; [head_mask[i]]
    raises when [head_mask] is shorter than the list of layers. *)
Fixpoint layers `{BertForward} (σ : store) (training : bool) (self : t)
    (todo : list module) (i : nat) (hidden : seq3) (attention_mask : list (list R))
    (head_mask : list (option tensor)) (all_hidden_states : list seq3)
    (all_attentions : list attn4) : ST Generator (seq3 * list seq3 * list attn4) :=
  match todo with
  | [] => mret (hidden, all_hidden_states, all_attentions)
  | layer_module :: todo' =>
      let all_hidden_states :=
        if output_hidden_states self then all_hidden_states ++ [hidden] else all_hidden_states in
      hm ← lift (match head_mask !! i with Some hm => Ok hm | None => Raise IndexError end);
      layer_outputs ← BertLayer_forward σ training layer_module hidden attention_mask hm;
      let all_attentions :=
        if output_attentions self then all_attentions ++ [layer_outputs.2] else all_attentions in
      layers σ training self todo' (S i) layer_outputs.1 attention_mask head_mask
             all_hidden_states all_attentions
  end.

Definition forward `{BertForward} (σ : store) (training : bool) (self : t)
    (hidden : seq3) (attention_mask : list (list R)) (head_mask : list (option tensor))
  : ST Generator (seq3 * list output) :=
  r ← layers σ training self (layer self) 0 hidden attention_mask head_mask [] [];
  let '(hidden, all_hidden_states, all_attentions) := r in
  let all_hidden_states :=
    if output_hidden_states self then all_hidden_states ++ [hidden] else all_hidden_states in
  mret (hidden,
        (if output_hidden_states self then [hidden_states all_hidden_states] else []) ++
        (if output_attentions self then [attentions all_attentions] else [])).

End BertEncoder.

(** ** luke/model.py *)

Module LukeConfig.

(** [class LukeConfig(BertConfig)] *)
Record t := mk {
  bert : BertConfig.t;
  entity_vocab_size : nat;
}.

End LukeConfig.
Coercion LukeConfig.bert : LukeConfig.t >-> BertConfig.t.

Module LukeE2EConfig.

(** [class LukeE2EConfig(LukeConfig)] *)
Record t := mk {
  luke : LukeConfig.t;
  num_el_hidden_layers : nat;
  entity_selector_softmax_temp : R;
}.

(** [c = copy.copy(config); c.num_hidden_layers = n] *)
Definition with_num_hidden_layers (n : nat) (config : t) : t :=
  let b := LukeConfig.bert (luke config) in
  mk (LukeConfig.mk
        (BertConfig.mk (BertConfig.vocab_size b) (BertConfig.hidden_size b) n
           (BertConfig.num_attention_heads b) (BertConfig.intermediate_size b)
           (BertConfig.hidden_dropout_prob b) (BertConfig.attention_probs_dropout_prob b)
           (BertConfig.max_position_embeddings b) (BertConfig.type_vocab_size b)
           (BertConfig.initializer_range b) (BertConfig.layer_norm_eps b)
           (BertConfig.output_attentions b) (BertConfig.output_hidden_states b))
        (LukeConfig.entity_vocab_size (luke config)))
     (num_el_hidden_layers config) (entity_selector_softmax_temp config).

End LukeE2EConfig.
Coercion LukeE2EConfig.luke : LukeE2EConfig.t >-> LukeConfig.t.

Definition EPS : R := (1 / 10 ^ 12)%R.

(** [t.clamp(min=lo)], [(t != v).type_as(float)], [torch.zeros_like(t)] *)
Definition clamp_min (lo : Z) (x : Z) : Z := Z.max x lo.
Definition ne_mask (v : Z) (ids : list Z) : list R :=
  map (fun i => if (i =? v)%Z then 0%R else 1%R) ids.
Definition zeros_like (ids : list (list Z)) : list (list Z) := map (map (fun _ => 0%Z)) ids.

(** Elementwise sum of two (B, E, H) tensors of the same shape.  Operands
    that differ in their number of examples or slots are refused here; torch
    also adds them when the axis has size 1 in one of them, which it then
    broadcasts.  The properties below that depend on shapes are stated for
    operands of the same shape. *)
Definition add3 : seq3 -> seq3 -> result seq3 :=
  zip_exact (zip_exact (fun x y => Ok (vadd x y))).

(** Sum of a (B, M, C, H) tensor and a (B, M, 1, H) tensor: the second is
    broadcast along the candidate axis. *)
Definition add4_broadcast : list seq3 -> seq3 -> result (list seq3) :=
  zip_exact (zip_exact (fun xs y => Ok (map (fun x => vadd x y) xs))).

Module EntityEmbeddings.

Record t := mk {
  entity_embeddings : Embedding.t;
  position_embeddings : Embedding.t;
  token_type_embeddings : Embedding.t;
  LayerNorm : BertLayerNorm.t;
  dropout : R;
}.

Definition init (config : LukeConfig.t) (entity_vocab_size : option nat) : ST heap t :=
  let entity_vocab_size :=
    match entity_vocab_size with
    | None => LukeConfig.entity_vocab_size config
    | Some n => n
    end in
  entity_embeddings ←
    Embedding.init entity_vocab_size (BertConfig.hidden_size config) (Some 0%nat);
  position_embeddings ←
    Embedding.init (BertConfig.max_position_embeddings config) (BertConfig.hidden_size config) None;
  token_type_embeddings ←
    Embedding.init (BertConfig.type_vocab_size config) (BertConfig.hidden_size config) None;
  LayerNorm ←
    BertLayerNorm.init (BertConfig.hidden_size config) (BertConfig.layer_norm_eps config);
  mret (mk entity_embeddings position_embeddings token_type_embeddings LayerNorm
           (BertConfig.hidden_dropout_prob config)).

Definition registry (self : t) : module :=
  Module (cls "EntityEmbeddings") []
    [("entity_embeddings", Embedding.registry (entity_embeddings self));
     ("position_embeddings", Embedding.registry (position_embeddings self));
     ("token_type_embeddings", Embedding.registry (token_type_embeddings self));
     ("LayerNorm", BertLayerNorm.registry (LayerNorm self));
     ("dropout", Dropout.registry)].

(** Lines 49-53 on one entity slot: [position_ids] is the slot's row of P
    position ids, the result its (H,) position vector. *)
Definition position_average (weight : tensor) (position_ids : list Z) : result vec :=
  position_embeddings ← mapM (F.embedding weight) (map (clamp_min 0) position_ids);
  let position_embedding_mask := ne_mask (-1) position_ids in
  let position_embeddings := zip_with vscale position_embedding_mask position_embeddings in
  let position_embeddings := sum_rows (nth 1 (shape weight) 0%nat) position_embeddings in
  Ok (vdiv position_embeddings (rsum position_embedding_mask + EPS)%R).

(** Lines 49-53 on the whole (B, E, P) tensor of position ids. *)
Definition position_term (σ : store) (self : t) (position_ids : list (list (list Z)))
  : result seq3 :=
  mapM (mapM (position_average (σ (Embedding.weight (position_embeddings self))))) position_ids.

(** Line 47 on the whole (B, E) tensor of entity ids. *)
Definition identity_term (σ : store) (self : t) (entity_ids : list (list Z)) : result seq3 :=
  mapM (mapM (Embedding.forward σ (entity_embeddings self))) entity_ids.

(** Line 55 on the whole (B, E) tensor of segment ids. *)
Definition token_type_term (σ : store) (self : t) (token_type_ids : list (list Z))
  : result seq3 :=
  mapM (mapM (Embedding.forward σ (token_type_embeddings self))) token_type_ids.

(** Lines 49-61: what [forward] does with the looked-up identity
    embeddings. *)
Definition combine (σ : store) (training : bool) (self : t) (entity_embeddings : seq3)
    (position_ids : list (list (list Z))) (token_type_ids : list (list Z))
  : ST Generator seq3 :=
  position_embeddings ← lift (position_term σ self position_ids);
  token_type_embeddings ← lift (token_type_term σ self token_type_ids);
  embeddings ← lift (add3 entity_embeddings position_embeddings);
  embeddings ← lift (add3 embeddings token_type_embeddings);
  let embeddings := map (map (BertLayerNorm.forward σ (LayerNorm self))) embeddings in
  Dropout.forward3 training (dropout self) embeddings.

(** [forward(entity_ids, position_ids, token_type_ids=None)] with
    [entity_ids] of shape (B, E). *)
Definition forward (σ : store) (training : bool) (self : t)
    (entity_ids : list (list Z)) (position_ids : list (list (list Z)))
    (token_type_ids : option (list (list Z))) : ST Generator seq3 :=
  let token_type_ids :=
    match token_type_ids with
    | None => zeros_like entity_ids
    | Some ids => ids
    end in
  entity_embeddings ← lift (identity_term σ self entity_ids);
  combine σ training self entity_embeddings position_ids token_type_ids.

(** The same body when [entity_ids] has shape (B, M, C) and the caller
    passes [position_ids.unsqueeze(-2)] and [token_type_ids.unsqueeze(-1)]:
    the position and segment terms, of shape (B, M, 1, H), are broadcast
    along the candidate axis. *)
Definition forward_candidates (σ : store) (training : bool) (self : t)
    (entity_ids : list (list (list Z))) (position_ids : list (list (list Z)))
    (token_type_ids : list (list Z)) : ST Generator (list seq3) :=
  entity_embeddings ←
    lift (mapM (mapM (mapM (Embedding.forward σ (entity_embeddings self)))) entity_ids);
  position_embeddings ← lift (position_term σ self position_ids);
  token_type_embeddings ← lift (token_type_term σ self token_type_ids);
  embeddings ← lift (add4_broadcast entity_embeddings position_embeddings);
  embeddings ← lift (add4_broadcast embeddings token_type_embeddings);
  let embeddings := map (map (map (BertLayerNorm.forward σ (LayerNorm self)))) embeddings in
  Dropout.forward4 training (dropout self) embeddings.

End EntityEmbeddings.

Module EntitySelector.

Record t := mk {
  transform : module;
  embeddings : Embedding.t;
  bias : Embedding.t;
}.

Definition init (config : LukeConfig.t) : ST heap t :=
  transform ← BertPredictionHeadTransform_init config;
  embeddings ← Embedding.init (LukeConfig.entity_vocab_size config)
                              (BertConfig.hidden_size config) (Some 0%nat);
  bias ← Embedding.init (LukeConfig.entity_vocab_size config) 1 (Some 0%nat);
  mret (mk transform embeddings bias).

Definition registry (self : t) : module :=
  Module (cls "EntitySelector") []
    [("transform", transform self);
     ("embeddings", Embedding.registry (embeddings self));
     ("bias", Embedding.registry (bias self))].

(** [t.squeeze(-1)] of a row of the one-column bias table. *)
Definition squeeze (r : vec) : result R :=
  match r with
  | [x] => Ok x
  | _ => Raise ShapeError
  end.

(** [(entity_candidate_ids == 0).to(dtype=scores.dtype) * -10000.0] *)
Definition padding_penalty (id : Z) : R := ((if (id =? 0)%Z then 1 else 0) * -10000)%R.

(** [hidden_states] is (B, M, H), [entity_candidate_ids] (B, M, C), the
    scores (B, M, C).  The hidden states and the candidate ids are taken to
    agree on B and M, as they do where [LukeE2EModel.forward] calls this;
    operands that differ there are refused here, while torch broadcasts an
    axis of size 1 (lines 77-78). *)
Definition forward `{BertForward} (σ : store) (self : t) (hidden_states : seq3)
    (entity_candidate_ids : list (list (list Z))) : result (list (list (list R))) :=
  entity_embeddings ←
    mapM (mapM (mapM (Embedding.forward σ (embeddings self)))) entity_candidate_ids;
  entity_bias ←
    mapM (mapM (mapM (fun id => Embedding.forward σ (bias self) id ≫= squeeze)))
         entity_candidate_ids;
  hidden_states ← BertPredictionHeadTransform_forward σ (transform self) hidden_states;
  scores ←
    zip_exact (zip_exact (fun h es => Ok (map (dot h) es))) hidden_states entity_embeddings;
  scores ← zip_exact (zip_exact (fun s b => Ok (zip_with Rplus s b))) scores entity_bias;
  zip_exact (zip_exact (fun s ids => Ok (zip_with (fun x id => x + padding_penalty id)%R s ids)))
            scores entity_candidate_ids.

End EntitySelector.

(** ** Python strings and dicts, as the loader uses them *)

Module Str.

(** [s[n:]] *)
Fixpoint drop (n : nat) (s : string) : string :=
  match n, s with
  | O, _ => s
  | S n', String _ s' => drop n' s'
  | S _, EmptyString => EmptyString
  end.

(** [s.replace(old, new)] for a non-empty [old]: occurrences are replaced
    from the left and do not overlap; [skip] counts the characters of a
    replaced occurrence still to pass over. *)
Fixpoint replace_from (old new : string) (skip : nat) (s : string) : string :=
  match s with
  | EmptyString => EmptyString
  | String c s' =>
      match skip with
      | S k => replace_from old new k s'
      | O =>
          if String.prefix old s
          then new +:+ replace_from old new (String.length old - 1) s'
          else String c (replace_from old new 0 s')
      end
  end.

Definition replace (old new s : string) : string := replace_from old new 0 s.

(** [s.split('.', 1)[0]] *)
Fixpoint before_dot (s : string) : string :=
  match s with
  | EmptyString => EmptyString
  | String c s' => if Ascii.eqb c "."%char then EmptyString else String c (before_dot s')
  end.

Fixpoint insert_sorted (k : string) (l : list string) : list string :=
  match l with
  | [] => [k]
  | x :: l' => if String.leb k x then k :: l else x :: insert_sorted k l'
  end.

(** [sorted(l)] *)
Definition sorted (l : list string) : list string := foldr insert_sorted [] l.

End Str.

Module Dict.

(** An insertion-ordered dict with string keys. *)
Definition t (V : Type) := list (string * V).

Definition keys {V} (d : t V) : list string := d.*1.

Definition contains {V} (k : string) (d : t V) : bool :=
  match assoc k d with Some _ => true | None => false end.

(** [d[k] = v]: an existing key keeps its place. *)
Fixpoint setitem {V} (k : string) (v : V) (d : t V) : t V :=
  match d with
  | [] => [(k, v)]
  | (k', v') :: d' => if String.eqb k k' then (k, v) :: d' else (k', v') :: setitem k v d'
  end.

(** [del d[k]] *)
Fixpoint delitem {V} (k : string) (d : t V) : t V :=
  match d with
  | [] => []
  | (k', v') :: d' => if String.eqb k k' then d' else (k', v') :: delitem k d'
  end.

End Dict.

(** ** logging *)

Inductive log_level := INFO | WARNING.

(** ["Weights from pretrained model not used in {}: {}"] *)
Inductive log_message :=
  | weights_not_used (class_name : string) (keys : list string).

Record log_record := mkLog { levelname : log_level; message : log_message }.

Definition class_name (m : module) : string :=
  match class_of m with
  | nn_Linear => "Linear"
  | nn_Embedding _ => "Embedding"
  | nn_Dropout => "Dropout"
  | nn_ModuleList => "ModuleList"
  | cls_BertLayerNorm => "BertLayerNorm"
  | cls name => name
  end.

(** ** torch.nn.Module: apply and _load_from_state_dict *)

Module nnModule.

(** [for module in self.children(): module.apply(fn)] then [fn(self)] *)
Fixpoint apply {S} (fn : module -> ST S unit) (m : module) : ST S unit :=
  match m with
  | Module _ _ ms =>
      _ ← (fix children (ms : list (string * module)) : ST S unit :=
             match ms with
             | [] => mret tt
             | (_, child) :: ms' => _ ← apply fn child; children ms'
             end) ms;
      fn m
  end.

(** The parameter at a dotted path: the submodules' names, then the
    parameter's name. *)
Fixpoint get_parameter (path : list string) (name : string) (m : module) : option loc :=
  match path with
  | [] => assoc name (_parameters m)
  | child :: path' => assoc child (_modules m) ≫= get_parameter path' name
  end.

(** The dotted keys under which [state_dict()] and the loader know the
    parameters of a module, in the order the loader visits them; a parameter
    shared by two modules is listed under both keys. *)
Fixpoint parameter_keys (prefix : string) (m : module) : list (string * loc) :=
  match m with
  | Module _ ps ms =>
      map (fun p => (prefix +:+ p.1, p.2)) ps ++
      (fix children (ms : list (string * module)) : list (string * loc) :=
         match ms with
         | [] => []
         | (name, child) :: ms' =>
             parameter_keys (prefix +:+ name +:+ ".") child ++ children ms'
         end) ms
  end.

(** [module.state_dict()]: the parameters' tensors under their keys. *)
Definition state_dict (σ : store) (m : module) : Dict.t tensor :=
  map (fun p => (p.1, σ p.2)) (parameter_keys "" m).

Record load_state := mkLoad {
  params : store;
  missing_keys : list string;
  unexpected_keys : list string;
  error_msgs : list error_msg;
}.

Definition shape_eqb (s1 s2 : list nat) : bool := bool_decide (s1 = s2).

(** The loop over the module's own parameters.  (The modules here have no
    buffers and no load hooks; [param.copy_] of a tensor of the same shape
    does not fail.) *)
Definition load_param (state_dict : Dict.t tensor) (prefix : string)
    (entry : string * loc) : ST load_state unit :=
  let '(name, param) := entry in
  let key := prefix +:+ name in
  st ← get;
  match assoc key state_dict with
  | Some input_param =>
      (* loading a 1-dim tensor into a 0-dim parameter *)
      input_param ←
        match shape (params st param), shape input_param with
        | [], [_] =>
            match data input_param with
            | x :: _ => mret (Tensor [] [x])
            | [] => lift (Raise IndexError)
            end
        | _, _ => mret input_param
        end;
      if shape_eqb (shape input_param) (shape (params st param))
      then modify (fun st => mkLoad (<[param := input_param]> (params st)) (missing_keys st)
                                    (unexpected_keys st) (error_msgs st))
      else modify (fun st => mkLoad (params st) (missing_keys st) (unexpected_keys st)
                                    (error_msgs st ++
                                     [size_mismatch key (shape input_param)
                                                    (shape (params st param))]))
  | None =>
      (* strict *)
      modify (fun st => mkLoad (params st) (missing_keys st ++ [key]) (unexpected_keys st)
                               (error_msgs st))
  end.

(** The loop over [state_dict.keys()] that collects the unexpected ones. *)
Definition check_key (m : module) (prefix : string) (key : string) : ST load_state unit :=
  if String.prefix prefix key then
    let input_name := Str.before_dot (Str.drop (String.length prefix) key) in
    if Dict.contains input_name (_modules m) || Dict.contains input_name (_parameters m)
    then mret tt
    else modify (fun st => mkLoad (params st) (missing_keys st) (unexpected_keys st ++ [key])
                                  (error_msgs st))
  else mret tt.

(** [for x in l: f(x)] *)
Fixpoint for_each {S A} (f : A -> ST S unit) (l : list A) : ST S unit :=
  match l with
  | [] => mret tt
  | x :: l' => _ ← f x; for_each f l'
  end.

(** [module._load_from_state_dict(state_dict, prefix, local_metadata, True,
    missing_keys, unexpected_keys, error_msgs)] *)
Definition _load_from_state_dict (m : module) (state_dict : Dict.t tensor) (prefix : string)
  : ST load_state unit :=
  _ ← for_each (load_param state_dict prefix) (_parameters m);
  for_each (check_key m prefix) (Dict.keys state_dict).

End nnModule.

(** [torch.cat([x, y], dim=1)] *)
Definition cat1 {A} : list (list A) -> list (list A) -> result (list (list A)) :=
  zip_exact (fun x y => Ok (x ++ y)).

(** [t.size(1)] of a tensor with at least one row. *)
Definition size1 {A} (t : list (list A)) : nat := length (hd [] t).

(** [t.masked_fill(mask.unsqueeze(-1), 0)] on a (B, M, H) tensor. *)
Definition masked_fill (mask : Z -> bool) (t : seq3) (labels : list (list Z)) : result seq3 :=
  zip_exact (zip_exact (fun x l => Ok (if mask l then map (fun _ => 0%R) x else x))) t labels.

(** An element of the tuple a forward pass returns. *)
Inductive value :=
  | tensor3 (x : seq3)
  | tensor2 (x : list vec)
  | encoder_output (o : BertEncoder.output).

Module LukeBaseModel.

Record t := mk {
  config : LukeConfig.t;
  encoder : BertEncoder.t;
  pooler : module;
  embeddings : module;
  entity_embeddings : EntityEmbeddings.t;
}.

Definition init (config : LukeConfig.t) : ST heap t :=
  encoder ← BertEncoder.init config;
  pooler ← BertPooler_init config;
  embeddings ← BertEmbeddings_init config;
  entity_embeddings ← EntityEmbeddings.init config None;
  mret (mk config encoder pooler embeddings entity_embeddings).

Definition children (self : t) : list (string * module) :=
  [("encoder", BertEncoder.registry (encoder self));
   ("pooler", pooler self);
   ("embeddings", embeddings self);
   ("entity_embeddings", EntityEmbeddings.registry (entity_embeddings self))].

Definition attr (name : string) (m : module) : ST heap loc :=
  match assoc name (_parameters m) with
  | Some l => mret l
  | None => lift (Raise (AttributeError name))
  end.

Definition init_weights (config : BertConfig.t) (m : module) : ST heap unit :=
  _ ← match class_of m with
       | nn_Linear =>
           weight ← attr "weight" m;
           normal_ weight 0 (BertConfig.initializer_range config)
       | nn_Embedding embedding_dim =>
           weight ← attr "weight" m;
           if (embedding_dim =? 1)%nat  (* embedding for bias parameters *)
           then zero_ weight
           else normal_ weight 0 (BertConfig.initializer_range config)
       | cls_BertLayerNorm =>
           bias ← attr "bias" m;
           _ ← zero_ bias;
           weight ← attr "weight" m;
           fill_ weight 1
       | _ => mret tt
       end;
  match class_of m, assoc "bias" (_parameters m) with
  | nn_Linear, Some bias => zero_ bias
  | _, _ => mret tt
  end.

(** The renaming loop of [load_bert_weights]. *)
Definition new_key (key : string) : string :=
  let new_key := Str.replace "beta" "bias" (Str.replace "gamma" "weight" key) in
  if String.prefix "bert." new_key then Str.drop 5 new_key else new_key.

Definition rename (state_dict : Dict.t tensor) (key : string) : result (Dict.t tensor) :=
  let new_key := new_key key in
  if String.eqb key new_key then Ok state_dict
  else
    match assoc key state_dict with
    | Some v => Ok (Dict.delitem key (Dict.setitem new_key v state_dict))
    | None => Raise (KeyError key)
    end.

Definition rename_keys (state_dict : Dict.t tensor) : result (Dict.t tensor) :=
  foldl (fun d key => d ← d; rename d key) (Ok state_dict) (Dict.keys state_dict).

(** The inner function [load(module, prefix)]. *)
Fixpoint load (state_dict : Dict.t tensor) (m : module) (prefix : string)
  : ST nnModule.load_state unit :=
  _ ← nnModule._load_from_state_dict m state_dict prefix;
  match m with
  | Module _ _ ms =>
      (fix children (ms : list (string * module)) : ST nnModule.load_state unit :=
         match ms with
         | [] => mret tt
         | (name, child) :: ms' =>
             _ ← load state_dict child (prefix +:+ name +:+ ".");
             children ms'
         end) ms
  end.

(** [load_bert_weights(self, state_dict)]: the state is the parameter
    store and the log.  ([_metadata] only carries module versions, which
    none of these modules reads.) *)
Definition load_bert_weights (self : module) (state_dict : Dict.t tensor)
  : ST (store * list log_record) unit := fun '(σ, log) =>
  match rename_keys state_dict with
  | Raise e => (Raise e, (σ, log))
  | Ok state_dict =>
      let '(r, st) := load state_dict self "" (nnModule.mkLoad σ [] [] []) in
      let σ := nnModule.params st in
      match r with
      | Raise e => (Raise e, (σ, log))
      | Ok _ =>
          let log :=
            if (0 <? length (nnModule.unexpected_keys st))%nat
            then log ++ [mkLog INFO (weights_not_used (class_name self)
                                       (Str.sorted (nnModule.unexpected_keys st)))]
            else log in
          if (0 <? length (nnModule.error_msgs st))%nat
          then (Raise (RuntimeError (class_name self) (nnModule.error_msgs st)), (σ, log))
          else (Ok tt, (σ, log))
      end
  end.

Definition _compute_extended_attention_mask
    (word_attention_mask entity_attention_mask : list (list Z)) : result (list (list R)) :=
  attention_mask ← cat1 word_attention_mask entity_attention_mask;
  Ok (map (map (fun m => (1 - IZR m) * -10000)%R) attention_mask).

End LukeBaseModel.

Module LukeModel.

Definition registry (self : LukeBaseModel.t) : module :=
  Module (cls "LukeModel") [] (LukeBaseModel.children self).

Definition forward `{BertForward} (σ : store) (training : bool) (self : LukeBaseModel.t)
    (word_ids word_segment_ids word_attention_mask entity_ids : list (list Z))
    (entity_position_ids : list (list (list Z)))
    (entity_segment_ids entity_attention_mask : list (list Z)) : ST Generator (list value) :=
  let config := LukeBaseModel.config self in
  let word_seq_size := size1 word_ids in
  extended_attention_mask ←
    lift (LukeBaseModel._compute_extended_attention_mask word_attention_mask entity_attention_mask);
  word_embedding_output ←
    BertEmbeddings_forward σ training (LukeBaseModel.embeddings self) word_ids word_segment_ids;
  entity_embedding_output ←
    EntityEmbeddings.forward σ training (LukeBaseModel.entity_embeddings self)
      entity_ids entity_position_ids (Some entity_segment_ids);
  embedding_output ← lift (cat1 word_embedding_output entity_embedding_output);
  encoder_outputs ←
    BertEncoder.forward σ training (LukeBaseModel.encoder self) embedding_output
      extended_attention_mask (repeat None (BertConfig.num_hidden_layers config));
  let sequence_output := encoder_outputs.1 in
  let word_sequence_output := map (take word_seq_size) sequence_output in
  let entity_sequence_output := map (drop word_seq_size) sequence_output in
  pooled_output ← lift (BertPooler_forward σ (LukeBaseModel.pooler self) sequence_output);
  mret ([tensor3 word_sequence_output; tensor3 entity_sequence_output; tensor2 pooled_output]
        ++ map encoder_output encoder_outputs.2).

End LukeModel.

Module LukeE2EModel.

Record t := mk {
  base : LukeBaseModel.t;
  config : LukeE2EConfig.t;
  mask_entity_embeddings : EntityEmbeddings.t;
  el_encoder : BertEncoder.t;
  entity_selector : EntitySelector.t;
}.

(** [self.entity_selector.embeddings.weight = w] *)
Definition tie (w : loc) (s : EntitySelector.t) : EntitySelector.t :=
  let e := EntitySelector.embeddings s in
  EntitySelector.mk (EntitySelector.transform s)
    (Embedding.mk (Embedding.num_embeddings e) (Embedding.embedding_dim e)
                  (Embedding.padding_idx e) w)
    (EntitySelector.bias s).

Definition init (config : LukeE2EConfig.t) : ST heap t :=
  base ← LukeBaseModel.init config;
  mask_entity_embeddings ← EntityEmbeddings.init config (Some 2%nat);
  let el_config :=
    LukeE2EConfig.with_num_hidden_layers (LukeE2EConfig.num_el_hidden_layers config) config in
  el_encoder ← BertEncoder.init config;
  entity_selector ← EntitySelector.init config;
  let entity_selector :=
    tie (Embedding.weight
           (EntityEmbeddings.entity_embeddings (LukeBaseModel.entity_embeddings base)))
        entity_selector in
  mret (mk base config mask_entity_embeddings el_encoder entity_selector).

Definition registry (self : t) : module :=
  Module (cls "LukeE2EModel") []
    (LukeBaseModel.children (base self) ++
     [("mask_entity_embeddings", EntityEmbeddings.registry (mask_entity_embeddings self));
      ("el_encoder", BertEncoder.registry (el_encoder self));
      ("entity_selector", EntitySelector.registry (entity_selector self))]).

(** Lines 190-191: the placeholder embeddings of the mention slots. *)
Definition mask_entity_embedding_output (σ : store) (training : bool) (self : t)
    (entity_attention_mask : list (list Z)) (entity_position_ids : list (list (list Z)))
    (entity_segment_ids : list (list Z)) : ST Generator seq3 :=
  EntityEmbeddings.forward σ training (mask_entity_embeddings self)
    entity_attention_mask entity_position_ids (Some entity_segment_ids).

(** Lines 190-196: the entity-linking pass up to the hidden vectors of the
    mention slots, of shape (B, M, H). *)
Definition el_entity_sequence_output `{BertForward} (σ : store) (training : bool) (self : t)
    (word_seq_size : nat) (word_embedding_output : seq3)
    (extended_attention_mask : list (list R)) (entity_position_ids : list (list (list Z)))
    (entity_segment_ids entity_attention_mask : list (list Z)) : ST Generator seq3 :=
  mask_entity_embedding_output ←
    mask_entity_embedding_output σ training self entity_attention_mask entity_position_ids
      entity_segment_ids;
  el_embedding_output ← lift (cat1 word_embedding_output mask_entity_embedding_output);
  el_encoder_outputs ←
    BertEncoder.forward σ training (el_encoder self) el_embedding_output
      extended_attention_mask
      (repeat None (LukeE2EConfig.num_el_hidden_layers (config self)));
  mret (map (drop word_seq_size) el_encoder_outputs.1).

(** Lines 190-198: the entity-linking pass up to the scaled selector
    scores, of shape (B, M, C). *)
Definition entity_linking `{BertForward} (σ : store) (training : bool) (self : t)
    (word_seq_size : nat) (word_embedding_output : seq3)
    (extended_attention_mask : list (list R))
    (entity_candidate_ids : list (list (list Z))) (entity_position_ids : list (list (list Z)))
    (entity_segment_ids entity_attention_mask : list (list Z))
  : ST Generator (list (list (list R))) :=
  el_entity_sequence_output ←
    el_entity_sequence_output σ training self word_seq_size word_embedding_output
      extended_attention_mask entity_position_ids entity_segment_ids entity_attention_mask;
  entity_selector_scores ←
    lift (EntitySelector.forward σ (entity_selector self) el_entity_sequence_output
            entity_candidate_ids);
  mret (map (map (map (fun x => x / LukeE2EConfig.entity_selector_softmax_temp (config self))%R))
            entity_selector_scores).

(** Lines 201-203: the candidates' embeddings weighted by their
    probabilities and summed over the candidate axis. *)
Definition mix_candidates (σ : store) (training : bool) (self : t)
    (entity_attention_probs : list (list (list R)))
    (entity_candidate_ids : list (list (list Z))) (entity_position_ids : list (list (list Z)))
    (entity_segment_ids : list (list Z)) : ST Generator seq3 :=
  entity_embedding_output ←
    EntityEmbeddings.forward_candidates σ training (LukeBaseModel.entity_embeddings (base self))
      entity_candidate_ids entity_position_ids entity_segment_ids;
  lift (zip_exact (zip_exact (fun es ps =>
          Ok (sum_rows (BertConfig.hidden_size (config self)) (zip_with vscale ps es))))
        entity_embedding_output entity_attention_probs).

(** Lines 205-210. *)
Definition mask_entities (σ : store) (training : bool) (self : t)
    (entity_embedding_output : seq3) (entity_position_ids : list (list (list Z)))
    (entity_segment_ids : list (list Z)) (masked_entity_labels : option (list (list Z)))
  : ST Generator seq3 :=
  match masked_entity_labels with
  | Some masked_entity_labels =>
      (* index of [MASK] token is 2 *)
      let mask_entity_ids := map (map (fun _ => 2%Z)) entity_segment_ids in
      mask_embedding_output ←
        EntityEmbeddings.forward σ training (LukeBaseModel.entity_embeddings (base self))
          mask_entity_ids entity_position_ids (Some entity_segment_ids);
      mask_embedding_output ←
        lift (masked_fill (fun l => (l =? -1)%Z) mask_embedding_output masked_entity_labels);
      entity_embedding_output ←
        lift (masked_fill (fun l => negb (l =? -1)%Z) entity_embedding_output
                masked_entity_labels);
      lift (add3 entity_embedding_output mask_embedding_output)
  | None => mret entity_embedding_output
  end.

Definition forward `{BertForward} (σ : store) (training : bool) (self : t)
    (word_ids word_segment_ids word_attention_mask : list (list Z))
    (entity_candidate_ids : list (list (list Z))) (entity_position_ids : list (list (list Z)))
    (entity_segment_ids entity_attention_mask : list (list Z))
    (masked_entity_labels : option (list (list Z))) (output_entity_selector_scores : bool)
  : ST Generator (list value) :=
  let word_seq_size := size1 word_ids in
  extended_attention_mask ←
    lift (LukeBaseModel._compute_extended_attention_mask word_attention_mask entity_attention_mask);
  word_embedding_output ←
    BertEmbeddings_forward σ training (LukeBaseModel.embeddings (base self))
      word_ids word_segment_ids;
  entity_selector_scores ←
    entity_linking σ training self word_seq_size word_embedding_output extended_attention_mask
      entity_candidate_ids entity_position_ids entity_segment_ids entity_attention_mask;
  let entity_attention_probs := map (map F.softmax) entity_selector_scores in
  entity_embedding_output ←
    mix_candidates σ training self entity_attention_probs entity_candidate_ids
      entity_position_ids entity_segment_ids;
  entity_embedding_output ←
    mask_entities σ training self entity_embedding_output entity_position_ids
      entity_segment_ids masked_entity_labels;
  embedding_output ← lift (cat1 word_embedding_output entity_embedding_output);
  encoder_outputs ←
    BertEncoder.forward σ training (LukeBaseModel.encoder (base self)) embedding_output
      extended_attention_mask (repeat None (BertConfig.num_hidden_layers (config self)));
  let sequence_output := encoder_outputs.1 in
  let word_sequence_output := map (take word_seq_size) sequence_output in
  let entity_sequence_output := map (drop word_seq_size) sequence_output in
  pooled_output ← lift (BertPooler_forward σ (LukeBaseModel.pooler (base self)) sequence_output);
  if output_entity_selector_scores
  then mret ([tensor3 word_sequence_output; tensor3 entity_sequence_output;
              tensor2 pooled_output; tensor3 entity_selector_scores]
             ++ map encoder_output encoder_outputs.2)
  else mret ([tensor3 word_sequence_output; tensor3 entity_sequence_output;
              tensor2 pooled_output]
             ++ map encoder_output encoder_outputs.2).

End LukeE2EModel.

(** ** examples/reading_comprehension/main.py: batching *)

Module ReadingComprehension.

(** [torch.nn.utils.rnn.pad_sequence(sequences, batch_first=True,
    padding_value=v)] on 1-D tensors: every sequence is extended with [v] to
    the length of the longest; [sequences[0]] raises on an empty list. *)
Definition pad_sequence (sequences : list (list Z)) (padding_value : Z)
  : result (list (list Z)) :=
  match sequences with
  | [] => Raise IndexError
  | _ :: _ =>
      let max_len := max_list (map length sequences) in
      Ok (map (fun s => s ++ repeat padding_value (max_len - length s)) sequences)
  end.

(** The inner function of [collate_fn], for an attribute that holds a
    list of integers: [values] are the attribute's values over the batch. *)
Definition create_padded_sequence (values : list (list Z)) (padding_value : Z)
  : result (list (list Z)) :=
  pad_sequence values padding_value.

(** [s[:k]] *)
Definition slice_to {A} (k : Z) (s : list A) : list A :=
  if (0 <=? k)%Z then take (Z.to_nat k) s else take (length s - Z.to_nat (- k)) s.

(** [create_padded_sequence(attr, v)[:, :args.max_entity_length]] *)
Definition entity_field (values : list (list Z)) (padding_value : Z) (max_entity_length : Z)
  : result (list (list Z)) :=
  t ← create_padded_sequence values padding_value;
  Ok (map (slice_to max_entity_length) t).

End ReadingComprehension.

(** ** A small model to run *)

Module Example.

(** Hidden size 2, a one-layer main stack and a one-layer entity-linking
    stack, three entities (0 padding, 1 a real entity, 2 [MASK]). *)
Definition bert_config : BertConfig.t :=
  BertConfig.mk 3 2 1 1 2 (1 / 10) (1 / 10) 4 2 (2 / 100) EPS false false.

Definition config : LukeE2EConfig.t :=
  LukeE2EConfig.mk (LukeConfig.mk bert_config 3) 1 2.

(** The same with a two-layer main stack. *)
Definition config_deep : LukeE2EConfig.t :=
  LukeE2EConfig.with_num_hidden_layers 2 config.

Definition generator : Generator := mkGenerator (fun _ => 1%R) (fun _ => (1 / 2)%R).

Definition empty_heap : heap := mkHeap (fun _ => Tensor [] []) 0 generator.

(** Stand-ins for the library's forward passes: zero word embeddings,
    layers that return their input, a pooler that takes the first token, an
    identity head transform. *)
#[export] Instance bert : BertForward := {|
  BertEmbeddings_forward σ training m input_ids token_type_ids :=
    mret (map (map (fun _ => [0; 0]%R)) input_ids);
  BertLayer_forward σ training m hidden attention_mask head_mask := mret (hidden, []);
  BertPooler_forward σ m hidden := Ok (map (hd []) hidden);
  BertPredictionHeadTransform_forward σ m hidden := Ok hidden;
|}.

(** The model [LukeE2EModel(config)] builds on an empty heap, and the
    store it leaves. *)
Definition built : result LukeE2EModel.t * heap :=
  Eval cbv -[Rplus Rmult Rminus Ropp Rdiv Rinv IZR INR exp sqrt pow EPS] in
  LukeE2EModel.init config empty_heap.

Definition model : LukeE2EModel.t :=
  Eval cbv -[Rplus Rmult Rminus Ropp Rdiv Rinv IZR INR exp sqrt pow EPS] in
  match built.1 as r return match r with Ok _ => LukeE2EModel.t | Raise _ => unit end with
  | Ok m => m
  | Raise _ => tt
  end.

Definition σ : store := cells built.2.

(** The same for the configuration with the deeper main stack. *)
Definition built_deep : result LukeE2EModel.t * heap :=
  Eval cbv -[Rplus Rmult Rminus Ropp Rdiv Rinv IZR INR exp sqrt pow EPS] in
  LukeE2EModel.init config_deep empty_heap.

Definition model_deep : LukeE2EModel.t :=
  Eval cbv -[Rplus Rmult Rminus Ropp Rdiv Rinv IZR INR exp sqrt pow EPS] in
  match built_deep.1 as r return match r with Ok _ => LukeE2EModel.t | Raise _ => unit end with
  | Ok m => m
  | Raise _ => tt
  end.

(** One example, one word, one mention slot with candidates 1 and 0
    (padding) spanning word position 0. *)
Definition word_ids : list (list Z) := [[1%Z]].
Definition word_segment_ids : list (list Z) := [[0%Z]].
Definition word_attention_mask : list (list Z) := [[1%Z]].
Definition entity_candidate_ids : list (list (list Z)) := [[[1%Z; 0%Z]]].
Definition entity_position_ids : list (list (list Z)) := [[[0%Z; (-1)%Z]]].
Definition entity_segment_ids : list (list Z) := [[0%Z]].
Definition entity_attention_mask : list (list Z) := [[1%Z]].

(** A checkpoint of a plain transformer: a legacy LayerNorm name under the
    [bert.] prefix, an entity table of the wrong width, and a head the model
    does not have. *)
Definition checkpoint : Dict.t tensor :=
  [("bert.embeddings.LayerNorm.gamma", Tensor [2%nat] [3; 4]%R);
   ("entity_embeddings.entity_embeddings.weight",
    Tensor [3%nat; 3%nat] [0; 0; 0; 1; 1; 1; 2; 2; 2]%R);
   ("cls.predictions.bias", Tensor [3%nat] [0; 0; 0]%R)].

Definition renamed : Dict.t tensor :=
  [("entity_embeddings.entity_embeddings.weight",
    Tensor [3%nat; 3%nat] [0; 0; 0; 1; 1; 1; 2; 2; 2]%R);
   ("cls.predictions.bias", Tensor [3%nat] [0; 0; 0]%R);
   ("embeddings.LayerNorm.weight", Tensor [2%nat] [3; 4]%R)].

(** The same without the entity table. *)
Definition plain_checkpoint : Dict.t tensor :=
  [("bert.embeddings.LayerNorm.gamma", Tensor [2%nat] [3; 4]%R);
   ("cls.predictions.bias", Tensor [3%nat] [0; 0; 0]%R)].

Definition plain_renamed : Dict.t tensor :=
  [("cls.predictions.bias", Tensor [3%nat] [0; 0; 0]%R);
   ("embeddings.LayerNorm.weight", Tensor [2%nat] [3; 4]%R)].

End Example.

(** ** What the specification says, in its own words *)

(** An entity slot's real position ids: those that are not -1. *)
Definition real_positions (position_ids : list Z) : list Z :=
  filter (fun i => i ≠ (-1)%Z) position_ids.

(** A position id the data model allows for a table of [n] rows. *)
Definition valid_position (n : nat) (i : Z) : Prop :=
  i = (-1)%Z \/ (0 <= i < Z.of_nat n)%Z.

(** "sum over P, then divide by the count of real positions plus a small
    numeric-stability epsilon": the masked mean-pool of the rows of [weight]
    at the slot's real positions. *)
Definition masked_mean_pool (weight : tensor) (position_ids : list Z) : vec :=
  let d := nth 1 (shape weight) 0%nat in
  let real := real_positions position_ids in
  vdiv (sum_rows d (map (fun i => row d weight (Z.to_nat i)) real))
       (INR (length real) + EPS)%R.

(** ** Auxiliary notions *)

(** Entries of (B, M) and (B, M, C) tensors. *)
Definition at2 {A} (t : list (list A)) (b m : nat) : option A :=
  t !! b ≫= (.!! m).
Definition at3 {A} (t : list (list (list A))) (b m c : nat) : option A :=
  at2 t b m ≫= (.!! c).

(** A computation that raises whatever the state. *)
Definition always_raises {S A} (m : ST S A) : Prop :=
  forall s, exists e s', m s = (Raise e, s').

(** ** The loader, one parameter key at a time *)

(** What the loader does with one parameter key, as a function of the
    loader's state. *)
Definition load_step (state_dict : Dict.t tensor) (st : nnModule.load_state)
    (entry : string * loc) : nnModule.load_state :=
  let '(key, param) := entry in
  match assoc key state_dict with
  | Some input_param =>
      if nnModule.shape_eqb (shape input_param) (shape (nnModule.params st param))
      then nnModule.mkLoad (<[param := input_param]> (nnModule.params st))
             (nnModule.missing_keys st) (nnModule.unexpected_keys st) (nnModule.error_msgs st)
      else nnModule.mkLoad (nnModule.params st) (nnModule.missing_keys st)
             (nnModule.unexpected_keys st)
             (nnModule.error_msgs st ++
              [size_mismatch key (shape input_param) (shape (nnModule.params st param))])
  | None =>
      nnModule.mkLoad (nnModule.params st) (nnModule.missing_keys st ++ [key])
        (nnModule.unexpected_keys st) (nnModule.error_msgs st)
  end.

Definition add_unexpected (u : list string) (st : nnModule.load_state) : nnModule.load_state :=
  nnModule.mkLoad (nnModule.params st) (nnModule.missing_keys st)
    (nnModule.unexpected_keys st ++ u) (nnModule.error_msgs st).

(** Whether the loop over the state dict's keys in
    [module._load_from_state_dict], called on [m] with [prefix], collects
    [key] as unexpected. *)
Definition unexpected_at (m : module) (prefix key : string) : bool :=
  String.prefix prefix key &&
  negb (let input_name := Str.before_dot (Str.drop (String.length prefix) key) in
        Dict.contains input_name (_modules m) || Dict.contains input_name (_parameters m)).

(** The keys the walk of [load] over the module tree collects as
    unexpected, in the order it collects them: a key is collected once for
    every module whose prefix it starts with and that has no attribute of the
    name that follows. *)
Fixpoint unexpected_keys (keys : list string) (prefix : string) (m : module) : list string :=
  match m with
  | Module _ _ ms =>
      filter (fun key => unexpected_at m prefix key = true) keys ++
      (fix children (ms : list (string * module)) : list string :=
         match ms with
         | [] => []
         | (name, child) :: ms' =>
             unexpected_keys keys (prefix +:+ name +:+ ".") child ++ children ms'
         end) ms
  end.

(** No parameter among [ps] is 0-dimensional in the store [σ]. *)
Definition no_scalar (σ : store) (ps : list (string * loc)) : Prop :=
  Forall (fun p => shape (σ p.2) ≠ []) ps.

(** The error message, if any, that a parameter key produces. *)
Definition mismatch (σ : store) (state_dict : Dict.t tensor) (entry : string * loc)
  : option error_msg :=
  t ← assoc entry.1 state_dict;
  if nnModule.shape_eqb (shape t) (shape (σ entry.2)) then None
  else Some (size_mismatch entry.1 (shape t) (shape (σ entry.2))).

(** A parameter key under which nothing is copied: it is missing from the
    state dict, or the tensor there has another shape. *)
Definition not_loaded (σ : store) (state_dict : Dict.t tensor) (entry : string * loc) : Prop :=
  match assoc entry.1 state_dict with
  | None => True
  | Some t => shape t ≠ shape (σ entry.2)
  end.

(** ** Notions the further properties are stated with *)

(** [f] fails with [e] or not at all. *)
Definition raises_only {A B} (e : exception) (f : A -> result B) : Prop :=
  forall a, f a = Raise e \/ exists b, f a = Ok b.

(** Two tensors of the same (B, M, C) shape. *)
Definition same_shape3 {A B} (x : list (list (list A))) (y : list (list (list B))) : Prop :=
  Forall2 (Forall2 (fun r1 r2 => length r1 = length r2)) x y.

(** The locations of a module's parameters, descendants included. *)
Definition param_locs (m : module) : list loc := (nnModule.parameter_keys "" m).*2.

(** [st'] comes from [st] by writes that keep every shape and touch
    only locations in [ls]. *)
Definition writes_within (ls : list loc) (st st' : nnModule.load_state) : Prop :=
  (forall l, shape (nnModule.params st' l) = shape (nnModule.params st l)) /\
  (forall l, l ∉ ls -> nnModule.params st' l = nnModule.params st l).

(** No new key clashes with another key of the dict, old or new. *)
Definition no_clash (keys : list string) : Prop :=
  forall k1 k2, k1 ∈ keys -> k2 ∈ keys -> k1 ≠ k2 ->
    LukeBaseModel.new_key k1 ≠ k2 /\ LukeBaseModel.new_key k1 ≠ LukeBaseModel.new_key k2.

(** What the renaming loop over [state_dict] has reached after the keys
    [processed], with [todo] to go. *)
Definition renamed_so_far (state_dict : Dict.t tensor) (processed todo : list string)
    (d : Dict.t tensor) : Prop :=
  NoDup (Dict.keys d) /\
  (forall k, k ∈ processed -> assoc (LukeBaseModel.new_key k) d = assoc k state_dict) /\
  (forall k, k ∈ todo -> assoc k d = assoc k state_dict) /\
  (forall q, q ∈ Dict.keys d -> q ∈ map LukeBaseModel.new_key processed \/ q ∈ todo).

(** [h'] is [h] with the fresh locations [ls] allocated, in this order;
    the cells [h] had are as they were. *)
Definition allocated (h h' : heap) (ls : list loc) : Prop :=
  ls = seq (next h) (length ls) /\
  next h' = next h + length ls /\
  forall l, l < next h -> cells h' l = cells h l.

(** [h'] comes from [h] by in-place writes that keep every shape and
    touch only locations in [ls]; nothing is allocated. *)
Definition rewritten_within (ls : list loc) (h h' : heap) : Prop :=
  next h' = next h /\
  (forall l, shape (cells h' l) = shape (cells h l)) /\
  (forall l, l ∉ ls -> cells h' l = cells h l).

(** What a call can raise: nothing but a missing attribute. *)
Definition ok_or_missing_attribute (r : result unit) : Prop :=
  r = Ok tt \/ exists name, r = Raise (AttributeError name).

(** The table of an [nn.Embedding] has the shape its attributes say, and
    as many entries. *)
Definition table_shaped (σ : store) (e : Embedding.t) (n d : nat) : Prop :=
  Embedding.num_embeddings e = n /\ Embedding.embedding_dim e = d /\
  shape (σ (Embedding.weight e)) = [n; d] /\ well_shaped (σ (Embedding.weight e)).

(** The weight and the bias of a [BertLayerNorm] over vectors of length
    [n] have [n] entries each. *)
Definition layer_norm_shaped (σ : store) (ln : BertLayerNorm.t) (n : nat) : Prop :=
  length (data (σ (BertLayerNorm.weight ln))) = n /\
  length (data (σ (BertLayerNorm.bias ln))) = n.

(** The parameters of an [EntityEmbeddings] module have the shapes the
    forward pass expects, for [n] entities and hidden size [d]. *)
Definition entity_embeddings_shaped (σ : store) (config : BertConfig.t)
    (e : EntityEmbeddings.t) (n : nat) : Prop :=
  let d := BertConfig.hidden_size config in
  table_shaped σ (EntityEmbeddings.entity_embeddings e) n d /\
  table_shaped σ (EntityEmbeddings.position_embeddings e)
    (BertConfig.max_position_embeddings config) d /\
  table_shaped σ (EntityEmbeddings.token_type_embeddings e)
    (BertConfig.type_vocab_size config) d /\
  layer_norm_shaped σ (EntityEmbeddings.LayerNorm e) d.

(** The locations an [EntityEmbeddings] module reads. *)
Definition entity_embeddings_below (e : EntityEmbeddings.t) (k : loc) : Prop :=
  Embedding.weight (EntityEmbeddings.entity_embeddings e) < k /\
  Embedding.weight (EntityEmbeddings.position_embeddings e) < k /\
  Embedding.weight (EntityEmbeddings.token_type_embeddings e) < k /\
  BertLayerNorm.weight (EntityEmbeddings.LayerNorm e) < k /\
  BertLayerNorm.bias (EntityEmbeddings.LayerNorm e) < k.

(** A (B, E, H) tensor with [d] entries in every vector. *)
Definition width3 (d : nat) (t : seq3) : Prop := Forall (Forall (fun v => length v = d)) t.

(** Two tensors with as many examples and as many slots in each. *)
Definition same_shape2 {A B} (x : list (list A)) (y : list (list B)) : Prop :=
  Forall2 (fun r1 r2 => length r1 = length r2) x y.

(** [(B, M)] to [(B, M, 1)]: every slot holds the one candidate. *)
Definition one_candidate {A} (t : list (list A)) : list (list (list A)) :=
  map (map (fun a => [a])) t.

(** * Properties *)

(** Runs the model's functions on concrete inputs; the operations on real
    numbers are left as they stand. *)
Ltac run := cbv -[Rplus Rmult Rminus Ropp Rdiv Rinv IZR INR exp sqrt pow EPS Rle_dec Rlt_dec].

(** ** Vectors and traversals *)

Section vectors.
Local Open Scope R_scope.

Lemma length_vzero n : length (vzero n) = n.
Proof. apply repeat_length. Qed.

Lemma length_vadd x y : length (vadd x y) = (length x `min` length y)%nat.
Proof. apply length_zip_with. Qed.

Lemma length_vscale c x : length (vscale c x) = length x.
Proof. apply length_map. Qed.

Lemma length_vdiv x c : length (vdiv x c) = length x.
Proof. apply length_map. Qed.

Lemma vadd_zero_l n x : length x = n -> vadd (vzero n) x = x.
Proof.
  intros <-. induction x as [|a x IH]; [done|].
  cbn. rewrite Rplus_0_l. f_equal. exact IH.
Qed.

Lemma vadd_zero_r n x : length x = n -> vadd x (vzero n) = x.
Proof.
  intros <-. induction x as [|a x IH]; [done|].
  cbn. rewrite Rplus_0_r. f_equal. exact IH.
Qed.

Lemma vscale_0 x : vscale 0 x = vzero (length x).
Proof.
  induction x as [|a x IH]; [done|].
  cbn. rewrite Rmult_0_l. f_equal. exact IH.
Qed.

Lemma vscale_1 x : vscale 1 x = x.
Proof.
  induction x as [|a x IH]; [done|].
  cbn. rewrite Rmult_1_l. f_equal. exact IH.
Qed.


Lemma length_sum_rows n rows :
  Forall (fun r => length r = n) rows -> length (sum_rows n rows) = n.
Proof.
  unfold sum_rows. induction 1 as [|r rows Hr _ IH]; cbn.
  - apply length_vzero.
  - rewrite length_vadd, Hr, IH. lia.
Qed.

End vectors.

Lemma mapM_result_ok {A B} (f : A -> result B) (g : A -> B) (l : list A) :
  Forall (fun a => f a = Ok (g a)) l -> mapM f l = Ok (map g l).
Proof.
  induction 1 as [|a l Ha _ IH]; [done|].
  cbn. rewrite Ha. cbn. rewrite IH. done.
Qed.

Lemma mapM_result_ext {A B} (f g : A -> result B) (l : list A) :
  (forall a, f a = g a) -> mapM f l = mapM g l.
Proof.
  intros Hfg. induction l as [|a l IH]; [done|].
  cbn. rewrite Hfg, IH. done.
Qed.

(** ** C1: the position component is a masked mean-pool *)

Section position_component.
Local Open Scope R_scope.


Lemma length_row n d (w : tensor) (i : nat) :
  shape w = [n; d] -> well_shaped w -> (i < n)%nat -> length (row d w i) = d.
Proof.
  unfold well_shaped, row. intros -> Hlen Hi. cbn in Hlen.
  rewrite length_take, length_drop, Hlen. nia.
Qed.

Lemma embedding_valid n d (w : tensor) (i : Z) :
  shape w = [n; d] -> (0 < n)%nat -> valid_position n i ->
  F.embedding w (clamp_min 0 i) = Ok (row d w (Z.to_nat (clamp_min 0 i))).
Proof.
  unfold F.embedding, clamp_min, valid_position. intros -> Hn Hi.
  destruct (Z.leb_spec 0 (i `max` 0)); [|lia].
  destruct (Z.ltb_spec (i `max` 0) (Z.of_nat n)); [done | lia].
Qed.

Lemma rsum_ne_mask ids :
  rsum (ne_mask (-1) ids) = INR (length (real_positions ids)).
Proof.
  unfold real_positions. induction ids as [|i ids IH]; [done|].
  cbn [ne_mask map rsum foldr]. fold (ne_mask (-1) ids). fold (rsum (ne_mask (-1) ids)).
  rewrite IH. rewrite filter_cons.
  destruct (Z.eqb_spec i (-1)) as [->|Hne].
  - rewrite decide_False by (intros H; apply H; reflexivity). lra.
  - rewrite decide_True by done. cbn [length]. rewrite S_INR. lra.
Qed.

Lemma masked_sum n d (w : tensor) ids :
  shape w = [n; d] -> well_shaped w -> (0 < n)%nat -> Forall (valid_position n) ids ->
  sum_rows d (zip_with vscale (ne_mask (-1) ids)
                (map (fun i => row d w (Z.to_nat (clamp_min 0 i))) ids))
  = sum_rows d (map (fun i => row d w (Z.to_nat i)) (real_positions ids)).
Proof.
  intros Hs Hw Hn. unfold real_positions, sum_rows.
  induction 1 as [|i ids Hi Hids IH]; [done|].
  cbn [ne_mask map zip_with foldr]. fold (ne_mask (-1) ids).
  rewrite IH, filter_cons.
  assert (length (foldr vadd (vzero d)
            (map (fun i => row d w (Z.to_nat i)) (filter (fun i => i ≠ (-1)%Z) ids))) = d)
    as Hlen.
  { apply (length_sum_rows d). apply Forall_map, Forall_forall.
    intros j [Hne Hin]%list_elem_of_filter. cbn.
    rewrite Forall_forall in Hids. destruct (Hids j Hin) as [->|Hj]; [done|].
    eapply length_row; eauto. lia. }
  destruct (Z.eqb_spec i (-1)) as [->|Hne].
  - rewrite decide_False by (intros H; apply H; reflexivity).
    rewrite vscale_0. apply vadd_zero_l.
    rewrite Hlen. symmetry. eapply length_row; eauto.
  - rewrite decide_True by done. cbn [map foldr]. rewrite vscale_1.
    destruct Hi as [->|Hi]; [done|].
    unfold clamp_min. rewrite Z.max_l by lia. done.
Qed.

Lemma position_average_pool n d (w : tensor) ids :
  shape w = [n; d] -> well_shaped w -> (0 < n)%nat -> Forall (valid_position n) ids ->
  EntityEmbeddings.position_average w ids = Ok (masked_mean_pool w ids).
Proof.
  intros Hs Hw Hn Hids. unfold EntityEmbeddings.position_average, masked_mean_pool.
  rewrite (mapM_result_ok _ (fun i => row d w (Z.to_nat i))).
  2:{ apply Forall_map. eapply Forall_impl; [exact Hids|].
      intros i Hi. cbn. eapply embedding_valid; eauto. }
  cbn. rewrite Hs. cbn [nth]. rewrite map_map.
  rewrite (masked_sum n d w ids Hs Hw Hn Hids), rsum_ne_mask. done.
Qed.



End position_component.


(** ** C10: omitted segment ids are segment 0 *)

Lemma mapM_result_map {A B C} (f : B -> result C) (g : A -> B) (l : list A) :
  mapM f (map g l) = mapM (fun a => f (g a)) l.
Proof.
  induction l as [|a l IH]; [done|].
  cbn. destruct (f (g a)); [|done]. cbn. rewrite IH. done.
Qed.

(** C10. Calling [EntityEmbeddings.forward] without [token_type_ids] is
    calling it with segment id 0 in every slot: the two calls are the same
    computation, and the segment term of that call is the row of segment 0
    for every entity slot. *)
Theorem forward_token_type_default
    (σ : store) (training : bool) (self : EntityEmbeddings.t)
    (entity_ids : list (list Z)) (position_ids : list (list (list Z))) :
  EntityEmbeddings.forward σ training self entity_ids position_ids None
  = EntityEmbeddings.forward σ training self entity_ids position_ids
      (Some (map (map (fun _ => 0%Z)) entity_ids))
  /\ EntityEmbeddings.token_type_term σ self (map (map (fun _ => 0%Z)) entity_ids)
     = mapM (mapM (fun _ =>
         Embedding.forward σ (EntityEmbeddings.token_type_embeddings self) 0)) entity_ids.
Proof.
  split; [reflexivity|].
  unfold EntityEmbeddings.token_type_term. rewrite mapM_result_map.
  apply mapM_result_ext. intros ids. apply mapM_result_map.
Qed.

(** ** Reasoning about stateful computations *)

Lemma ST_bind_Ok {S A B} (m : ST S A) (f : A -> ST S B) (s s2 : S) (b : B) :
  (m ≫= f) s = (Ok b, s2) -> exists a s1, m s = (Ok a, s1) /\ f a s1 = (Ok b, s2).
Proof.
  unfold mbind, ST_bind. destruct (m s) as [[a|e] s1]; [eauto | discriminate].
Qed.

Lemma ST_bind_run {S A B} (m : ST S A) (f : A -> ST S B) (s s1 : S) (a : A) :
  m s = (Ok a, s1) -> (m ≫= f) s = f a s1.
Proof. unfold mbind, ST_bind. intros ->. done. Qed.

Lemma ST_bind_raise {S A B} (m : ST S A) (f : A -> ST S B) (s s1 : S) (e : exception) :
  m s = (Raise e, s1) -> (m ≫= f) s = (Raise e, s1).
Proof. unfold mbind, ST_bind. intros ->. done. Qed.

Lemma ST_bind_lift_Ok {S A B} (a : A) (f : A -> ST S B) (s : S) :
  (lift (Ok a) ≫= f) s = f a s.
Proof. reflexivity. Qed.

Lemma ST_ret_Ok {S A} (a b : A) (s s1 : S) :
  (mret a : ST S A) s = (Ok b, s1) -> a = b /\ s = s1.
Proof. unfold mret, ST_ret. intros [= -> ->]. done. Qed.

Lemma lift_Ok {S A} (r : result A) (a : A) (s s1 : S) :
  lift r s = (Ok a, s1) -> r = Ok a /\ s = s1.
Proof. unfold lift. intros [= -> ->]. done. Qed.

(** Splits a successful run [H] of a sequence of binds into the runs of
    its steps. *)
Ltac st_inv H :=
  repeat
    (let a := fresh "a" in
     let s := fresh "s" in
     let Ha := fresh "Hrun" in
     apply ST_bind_Ok in H as (a & s & Ha & H));
  try (apply ST_ret_Ok in H as [? ?]).

(** ** The constructors' attributes *)

Lemma Embedding_init_attrs n d p (h h' : heap) (e : Embedding.t) :
  Embedding.init n d p h = (Ok e, h') ->
  Embedding.num_embeddings e = n /\ Embedding.embedding_dim e = d /\
  Embedding.padding_idx e = p /\ Embedding.weight e = next h.
Proof.
  unfold Embedding.init. intros H. st_inv H. subst e. cbn.
  repeat split.
  destruct p as [i|].
  - destruct (i <? n)%nat.
    + apply ST_ret_Ok in Hrun as [_ <-]. unfold new_parameter in Hrun0.
      injection Hrun0 as <- _. done.
    + discriminate.
  - apply ST_ret_Ok in Hrun as [_ <-]. unfold new_parameter in Hrun0.
    injection Hrun0 as <- _. done.
Qed.


Lemma LukeE2EModel_init_inv (config : LukeE2EConfig.t) (h h' : heap) (self : LukeE2EModel.t) :
  LukeE2EModel.init config h = (Ok self, h') ->
  exists base h1 mask h2 el h3 sel,
    LukeBaseModel.init config h = (Ok base, h1) /\
    EntityEmbeddings.init config (Some 2%nat) h1 = (Ok mask, h2) /\
    BertEncoder.init config h2 = (Ok el, h3) /\
    EntitySelector.init config h3 = (Ok sel, h') /\
    self = LukeE2EModel.mk base config mask el
             (LukeE2EModel.tie
                (Embedding.weight
                   (EntityEmbeddings.entity_embeddings (LukeBaseModel.entity_embeddings base)))
                sel).
Proof.
  unfold LukeE2EModel.init. intros H. st_inv H. subst. eauto 12.
Qed.

(** ** C9: the placeholder table is indexed by the attention mask *)


Lemma built_ok :
  LukeE2EModel.init Example.config Example.empty_heap = (Ok Example.model, Example.built.2).
Proof. reflexivity. Qed.

Lemma built_deep_ok :
  LukeE2EModel.init Example.config_deep Example.empty_heap
  = (Ok Example.model_deep, Example.built_deep.2).
Proof. reflexivity. Qed.


(** ** C4: the selector's table is the entity table *)

(** C4. In a model built by [LukeE2EModel.__init__] the selector's
    candidate table and the entity-identity table are the same parameter: the
    two attribute paths give one location, also in the registry that
    [state_dict] and the loader walk, so in every store the two consumers read
    the same tensor, and a tensor written through either path is what the
    other reads. *)
Theorem selector_embeddings_tied
    (config : LukeE2EConfig.t) (h h' : heap) (self : LukeE2EModel.t) :
  let selector := EntitySelector.embeddings (LukeE2EModel.entity_selector self) in
  let entity :=
    EntityEmbeddings.entity_embeddings
      (LukeBaseModel.entity_embeddings (LukeE2EModel.base self)) in
  LukeE2EModel.init config h = (Ok self, h') ->
  Embedding.weight selector = Embedding.weight entity /\
  (forall (σ : store) (id : Z),
     Embedding.forward σ selector id = F.embedding (σ (Embedding.weight entity)) id) /\
  (forall (σ : store) (t : tensor) (id : Z),
     Embedding.forward (<[Embedding.weight entity := t]> σ) selector id = F.embedding t id /\
     Embedding.forward (<[Embedding.weight selector := t]> σ) entity id = F.embedding t id) /\
  nnModule.get_parameter ["entity_selector"; "embeddings"] "weight"
    (LukeE2EModel.registry self) = Some (Embedding.weight entity) /\
  nnModule.get_parameter ["entity_embeddings"; "entity_embeddings"] "weight"
    (LukeE2EModel.registry self) = Some (Embedding.weight entity).
Proof.
  intros selector entity Hinit.
  apply LukeE2EModel_init_inv in Hinit
    as (base & h1 & mask & h2 & el & h3 & sel & _ & _ & _ & _ & ->).
  cbn in selector, entity. subst selector entity. cbn.
  split; [reflexivity|]. split; [reflexivity|]. split; [|split; reflexivity].
  intros σ t id. unfold Embedding.forward. cbn.
  rewrite fn_lookup_insert. done.
Qed.

Lemma selector_embeddings_tied_witness :
  let selector := EntitySelector.embeddings (LukeE2EModel.entity_selector Example.model) in
  let entity :=
    EntityEmbeddings.entity_embeddings
      (LukeBaseModel.entity_embeddings (LukeE2EModel.base Example.model)) in
  Embedding.weight selector = Embedding.weight entity /\
  (forall (σ : store) (id : Z),
     Embedding.forward σ selector id = F.embedding (σ (Embedding.weight entity)) id) /\
  (forall (σ : store) (t : tensor) (id : Z),
     Embedding.forward (<[Embedding.weight entity := t]> σ) selector id = F.embedding t id /\
     Embedding.forward (<[Embedding.weight selector := t]> σ) entity id = F.embedding t id) /\
  nnModule.get_parameter ["entity_selector"; "embeddings"] "weight"
    (LukeE2EModel.registry Example.model) = Some (Embedding.weight entity) /\
  nnModule.get_parameter ["entity_embeddings"; "entity_embeddings"] "weight"
    (LukeE2EModel.registry Example.model) = Some (Embedding.weight entity).
Proof.
  exact (selector_embeddings_tied Example.config Example.empty_heap Example.built.2
           Example.model built_ok).
Defined.

(** ** C3: the entity-linking stack *)

Lemma mapM_ST_length {S A B} (f : A -> ST S B) (l : list A) (s s' : S) (xs : list B) :
  mapM f l s = (Ok xs, s') -> length xs = length l.
Proof.
  revert s xs. induction l as [|a l IH]; intros s xs H.
  - apply ST_ret_Ok in H as [<- _]. done.
  - simpl in H. st_inv H. subst. cbn. f_equal. eauto.
Qed.

Lemma BertEncoder_init_layers (config : BertConfig.t) (h h' : heap) (e : BertEncoder.t) :
  BertEncoder.init config h = (Ok e, h') ->
  length (BertEncoder.layer e) = BertConfig.num_hidden_layers config.
Proof.
  unfold BertEncoder.init. intros H. st_inv H. subst e. cbn.
  apply mapM_ST_length in Hrun. rewrite Hrun. apply length_seq.
Qed.

Lemma always_raises_bind_l {S A B} (m : ST S A) (f : A -> ST S B) :
  always_raises m -> always_raises (m ≫= f).
Proof.
  intros Hm s. destruct (Hm s) as (e & s' & Hs).
  exists e, s'. eapply ST_bind_raise. exact Hs.
Qed.

Lemma always_raises_bind_r {S A B} (m : ST S A) (f : A -> ST S B) :
  (forall a, always_raises (f a)) -> always_raises (m ≫= f).
Proof.
  intros Hf s. unfold mbind, ST_bind.
  destruct (m s) as [[a|e] s']; [apply Hf | eauto].
Qed.

Section layer_loop.
Context `{BertForward}.

Lemma layers_short_head_mask (σ : store) (training : bool) (self : BertEncoder.t)
    (todo : list module) (i : nat) (hidden : seq3) (attention_mask : list (list R))
    (head_mask : list (option tensor)) (hs : list seq3) (ats : list attn4) :
  i <= length head_mask < i + length todo ->
  always_raises (BertEncoder.layers σ training self todo i hidden attention_mask head_mask hs ats).
Proof.
  revert i hidden hs ats. induction todo as [|m todo IH]; intros i hidden hs ats Hlen.
  - cbn in Hlen. lia.
  - cbn [BertEncoder.layers length] in *.
    destruct (head_mask !! i) as [hm|] eqn:Hhm.
    + apply lookup_lt_Some in Hhm.
      apply always_raises_bind_r. intros hm'.
      apply always_raises_bind_r. intros out.
      apply IH. lia.
    + apply always_raises_bind_l. intros g. unfold lift. eauto.
Qed.

Lemma forward_short_head_mask (σ : store) (training : bool) (self : BertEncoder.t)
    (hidden : seq3) (attention_mask : list (list R)) (head_mask : list (option tensor)) :
  length head_mask < length (BertEncoder.layer self) ->
  always_raises (BertEncoder.forward σ training self hidden attention_mask head_mask).
Proof.
  intros Hlen. unfold BertEncoder.forward.
  apply always_raises_bind_l, layers_short_head_mask. lia.
Qed.

(** C3 (what the code does). [__init__] builds the entity-linking stack
    from [config], not from the copy [el_config] it has just prepared: the
    stack has [num_hidden_layers] layers, whatever [num_el_hidden_layers] is.
    [forward] still passes it a head mask of [num_el_hidden_layers] entries,
    so with [num_el_hidden_layers < num_hidden_layers] the entity-linking pass,
    and [forward] with it, raises on every input. *)
Theorem el_encoder_layer_count
    (config : LukeE2EConfig.t) (h h' : heap) (self : LukeE2EModel.t) :
  LukeE2EModel.init config h = (Ok self, h') ->
  length (BertEncoder.layer (LukeE2EModel.el_encoder self))
    = BertConfig.num_hidden_layers config /\
  (LukeE2EConfig.num_el_hidden_layers config < BertConfig.num_hidden_layers config ->
   forall σ training word_ids word_segment_ids word_attention_mask entity_candidate_ids
          entity_position_ids entity_segment_ids entity_attention_mask masked_entity_labels
          output_entity_selector_scores,
     always_raises
       (LukeE2EModel.forward σ training self word_ids word_segment_ids word_attention_mask
          entity_candidate_ids entity_position_ids entity_segment_ids entity_attention_mask
          masked_entity_labels output_entity_selector_scores)).
Proof.
  intros Hinit.
  apply LukeE2EModel_init_inv in Hinit
    as (base & h1 & mask & h2 & el & h3 & sel & _ & _ & Hel & _ & ->).
  apply BertEncoder_init_layers in Hel. cbn. split; [exact Hel|].
  intros Hlt *. unfold LukeE2EModel.forward.
  apply always_raises_bind_r. intros extended_attention_mask.
  apply always_raises_bind_r. intros word_embedding_output.
  apply always_raises_bind_l. unfold LukeE2EModel.entity_linking.
  apply always_raises_bind_l. unfold LukeE2EModel.el_entity_sequence_output.
  apply always_raises_bind_r. intros mask_out.
  apply always_raises_bind_r. intros el_embedding_output.
  apply always_raises_bind_l. cbn.
  apply forward_short_head_mask. rewrite repeat_length, Hel. exact Hlt.
Qed.

End layer_loop.

(** The failing input: a main stack of two layers and an entity-linking
    stack configured with one. *)
Lemma el_encoder_layer_count_witness :
  LukeE2EConfig.num_el_hidden_layers Example.config_deep = 1%nat /\
  length (BertEncoder.layer (LukeE2EModel.el_encoder Example.model_deep)) = 2%nat /\
  always_raises
    (LukeE2EModel.forward (H := Example.bert) (cells Example.built_deep.2) false
       Example.model_deep Example.word_ids Example.word_segment_ids
       Example.word_attention_mask Example.entity_candidate_ids Example.entity_position_ids
       Example.entity_segment_ids Example.entity_attention_mask None false).
Proof.
  split; [reflexivity|].
  destruct (el_encoder_layer_count (H := Example.bert) Example.config_deep Example.empty_heap
              Example.built_deep.2 Example.model_deep built_deep_ok) as [Hlen Hraise].
  split; [exact Hlen|]. apply Hraise. cbn. lia.
Defined.

(** ** C6: overriding the mixed embedding of masked slots *)

Lemma zip_exact_ok {A B C} (f : A -> B -> result C) (g : A -> B -> C) (x : list A) (y : list B) :
  Forall2 (fun a b => f a b = Ok (g a b)) x y -> zip_exact f x y = Ok (zip_with g x y).
Proof.
  intros HF. unfold zip_exact, zipM.
  rewrite (Forall2_length _ _ _ HF), Nat.eqb_refl.
  induction HF as [|a b x y Hab _ IH]; [done|].
  cbn. rewrite Hab. cbn. rewrite IH. done.
Qed.

Lemma zip_exact_pure {A B C} (g : A -> B -> C) (x : list A) (y : list B) :
  length x = length y -> zip_exact (fun a b => Ok (g a b)) x y = Ok (zip_with g x y).
Proof. intros Hlen. apply zip_exact_ok, Forall2_true; done. Qed.

Lemma zip_exact_nested {A B C} (g : A -> B -> C) (x : list (list A)) (y : list (list B)) :
  Forall2 (fun r1 r2 => length r1 = length r2) x y ->
  zip_exact (zip_exact (fun a b => Ok (g a b))) x y = Ok (zip_with (zip_with g) x y).
Proof.
  intros HF. apply zip_exact_ok. eapply Forall2_impl; [exact HF|].
  intros r1 r2 Hlen. apply zip_exact_pure, Hlen.
Qed.




(** ** C8: the selector scores that [forward] returns *)

Section returned_scores.
Context `{BertForward}.

(** C8 (as the code has it). When [forward] is asked for the selector
    scores and returns, the fourth element of the tuple is the output of
    [EntitySelector.forward] on the entity-linking hidden vectors with every
    score divided by [entity_selector_softmax_temp]: the logits the softmax
    is applied to, after the temperature scaling. *)
Theorem returned_selector_scores
    (σ : store) (training : bool) (self : LukeE2EModel.t)
    (word_ids word_segment_ids word_attention_mask : list (list Z))
    (entity_candidate_ids entity_position_ids : list (list (list Z)))
    (entity_segment_ids entity_attention_mask : list (list Z))
    (masked_entity_labels : option (list (list Z)))
    (g g' : Generator) (outputs : list value) :
  LukeE2EModel.forward σ training self word_ids word_segment_ids word_attention_mask
    entity_candidate_ids entity_position_ids entity_segment_ids entity_attention_mask
    masked_entity_labels true g = (Ok outputs, g') ->
  exists extended_attention_mask word_embedding_output g1 hidden g2 scores,
    LukeBaseModel._compute_extended_attention_mask word_attention_mask entity_attention_mask
      = Ok extended_attention_mask /\
    BertEmbeddings_forward σ training (LukeBaseModel.embeddings (LukeE2EModel.base self))
      word_ids word_segment_ids g = (Ok word_embedding_output, g1) /\
    LukeE2EModel.el_entity_sequence_output σ training self (size1 word_ids)
      word_embedding_output extended_attention_mask entity_position_ids entity_segment_ids
      entity_attention_mask g1 = (Ok hidden, g2) /\
    EntitySelector.forward σ (LukeE2EModel.entity_selector self) hidden entity_candidate_ids
      = Ok scores /\
    outputs !! 3%nat
      = Some (tensor3 (map (map (map (fun x =>
          x / LukeE2EConfig.entity_selector_softmax_temp (LukeE2EModel.config self))%R))
          scores)).
Proof.
  unfold LukeE2EModel.forward. intros Hfwd.
  apply ST_bind_Ok in Hfwd as (mask & s0 & Hmask & Hfwd).
  apply lift_Ok in Hmask as [Hmask ->].
  apply ST_bind_Ok in Hfwd as (weo & g1 & Hweo & Hfwd).
  apply ST_bind_Ok in Hfwd as (scaled & g3 & Hel & Hfwd).
  unfold LukeE2EModel.entity_linking in Hel.
  apply ST_bind_Ok in Hel as (hidden & g2 & Hhidden & Hel).
  apply ST_bind_Ok in Hel as (scores & s1 & Hscores & Hel).
  apply lift_Ok in Hscores as [Hscores Hs1].
  apply ST_ret_Ok in Hel as [Hscaled Hg3].
  st_inv Hfwd. subst outputs scaled.
  exists mask, weo, g1, hidden, g2, scores. done.
Qed.

End returned_scores.

Lemma returned_selector_scores_witness :
  exists outputs g' hidden scores,
    LukeE2EModel.forward (H := Example.bert) Example.σ false Example.model Example.word_ids
      Example.word_segment_ids Example.word_attention_mask Example.entity_candidate_ids
      Example.entity_position_ids Example.entity_segment_ids Example.entity_attention_mask
      None true Example.generator = (Ok outputs, g') /\
    EntitySelector.forward (H := Example.bert) Example.σ
      (LukeE2EModel.entity_selector Example.model) hidden Example.entity_candidate_ids
      = Ok scores /\
    outputs !! 3%nat = Some (tensor3 (map (map (map (fun x => x / 2)%R)) scores)).
Proof.
  destruct (LukeE2EModel.forward (H := Example.bert) Example.σ false Example.model
              Example.word_ids Example.word_segment_ids Example.word_attention_mask
              Example.entity_candidate_ids Example.entity_position_ids
              Example.entity_segment_ids Example.entity_attention_mask None true
              Example.generator) as [[outputs|e] g'] eqn:Hfwd.
  2:{ exfalso. revert Hfwd. run. discriminate. }
  exists outputs, g'.
  apply (returned_selector_scores (H := Example.bert)) in Hfwd
    as (m & w & g1 & hidden & g2 & scores & _ & _ & _ & Hsel & Hout).
  exists hidden, scores. split; [reflexivity|]. split; [exact Hsel | exact Hout].
Defined.

(** C8 as stated fails: with temperature 2 the returned scores are half
    the scores [EntitySelector.forward] produced. *)
Lemma returned_scores_not_raw :
  exists outputs g' hidden scores,
    LukeE2EModel.forward (H := Example.bert) Example.σ false Example.model Example.word_ids
      Example.word_segment_ids Example.word_attention_mask Example.entity_candidate_ids
      Example.entity_position_ids Example.entity_segment_ids Example.entity_attention_mask
      None true Example.generator = (Ok outputs, g') /\
    LukeE2EModel.el_entity_sequence_output (H := Example.bert) Example.σ false Example.model 1
      [[[0; 0]]]%R [[0; 0]]%R Example.entity_position_ids Example.entity_segment_ids
      Example.entity_attention_mask Example.generator = (Ok hidden, g') /\
    EntitySelector.forward (H := Example.bert) Example.σ
      (LukeE2EModel.entity_selector Example.model) hidden Example.entity_candidate_ids
      = Ok scores /\
    outputs !! 3%nat <> Some (tensor3 scores).
Proof.
  do 4 eexists. split; [run; reflexivity|].
  split; [run; reflexivity|]. split; [run; reflexivity|].
  run. intros [= H1 H2]. lra.
Qed.

(** ** C5: the padding row and the initialisation scheme *)

(** The constructor pins the padding row: after
    [nn.Embedding(n, d, padding_idx=0)] the row 0 of the new weight is zero. *)
Lemma Embedding_init_padding_row (n d : nat) (h h' : heap) (e : Embedding.t) :
  Embedding.init n d (Some 0%nat) h = (Ok e, h') ->
  row d (cells h' (Embedding.weight e)) 0 = vzero d.
Proof.
  unfold Embedding.init. destruct (0 <? n)%nat eqn:Hn; [|discriminate].
  intros H. apply Nat.ltb_lt in Hn.
  unfold mbind, ST_bind, mret, ST_ret, new_parameter, normal_, write, modify, get, with_gen,
    draw_normal in H. cbn in H. injection H as <- <-. cbn.
  rewrite !fn_lookup_insert. unfold fill_row, row. cbn.
  rewrite take_0, drop_0. cbn [app].
  rewrite take_app_length' by (symmetry; apply repeat_length). done.
Qed.

(** [init_weights] on an embedding that is not a bias table redraws the
    whole weight, the row at [padding_idx] included. *)
Lemma init_weights_embedding (config : BertConfig.t) (e : Embedding.t) (h : heap) :
  Embedding.embedding_dim e ≠ 1%nat ->
  let s := shape (cells h (Embedding.weight e)) in
  exists g',
    LukeBaseModel.init_weights config (Embedding.registry e) h
    = (Ok tt,
       mkHeap (<[Embedding.weight e :=
                   Tensor s (map (fun z => 0 + BertConfig.initializer_range config * z)%R
                                 (map (normal_variates (gen h)) (seq 0 (numel s))))]>
                 (cells h))
              (next h) g').
Proof.
  intros Hdim s. unfold LukeBaseModel.init_weights, Embedding.registry. cbn.
  apply Nat.eqb_neq in Hdim. rewrite Hdim.
  eexists. reflexivity.
Qed.

(** C5 (what the code does). In the model built on the example
    configuration the constructor has zeroed row 0 of the entity table; after
    [apply(init_weights)] over the model, row 0 holds the generator's draws
    scaled by [initializer_range], and an entity slot with id 0 contributes
    that vector, not the zero vector. *)
Theorem init_weights_overwrites_padding_row :
  let entity :=
    EntityEmbeddings.entity_embeddings
      (LukeBaseModel.entity_embeddings (LukeE2EModel.base Example.model)) in
  exists h,
    nnModule.apply (LukeBaseModel.init_weights Example.config)
      (LukeE2EModel.registry Example.model) Example.built.2 = (Ok tt, h) /\
    Embedding.padding_idx entity = Some 0%nat /\
    Embedding.forward Example.σ entity 0 = Ok [0; 0]%R /\
    Embedding.forward (cells h) entity 0 = Ok [0 + 2 / 100 * 1; 0 + 2 / 100 * 1]%R /\
    [0 + 2 / 100 * 1; 0 + 2 / 100 * 1]%R ≠ vzero 2.
Proof.
  intros entity. eexists. split; [run; reflexivity|].
  split; [reflexivity|]. split; [reflexivity|]. split; [reflexivity|].
  cbn. intros [= H _]. lra.
Qed.

(** ** C7: loading a checkpoint *)

Section module_induction.
Variable P : module -> Prop.
Hypothesis step : forall c ps ms, Forall (fun nm => P nm.2) ms -> P (Module c ps ms).

Fixpoint module_induction (m : module) : P m :=
  match m with
  | Module c ps ms =>
      step c ps ms
        ((fix children (ms : list (string * module)) : Forall (fun nm => P nm.2) ms :=
            match ms with
            | [] => @List.Forall_nil _ (fun nm => P nm.2)
            | (name, child) :: ms' =>
                @List.Forall_cons _ (fun nm => P nm.2) (name, child) ms'
                  (module_induction child) (children ms')
            end) ms)
  end.

End module_induction.

Lemma load_step_shape state_dict st entry l :
  shape (nnModule.params (load_step state_dict st entry) l) = shape (nnModule.params st l).
Proof.
  destruct entry as [key param]. unfold load_step.
  destruct (assoc key state_dict) as [t|]; [|done].
  unfold nnModule.shape_eqb. case_bool_decide as Hs; [|done].
  cbn. destruct (decide (param = l)) as [->|Hne].
  - rewrite fn_lookup_insert. done.
  - rewrite fn_lookup_insert_ne by done. done.
Qed.

Lemma foldl_load_step_shape state_dict entries st l :
  shape (nnModule.params (foldl (load_step state_dict) st entries) l)
  = shape (nnModule.params st l).
Proof.
  revert st. induction entries as [|e entries IH]; intros st; [done|].
  cbn. rewrite IH. apply load_step_shape.
Qed.

Lemma load_step_add_unexpected state_dict u st entry :
  load_step state_dict (add_unexpected u st) entry
  = add_unexpected u (load_step state_dict st entry).
Proof.
  destruct entry as [key param]. unfold load_step, add_unexpected. cbn.
  destruct (assoc key state_dict) as [t|]; [|done].
  destruct (nnModule.shape_eqb _ _); done.
Qed.

Lemma foldl_load_step_add_unexpected state_dict u entries st :
  foldl (load_step state_dict) (add_unexpected u st) entries
  = add_unexpected u (foldl (load_step state_dict) st entries).
Proof.
  revert st. induction entries as [|e entries IH]; intros st; [done|].
  cbn. rewrite load_step_add_unexpected. apply IH.
Qed.

Lemma add_unexpected_app u1 u2 st :
  add_unexpected u2 (add_unexpected u1 st) = add_unexpected (u1 ++ u2) st.
Proof. unfold add_unexpected. cbn. rewrite <- app_assoc. done. Qed.

Lemma add_unexpected_nil st : add_unexpected [] st = st.
Proof. destruct st. unfold add_unexpected. cbn. rewrite app_nil_r. done. Qed.

Lemma load_param_step state_dict prefix name param st :
  shape (nnModule.params st param) ≠ [] ->
  nnModule.load_param state_dict prefix (name, param) st
  = (Ok tt, load_step state_dict st (prefix +:+ name, param)).
Proof.
  intros Hs. unfold nnModule.load_param, load_step.
  unfold mbind, ST_bind, get. cbn.
  destruct (assoc (prefix +:+ name) state_dict) as [t|]; [|reflexivity].
  destruct (shape (nnModule.params st param)) as [|n s] eqn:Hshape; [done|].
  cbn. destruct (nnModule.shape_eqb (shape t) (n :: s));
    unfold modify; cbn; rewrite ?Hshape; reflexivity.
Qed.

Lemma for_each_load_param state_dict prefix ps st :
  no_scalar (nnModule.params st) ps ->
  nnModule.for_each (nnModule.load_param state_dict prefix) ps st
  = (Ok tt, foldl (load_step state_dict) st (map (fun p => (prefix +:+ p.1, p.2)) ps)).
Proof.
  revert st. induction ps as [|[name param] ps IH]; intros st Hns; [done|].
  apply Forall_cons in Hns as [Hp Hps]. cbn in Hp.
  cbn [nnModule.for_each map foldl].
  rewrite (ST_bind_run _ _ _ _ _ (load_param_step state_dict prefix name param st Hp)).
  apply IH. eapply Forall_impl; [exact Hps|]. intros p Hp'.
  rewrite (load_step_shape state_dict st (prefix +:+ name, param)). exact Hp'.
Qed.

Lemma for_each_check_key m prefix (state_keys keys : list string) st :
  Forall (fun k => k ∈ state_keys) keys ->
  exists u,
    nnModule.for_each (nnModule.check_key m prefix) keys st = (Ok tt, add_unexpected u st) /\
    Forall (fun k => k ∈ state_keys) u.
Proof.
  revert st. induction keys as [|k keys IH]; intros st Hkeys.
  - exists []. rewrite add_unexpected_nil. done.
  - apply Forall_cons in Hkeys as [Hk Hkeys]. cbn [nnModule.for_each].
    assert (exists u, nnModule.check_key m prefix k st = (Ok tt, add_unexpected u st) /\
                      Forall (fun k => k ∈ state_keys) u) as (u1 & Hrun & Hu1).
    { unfold nnModule.check_key. destruct (String.prefix prefix k).
      - destruct (_ || _).
        + exists []. rewrite add_unexpected_nil. done.
        + exists [k]. split; [done|]. constructor; done.
      - exists []. rewrite add_unexpected_nil. done. }
    rewrite (ST_bind_run _ _ _ _ _ Hrun).
    destruct (IH (add_unexpected u1 st) Hkeys) as (u2 & Hrun2 & Hu2).
    exists (u1 ++ u2). rewrite Hrun2, add_unexpected_app. split; [done|].
    apply Forall_app; done.
Qed.

Lemma no_scalar_shape (σ σ' : store) ps :
  (forall l, shape (σ' l) = shape (σ l)) -> no_scalar σ ps -> no_scalar σ' ps.
Proof.
  intros Hs Hns. eapply Forall_impl; [exact Hns|]. intros p Hp. rewrite Hs. exact Hp.
Qed.

Lemma load_from_state_dict_steps m state_dict prefix st :
  no_scalar (nnModule.params st) (_parameters m) ->
  exists u,
    nnModule._load_from_state_dict m state_dict prefix st
    = (Ok tt, add_unexpected u
                (foldl (load_step state_dict) st
                   (map (fun p => (prefix +:+ p.1, p.2)) (_parameters m)))) /\
    Forall (fun k => k ∈ Dict.keys state_dict) u.
Proof.
  intros Hns. unfold nnModule._load_from_state_dict.
  rewrite (ST_bind_run _ _ _ _ _ (for_each_load_param state_dict prefix _ st Hns)).
  apply for_each_check_key. apply Forall_forall. done.
Qed.

(** The loader's walk over the module tree does, to the parameters, the
    missing keys and the error messages, what a single pass over
    [parameter_keys] does; besides, it collects some keys of the state dict
    as unexpected. *)
Lemma load_steps state_dict m :
  forall prefix st,
    no_scalar (nnModule.params st) (nnModule.parameter_keys prefix m) ->
    exists u,
      LukeBaseModel.load state_dict m prefix st
      = (Ok tt, add_unexpected u
                  (foldl (load_step state_dict) st (nnModule.parameter_keys prefix m))) /\
      Forall (fun k => k ∈ Dict.keys state_dict) u.
Proof.
  induction m as [c ps ms IH] using module_induction. intros prefix st Hns.
  cbn [LukeBaseModel.load nnModule.parameter_keys] in *.
  unfold no_scalar in Hns. apply Forall_app in Hns as [Hps Hms].
  destruct (load_from_state_dict_steps (Module c ps ms) state_dict prefix st) as (u0 & Hrun0 & Hu0).
  { unfold no_scalar. cbn. rewrite Forall_fmap in Hps. exact Hps. }
  rewrite (ST_bind_run _ _ _ _ _ Hrun0). cbn [_parameters]. rewrite foldl_app.
  set (st1 := foldl (load_step state_dict) st (map (fun p => (prefix +:+ p.1, p.2)) ps)).
  assert (forall l, shape (nnModule.params st1 l) = shape (nnModule.params st l)) as Hst1
    by (intros l; apply foldl_load_step_shape).
  clearbody st1. clear Hrun0 Hps.
  revert st1 u0 Hu0 Hst1.
  induction ms as [|[name child] ms IHms]; intros st1 u0 Hu0 Hst1.
  - exists u0. done.
  - apply Forall_cons in IH as [IHchild IHrest]. cbn in IHchild.
    apply Forall_app in Hms as [Hchild Hrest].
    destruct (IHchild (prefix +:+ name +:+ ".") (add_unexpected u0 st1)) as (u1 & Hrun1 & Hu1).
    { eapply no_scalar_shape; [|exact Hchild]. intros l. cbn. apply Hst1. }
    rewrite (ST_bind_run _ _ _ _ _ Hrun1).
    rewrite foldl_load_step_add_unexpected, add_unexpected_app, foldl_app.
    apply (IHms IHrest Hrest).
    + apply Forall_app; done.
    + intros l. rewrite foldl_load_step_shape. apply Hst1.
Qed.

Section loader_fold.
Variables (σ : store) (state_dict : Dict.t tensor).

Lemma foldl_load_step_errors entries st :
  (forall l, shape (nnModule.params st l) = shape (σ l)) ->
  nnModule.error_msgs (foldl (load_step state_dict) st entries)
  = nnModule.error_msgs st ++ omap (mismatch σ state_dict) entries.
Proof.
  revert st. induction entries as [|[key param] entries IH]; intros st Hs.
  - cbn. rewrite app_nil_r. done.
  - cbn [foldl]. rewrite IH by (intros l; rewrite load_step_shape; apply Hs).
    cbn [omap]. unfold mismatch at 2, load_step. cbn.
    destruct (assoc key state_dict) as [t|]; cbn; [|done].
    rewrite Hs. destruct (nnModule.shape_eqb _ _); cbn; [done|].
    rewrite <- app_assoc. done.
Qed.

Lemma foldl_load_step_unexpected entries st :
  nnModule.unexpected_keys (foldl (load_step state_dict) st entries)
  = nnModule.unexpected_keys st.
Proof.
  revert st. induction entries as [|[key param] entries IH]; intros st; [done|].
  cbn [foldl]. rewrite IH. unfold load_step.
  destruct (assoc key state_dict) as [t|]; [|done].
  destruct (nnModule.shape_eqb _ _); done.
Qed.

Lemma foldl_load_step_missing entries st :
  nnModule.missing_keys (foldl (load_step state_dict) st entries)
  = nnModule.missing_keys st
    ++ filter (fun k => assoc k state_dict = None) entries.*1.
Proof.
  revert st. induction entries as [|[key param] entries IH]; intros st.
  - cbn. rewrite app_nil_r. done.
  - cbn [foldl]. rewrite IH. cbn [fmap list_fmap fst]. rewrite filter_cons. unfold load_step.
    destruct (assoc key state_dict) as [t|] eqn:Hk.
    + rewrite decide_False by done. destruct (nnModule.shape_eqb _ _); done.
    + rewrite decide_True by done. cbn. rewrite <- app_assoc. done.
Qed.

Lemma foldl_load_step_not_loaded entries st l :
  (forall l, shape (nnModule.params st l) = shape (σ l)) ->
  (forall key, (key, l) ∈ entries -> not_loaded σ state_dict (key, l)) ->
  nnModule.params (foldl (load_step state_dict) st entries) l = nnModule.params st l.
Proof.
  revert st. induction entries as [|[key param] entries IH]; intros st Hs Hnl; [done|].
  cbn [foldl]. rewrite IH.
  - unfold load_step. destruct (assoc key state_dict) as [t|] eqn:Hk; [|done].
    unfold nnModule.shape_eqb. case_bool_decide as Heq; [|done]. cbn.
    destruct (decide (param = l)) as [->|Hne].
    + specialize (Hnl key (list_elem_of_here _ _)). unfold not_loaded in Hnl. cbn in Hnl.
      rewrite Hk in Hnl. rewrite Hs in Heq. done.
    + rewrite fn_lookup_insert_ne by done. done.
  - intros l'. rewrite load_step_shape. apply Hs.
  - intros k Hin. apply Hnl. apply list_elem_of_further. exact Hin.
Qed.

(** The pass reads the state dict only at the parameter keys. *)
Lemma foldl_load_step_ext (state_dict' : Dict.t tensor) entries st :
  (forall key l, (key, l) ∈ entries -> assoc key state_dict = assoc key state_dict') ->
  foldl (load_step state_dict) st entries = foldl (load_step state_dict') st entries.
Proof.
  revert st. induction entries as [|[key param] entries IH]; intros st Hext; [done|].
  cbn [foldl]. rewrite IH by (intros k l Hin; eapply Hext, list_elem_of_further, Hin).
  f_equal. unfold load_step. rewrite (Hext key param (list_elem_of_here _ _)). done.
Qed.

End loader_fold.

Lemma ltb_length_nil {A} (l : list A) :
  (0 <? length l)%nat = match l with [] => false | _ :: _ => true end.
Proof. destruct l; done. Qed.

Lemma for_each_check_key_exact m prefix (keys : list string) st :
  nnModule.for_each (nnModule.check_key m prefix) keys st
  = (Ok tt, add_unexpected (filter (fun key => unexpected_at m prefix key = true) keys) st).
Proof.
  revert st. induction keys as [|k keys IH]; intros st.
  - cbn. rewrite add_unexpected_nil. done.
  - cbn [nnModule.for_each]. rewrite filter_cons.
    assert (nnModule.check_key m prefix k st
            = (Ok tt, add_unexpected (if unexpected_at m prefix k then [k] else []) st)) as Hk.
    { unfold nnModule.check_key, unexpected_at. destruct (String.prefix prefix k); cbn.
      - destruct (_ || _); cbn; [rewrite add_unexpected_nil|]; done.
      - rewrite add_unexpected_nil. done. }
    rewrite (ST_bind_run _ _ _ _ _ Hk), IH, add_unexpected_app.
    destruct (unexpected_at m prefix k); [rewrite decide_True by done|rewrite decide_False by done];
      done.
Qed.

Lemma load_from_state_dict_exact m state_dict prefix st :
  no_scalar (nnModule.params st) (_parameters m) ->
  nnModule._load_from_state_dict m state_dict prefix st
  = (Ok tt, add_unexpected
              (filter (fun key => unexpected_at m prefix key = true) (Dict.keys state_dict))
              (foldl (load_step state_dict) st
                 (map (fun p => (prefix +:+ p.1, p.2)) (_parameters m)))).
Proof.
  intros Hns. unfold nnModule._load_from_state_dict.
  rewrite (ST_bind_run _ _ _ _ _ (for_each_load_param state_dict prefix _ st Hns)).
  apply for_each_check_key_exact.
Qed.

Lemma load_steps_exact state_dict m :
  forall prefix st,
    no_scalar (nnModule.params st) (nnModule.parameter_keys prefix m) ->
    LukeBaseModel.load state_dict m prefix st
    = (Ok tt, add_unexpected (unexpected_keys (Dict.keys state_dict) prefix m)
                (foldl (load_step state_dict) st (nnModule.parameter_keys prefix m))).
Proof.
  induction m as [c ps ms IH] using module_induction. intros prefix st Hns.
  cbn [LukeBaseModel.load nnModule.parameter_keys unexpected_keys] in *.
  unfold no_scalar in Hns. apply Forall_app in Hns as [Hps Hms].
  rewrite (ST_bind_run _ _ _ _ _
             (load_from_state_dict_exact (Module c ps ms) state_dict prefix st
                ltac:(unfold no_scalar; cbn; rewrite Forall_fmap in Hps; exact Hps))).
  cbn [_parameters]. rewrite foldl_app.
  set (st1 := foldl (load_step state_dict) st (map (fun p => (prefix +:+ p.1, p.2)) ps)).
  assert (forall l, shape (nnModule.params st1 l) = shape (nnModule.params st l)) as Hst1
    by (intros l; apply foldl_load_step_shape).
  generalize (filter (fun key => unexpected_at (Module c ps ms) prefix key = true)
                (Dict.keys state_dict)).
  clearbody st1. clear Hps.
  revert st1 Hst1.
  induction ms as [|[name child] ms IHms]; intros st1 Hst1 u0.
  - rewrite app_nil_r. done.
  - apply Forall_cons in IH as [IHchild IHrest]. cbn in IHchild.
    apply Forall_app in Hms as [Hchild Hrest].
    rewrite (ST_bind_run _ _ _ _ _
               (IHchild (prefix +:+ name +:+ ".") (add_unexpected u0 st1)
                  ltac:(eapply no_scalar_shape; [|exact Hchild]; intros l; cbn; apply Hst1))).
    rewrite foldl_load_step_add_unexpected, add_unexpected_app, foldl_app.
    rewrite (IHms IHrest Hrest).
    + rewrite <- app_assoc. done.
    + intros l. rewrite foldl_load_step_shape. apply Hst1.
Qed.

Lemma elem_of_insert_sorted (k x : string) (l : list string) :
  x ∈ Str.insert_sorted k l <-> x = k \/ x ∈ l.
Proof.
  induction l as [|y l IH]; cbn.
  - rewrite list_elem_of_singleton, elem_of_nil. tauto.
  - destruct (String.leb k y).
    + rewrite elem_of_cons. tauto.
    + rewrite !elem_of_cons, IH. tauto.
Qed.

Lemma elem_of_sorted (x : string) (l : list string) : x ∈ Str.sorted l <-> x ∈ l.
Proof.
  unfold Str.sorted. induction l as [|y l IH]; cbn; [done|].
  rewrite elem_of_insert_sorted, IH, elem_of_cons. tauto.
Qed.

(** C7 (as the code has it). For a state dict whose keys the renaming
    loop has turned into [state_dict'], and a model without 0-dimensional
    parameters: [load_bert_weights] raises [RuntimeError], naming every
    parameter key whose checkpoint tensor has another shape than the
    parameter, exactly when there is such a key, and returns normally
    otherwise, whatever keys are missing or unexpected.  The log grows by
    exactly one record, at level INFO, when the walk over the module tree
    collects an unexpected key, and by nothing otherwise; the record lists,
    sorted, the keys the walk collects ([unexpected_keys]).  These are keys of
    the state dict, so a missing key is never logged, and every key of the
    state dict whose first component names neither a submodule nor a
    parameter of the model is among them.  A parameter all of whose keys are
    missing or mismatched keeps the tensor it had, and the store the loader
    leaves is the one a single pass over the model's parameter keys computes,
    the same for every state dict with the same entries at those keys: the
    other entries are ignored. *)
Theorem load_bert_weights_outcome
    (self : module) (state_dict state_dict' : Dict.t tensor) (σ : store)
    (log : list log_record) :
  let keys := nnModule.parameter_keys "" self in
  let errors := omap (mismatch σ state_dict') keys in
  let unexpected := unexpected_keys (Dict.keys state_dict') "" self in
  LukeBaseModel.rename_keys state_dict = Ok state_dict' ->
  no_scalar σ keys ->
  exists σ',
    LukeBaseModel.load_bert_weights self state_dict (σ, log)
    = (match errors with
       | [] => Ok tt
       | _ :: _ => Raise (RuntimeError (class_name self) errors)
       end,
       (σ', log ++ match unexpected with
                   | [] => []
                   | _ :: _ => [mkLog INFO (weights_not_used (class_name self)
                                              (Str.sorted unexpected))]
                   end)) /\
    Forall (fun k => k ∈ Dict.keys state_dict') unexpected /\
    (forall k, k ∈ Dict.keys state_dict' ->
       Dict.contains (Str.before_dot k) (_modules self) = false ->
       Dict.contains (Str.before_dot k) (_parameters self) = false ->
       k ∈ Str.sorted unexpected) /\
    (forall key l t, (key, l) ∈ keys -> assoc key state_dict' = Some t ->
       shape t ≠ shape (σ l) ->
       size_mismatch key (shape t) (shape (σ l)) ∈ errors) /\
    (forall l, (forall key, (key, l) ∈ keys -> not_loaded σ state_dict' (key, l)) ->
       σ' l = σ l) /\
    (forall other : Dict.t tensor,
       (forall key l, (key, l) ∈ keys -> assoc key state_dict' = assoc key other) ->
       σ' = nnModule.params (foldl (load_step other) (nnModule.mkLoad σ [] [] []) keys)).
Proof.
  intros keys errors unexpected Hrename Hns.
  pose proof (load_steps_exact state_dict' self "" (nnModule.mkLoad σ [] [] []) Hns) as Hload.
  fold keys unexpected in Hload.
  set (st := foldl (load_step state_dict') (nnModule.mkLoad σ [] [] []) keys) in *.
  exists (nnModule.params st).
  split; [|split; [|split; [|split; [|split]]]].
  - unfold LukeBaseModel.load_bert_weights. rewrite Hrename, Hload.
    cbn [nnModule.params nnModule.unexpected_keys nnModule.error_msgs add_unexpected].
    subst st. rewrite foldl_load_step_unexpected.
    rewrite (foldl_load_step_errors σ) by done.
    cbn [nnModule.unexpected_keys nnModule.error_msgs app].
    fold errors. rewrite !ltb_length_nil.
    destruct unexpected, errors; cbn; rewrite ?app_nil_r; reflexivity.
  - subst unexpected. generalize "". clear. induction self as [c ps ms IH] using module_induction.
    intros prefix. cbn [unexpected_keys]. apply Forall_app. split.
    + apply Forall_forall. intros k [_ Hk]%list_elem_of_filter. exact Hk.
    + induction IH as [|[name child] ms Hc _ IHms]; [constructor|].
      apply Forall_app. split; [apply Hc|exact IHms].
  - intros k Hk Hm Hp. apply elem_of_sorted. subst unexpected.
    destruct self as [c ps ms]. cbn [unexpected_keys]. apply elem_of_app. left.
    apply list_elem_of_filter. split; [|exact Hk].
    unfold unexpected_at. cbn [String.prefix String.length Str.drop andb].
    cbn [_modules _parameters] in *. rewrite Hm, Hp. destruct k; reflexivity.
  - intros key l t Hin Hk Hshape. subst errors.
    apply list_elem_of_omap. exists (key, l). split; [exact Hin|].
    unfold mismatch. cbn. rewrite Hk. cbn.
    unfold nnModule.shape_eqb. rewrite bool_decide_eq_false_2 by done. done.
  - intros l Hl. subst st. rewrite (foldl_load_step_not_loaded σ) by done. done.
  - intros other Hagree. subst st. f_equal. apply foldl_load_step_ext, Hagree.
Qed.

(** The renaming loop does not fail on a dict (distinct keys). *)
Lemma assoc_setitem {V} (k k' : string) (v : V) (d : Dict.t V) :
  assoc k (Dict.setitem k' v d) = if String.eqb k k' then Some v else assoc k d.
Proof.
  induction d as [|[k0 v0] d IH]; cbn.
  - destruct (String.eqb k k'); done.
  - destruct (String.eqb_spec k' k0) as [->|Hne]; cbn.
    + destruct (String.eqb k k0); done.
    + destruct (String.eqb_spec k k0) as [->|Hne'].
      * destruct (String.eqb_spec k0 k'); [congruence|done].
      * exact IH.
Qed.

Lemma assoc_delitem_ne {V} (k k' : string) (d : Dict.t V) :
  k ≠ k' -> assoc k (Dict.delitem k' d) = assoc k d.
Proof.
  intros Hne. induction d as [|[k0 v0] d IH]; cbn; [done|].
  destruct (String.eqb_spec k' k0) as [->|Hne0]; cbn.
  - destruct (String.eqb_spec k k0); [congruence|done].
  - rewrite IH. done.
Qed.

Lemma rename_keys_total (state_dict : Dict.t tensor) :
  NoDup (Dict.keys state_dict) ->
  exists state_dict', LukeBaseModel.rename_keys state_dict = Ok state_dict'.
Proof.
  unfold LukeBaseModel.rename_keys.
  assert (forall k, k ∈ Dict.keys state_dict -> is_Some (assoc k state_dict)) as Hin.
  { unfold Dict.keys. induction state_dict as [|[k0 v0] d IH]; intros k Hk.
    - apply elem_of_nil in Hk. done.
    - cbn. destruct (String.eqb_spec k k0); [eauto|].
      apply IH. cbn in Hk. apply elem_of_cons in Hk as [?|?]; done. }
  generalize dependent (Dict.keys state_dict). intros ks. revert state_dict.
  induction ks as [|key ks IH]; intros d Hin Hnd; [eauto|].
  apply NoDup_cons in Hnd as [Hkey Hnd]. cbn [foldl]. cbn [mbind result_bind].
  unfold LukeBaseModel.rename at 2.
  destruct (String.eqb key (LukeBaseModel.new_key key)).
  - apply IH; [|done]. intros k Hk. apply Hin. apply list_elem_of_further, Hk.
  - destruct (Hin key (list_elem_of_here _ _)) as [v Hv]. rewrite Hv.
    apply IH; [|done]. intros k Hk.
    rewrite assoc_delitem_ne by (intros ->; done).
    rewrite assoc_setitem. destruct (String.eqb k _); [eauto|].
    apply Hin. apply list_elem_of_further, Hk.
Qed.

Lemma example_no_scalar :
  no_scalar Example.σ (nnModule.parameter_keys "" (LukeE2EModel.registry Example.model)).
Proof.
  apply (bool_decide_unpack _). vm_compute. exact I.
Qed.

Lemma load_bert_weights_outcome_witness :
  let self := LukeE2EModel.registry Example.model in
  let keys := nnModule.parameter_keys "" self in
  let errors := omap (mismatch Example.σ Example.renamed) keys in
  let unexpected := unexpected_keys (Dict.keys Example.renamed) "" self in
  unexpected = ["cls.predictions.bias"] /\
  exists σ',
    LukeBaseModel.load_bert_weights self Example.checkpoint (Example.σ, [])
    = (match errors with
       | [] => Ok tt
       | _ :: _ => Raise (RuntimeError (class_name self) errors)
       end,
       (σ', [] ++ match unexpected with
                  | [] => []
                  | _ :: _ => [mkLog INFO (weights_not_used (class_name self)
                                             (Str.sorted unexpected))]
                  end)) /\
    Forall (fun k => k ∈ Dict.keys Example.renamed) unexpected /\
    (forall k, k ∈ Dict.keys Example.renamed ->
       Dict.contains (Str.before_dot k) (_modules self) = false ->
       Dict.contains (Str.before_dot k) (_parameters self) = false ->
       k ∈ Str.sorted unexpected) /\
    (forall key l t, (key, l) ∈ keys -> assoc key Example.renamed = Some t ->
       shape t ≠ shape (Example.σ l) ->
       size_mismatch key (shape t) (shape (Example.σ l)) ∈ errors) /\
    (forall l, (forall key, (key, l) ∈ keys -> not_loaded Example.σ Example.renamed (key, l)) ->
       σ' l = Example.σ l) /\
    (forall other : Dict.t tensor,
       (forall key l, (key, l) ∈ keys -> assoc key Example.renamed = assoc key other) ->
       σ' = nnModule.params
              (foldl (load_step other) (nnModule.mkLoad Example.σ [] [] []) keys)).
Proof.
  split; [vm_compute; reflexivity|].
  apply (load_bert_weights_outcome (LukeE2EModel.registry Example.model) Example.checkpoint
           Example.renamed Example.σ []).
  - reflexivity.
  - exact example_no_scalar.
Defined.

(** C7 as stated fails: the checkpoint of a plain transformer lacks the
    entity table, a parameter key of the model; loading returns normally and
    the log holds one record, at level INFO, about the unexpected key only. *)
Lemma missing_keys_not_logged :
  let self := LukeE2EModel.registry Example.model in
  ("entity_embeddings.entity_embeddings.weight", 23%nat) ∈ nnModule.parameter_keys "" self /\
  LukeBaseModel.rename_keys Example.plain_checkpoint = Ok Example.plain_renamed /\
  assoc "entity_embeddings.entity_embeddings.weight" Example.plain_renamed = None /\
  exists σ',
    LukeBaseModel.load_bert_weights self Example.plain_checkpoint (Example.σ, [])
    = (Ok tt,
       (σ', [mkLog INFO (weights_not_used "LukeE2EModel" ["cls.predictions.bias"])])).
Proof.
  intros self. split; [|split; [reflexivity|split; [reflexivity|]]].
  - apply list_elem_of_In. run. tauto.
  - eexists. run. reflexivity.
Qed.

(** ** C2: padding candidates *)

Section softmax.
Local Open Scope R_scope.

Lemma exp_INR (n : nat) : exp (INR n) = exp 1 ^ n.
Proof.
  induction n as [|n IH].
  - cbn. apply exp_0.
  - rewrite S_INR, exp_plus, IH. cbn. ring.
Qed.

Lemma exp_20 : 10 ^ 6 < exp 20.
Proof.
  replace 20 with (INR 20) by (cbn; lra). rewrite exp_INR.
  pose proof (exp_ineq1_le 1) as H1.
  pose proof (pow_incr 2 (exp 1) 20) as H2.
  assert (2 ^ 20 <= exp 1 ^ 20) as H3 by (apply H2; lra).
  cbn in H3 |- *. lra.
Qed.

Lemma rsum_exp_pos (l : list R) : 0 <= rsum (map exp l).
Proof.
  induction l as [|a l IH]; cbn; [lra|]. pose proof (exp_pos a). fold (rsum (map exp l)). lra.
Qed.

Lemma rsum_exp_ge (l : list R) (j : nat) (x : R) :
  l !! j = Some x -> exp x <= rsum (map exp l).
Proof.
  revert j. induction l as [|a l IH]; intros [|j] Hj; try done.
  - injection Hj as ->. cbn. pose proof (rsum_exp_pos l). unfold rsum in *. lra.
  - cbn. pose proof (IH j Hj). pose proof (exp_pos a). unfold rsum in *. lra.
Qed.

Lemma softmax_lookup (l : list R) (i : nat) (x : R) :
  l !! i = Some x -> F.softmax l !! i = Some (exp x / rsum (map exp l)).
Proof. intros Hi. unfold F.softmax. rewrite list_lookup_fmap, Hi. done. Qed.

(** A logit at least 20 below another one gets less than one millionth of
    the probability mass. *)
Lemma softmax_below (l : list R) (i j : nat) (xi xj : R) :
  l !! i = Some xi -> l !! j = Some xj -> xi + 20 <= xj ->
  exists p, F.softmax l !! i = Some p /\ p < 1 / 10 ^ 6.
Proof.
  intros Hi Hj Hle. eexists. split; [apply softmax_lookup, Hi|].
  pose proof (rsum_exp_ge l j xj Hj) as Hsum.
  pose proof (exp_pos xi) as Hxi. pose proof (exp_pos xj) as Hxj.
  assert (exp xi * exp 20 <= exp xj) as Hexp.
  { rewrite <- exp_plus. destruct Hle as [Hlt| ->]; [|lra].
    left. apply exp_increasing, Hlt. }
  pose proof exp_20 as H20.
  assert (0 < 10 ^ 6) as H6 by (cbn; lra).
  apply (Rmult_lt_reg_r (rsum (map exp l))); [lra|].
  unfold Rdiv. rewrite Rmult_assoc, Rinv_l by lra.
  apply (Rmult_lt_reg_l (10 ^ 6)); [lra|].
  replace (10 ^ 6 * (1 * / 10 ^ 6 * rsum (map exp l))) with (rsum (map exp l)) by (field; lra).
  nra.
Qed.

End softmax.

Lemma result_bind_Ok {A B} (m : result A) (f : A -> result B) (b : B) :
  m ≫= f = Ok b -> exists a, m = Ok a /\ f a = Ok b.
Proof. destruct m as [a|e]; [eauto | discriminate]. Qed.

Lemma mapM_result_inv {A B} (f : A -> result B) (l : list A) (ys : list B) :
  mapM f l = Ok ys -> Forall2 (fun x y => f x = Ok y) l ys.
Proof.
  revert ys. induction l as [|a l IH]; intros ys H.
  - injection H as <-. constructor.
  - cbn in H. apply result_bind_Ok in H as (y & Hy & H).
    apply result_bind_Ok in H as (ys' & Hys & H). injection H as <-.
    constructor; [exact Hy | apply IH, Hys].
Qed.

Lemma zip_exact_pure_inv {A B C} (g : A -> B -> C) (x : list A) (y : list B) (z : list C) :
  zip_exact (fun a b => Ok (g a b)) x y = Ok z -> length x = length y /\ z = zip_with g x y.
Proof.
  unfold zip_exact, zipM. destruct (Nat.eqb_spec (length x) (length y)) as [Hlen|]; [|done].
  intros H. split; [exact Hlen|].
  pose proof (zip_exact_pure g x y Hlen) as Hok. unfold zip_exact, zipM in Hok.
  rewrite (proj2 (Nat.eqb_eq _ _) Hlen) in Hok. congruence.
Qed.

Lemma zip_exact_nested_inv {A B C} (g : A -> B -> C)
    (x : list (list A)) (y : list (list B)) (z : list (list C)) :
  zip_exact (zip_exact (fun a b => Ok (g a b))) x y = Ok z ->
  Forall2 (fun r1 r2 => length r1 = length r2) x y /\ z = zip_with (zip_with g) x y.
Proof.
  unfold zip_exact at 1, zipM. destruct (Nat.eqb_spec (length x) (length y)) as [Hlen|]; [|done].
  intros H. pose proof (mapM_result_inv _ _ _ H) as HF.
  assert (Forall2 (fun r1 r2 => length r1 = length r2) x y) as Hshape.
  { apply Forall2_same_length_lookup_2; [exact Hlen|]. intros i r1 r2 Hr1 Hr2.
    assert (zip x y !! i = Some (r1, r2)) as Hz.
    { rewrite lookup_zip_with, Hr1, Hr2. done. }
    destruct (Forall2_lookup_l _ _ _ _ _ HF Hz) as (r & _ & Hr). cbn in Hr.
    apply zip_exact_pure_inv in Hr as [Hr _]. exact Hr. }
  split; [exact Hshape|].
  pose proof (zip_exact_nested g x y Hshape) as Hok.
  unfold zip_exact at 1, zipM in Hok.
  rewrite (proj2 (Nat.eqb_eq _ _) Hlen) in Hok. congruence.
Qed.

Lemma at2_zip_with {A B C} (g : A -> B -> C) (x : list (list A)) (y : list (list B)) b m :
  at2 (zip_with (zip_with g) x y) b m
  = (a ← at2 x b m; c ← at2 y b m; Some (g a c)).
Proof.
  unfold at2. rewrite lookup_zip_with.
  destruct (x !! b) as [xr|]; [|done]. destruct (y !! b) as [yr|]; cbn.
  - apply lookup_zip_with.
  - destruct (xr !! m); done.
Qed.

Lemma at2_Forall2 {A B} (P : A -> B -> Prop) (x : list (list A)) (y : list (list B)) b m a :
  Forall2 (Forall2 P) x y -> at2 x b m = Some a -> exists c, at2 y b m = Some c /\ P a c.
Proof.
  unfold at2. intros HF Ha.
  destruct (x !! b) as [xr|] eqn:Hxr; [|done]. cbn in Ha.
  destruct (Forall2_lookup_l _ _ _ _ _ HF Hxr) as (yr & -> & Hr). cbn.
  destruct (Forall2_lookup_l _ _ _ _ _ Hr Ha) as (c & -> & Hc). eauto.
Qed.

Lemma at2_same_shape {A B} (x : list (list A)) (y : list (list B)) b m c :
  Forall2 (fun r1 r2 => length r1 = length r2) x y ->
  at2 y b m = Some c -> is_Some (at2 x b m).
Proof.
  unfold at2. intros HF Hc.
  destruct (y !! b) as [yr|] eqn:Hyr; [|done]. cbn in Hc.
  destruct (Forall2_lookup_r _ _ _ _ _ HF Hyr) as (xr & -> & Hlen). cbn.
  apply lookup_lt_is_Some. rewrite Hlen. eapply lookup_lt_Some, Hc.
Qed.

Section padding.
Context `{BertForward}.
Local Open Scope R_scope.

(** The score of every candidate: the dot product with the transformed
    hidden vector, plus the candidate's bias, minus 10000 for the padding id. *)
Lemma selector_score (σ : store) (self : EntitySelector.t) (hidden_states : list (list (list R)))
    (entity_candidate_ids : list (list (list Z))) (scores : list (list (list R))) :
  EntitySelector.forward σ self hidden_states entity_candidate_ids = Ok scores ->
  exists transformed,
    BertPredictionHeadTransform_forward σ (EntitySelector.transform self) hidden_states
      = Ok transformed /\
    forall b m c id,
      at3 entity_candidate_ids b m c = Some id ->
      exists h e bias,
        at2 transformed b m = Some h /\
        Embedding.forward σ (EntitySelector.embeddings self) id = Ok e /\
        Embedding.forward σ (EntitySelector.bias self) id = Ok [bias] /\
        at3 scores b m c
          = Some (dot h e + bias + (if (id =? 0)%Z then -10000 else 0)).
Proof.
  unfold EntitySelector.forward. intros Hfwd.
  apply result_bind_Ok in Hfwd as (embs & Hembs & Hfwd).
  apply result_bind_Ok in Hfwd as (biases & Hbiases & Hfwd).
  apply result_bind_Ok in Hfwd as (transformed & Htr & Hfwd).
  apply result_bind_Ok in Hfwd as (s1 & Hs1 & Hfwd).
  apply result_bind_Ok in Hfwd as (s2 & Hs2 & Hfwd).
  apply zip_exact_nested_inv in Hs1 as [Hshape1 ->].
  apply zip_exact_nested_inv in Hs2 as [_ ->].
  apply zip_exact_nested_inv in Hfwd as [_ ->].
  exists transformed. split; [exact Htr|].
  intros b m c id Hid. unfold at3 in Hid.
  destruct (at2 entity_candidate_ids b m) as [cs|] eqn:Hcs; [|done]. cbn in Hid.
  assert (Forall2 (Forall2 (Forall2 (fun id e =>
            Embedding.forward σ (EntitySelector.embeddings self) id = Ok e)))
            entity_candidate_ids embs) as HFe.
  { apply mapM_result_inv in Hembs. eapply Forall2_impl; [exact Hembs|].
    intros ? ? Hr. apply mapM_result_inv in Hr. eapply Forall2_impl; [exact Hr|].
    intros ? ? Hr'. apply mapM_result_inv in Hr'. exact Hr'. }
  assert (Forall2 (Forall2 (Forall2 (fun id bv =>
            Embedding.forward σ (EntitySelector.bias self) id ≫= EntitySelector.squeeze
            = Ok bv)))
            entity_candidate_ids biases) as HFb.
  { apply mapM_result_inv in Hbiases. eapply Forall2_impl; [exact Hbiases|].
    intros ? ? Hr. apply mapM_result_inv in Hr. eapply Forall2_impl; [exact Hr|].
    intros ? ? Hr'. apply mapM_result_inv in Hr'. exact Hr'. }
  destruct (at2_Forall2 _ _ _ b m cs HFe Hcs) as (es & Hes & Hces).
  destruct (at2_Forall2 _ _ _ b m cs HFb Hcs) as (bs & Hbs & Hcbs).
  destruct (Forall2_lookup_l _ _ _ _ _ Hces Hid) as (e & He & Hemb).
  destruct (Forall2_lookup_l _ _ _ _ _ Hcbs Hid) as (bv & Hbv & Hbias).
  destruct (at2_same_shape _ _ b m es Hshape1 Hes) as [h Hh].
  apply result_bind_Ok in Hbias as (r & Hr & Hsq).
  assert (r = [bv]) as ->.
  { destruct r as [|x [|? ?]]; try discriminate. injection Hsq as ->. done. }
  exists h, e, bv. split; [exact Hh|]. split; [exact Hemb|]. split; [exact Hr|].
  unfold at3. rewrite !at2_zip_with, Hh, Hes, Hbs, Hcs. cbn.
  rewrite !lookup_zip_with, list_lookup_fmap, He, Hbv, Hid. cbn.
  unfold EntitySelector.padding_penalty. do 2 f_equal.
  destruct (id =? 0)%Z; lra.
Qed.

(** C2 (as the code has it). In a successful run of
    [EntitySelector.forward] every padding candidate (id 0) has its score
    lowered by 10000 and no other candidate has; and when the slot also holds
    a real candidate whose score is no more than [10000 - 20 * temp] below the
    score the padding candidate would have had, the softmax over the slot's
    scores divided by the temperature gives the padding candidate a
    probability below one millionth. *)
Theorem padding_candidate_probability
    (σ : store) (self : EntitySelector.t) (hidden_states : list (list (list R)))
    (entity_candidate_ids : list (list (list Z))) (scores : list (list (list R)))
    (temp : R) :
  EntitySelector.forward σ self hidden_states entity_candidate_ids = Ok scores ->
  0 < temp ->
  exists transformed,
    BertPredictionHeadTransform_forward σ (EntitySelector.transform self) hidden_states
      = Ok transformed /\
    (forall b m c id,
       at3 entity_candidate_ids b m c = Some id ->
       exists h e bias,
         at2 transformed b m = Some h /\
         Embedding.forward σ (EntitySelector.embeddings self) id = Ok e /\
         Embedding.forward σ (EntitySelector.bias self) id = Ok [bias] /\
         at3 scores b m c
           = Some (dot h e + bias + (if (id =? 0)%Z then -10000 else 0))) /\
    (forall b m i j id h e0 bias0 e bias,
       at3 entity_candidate_ids b m i = Some 0%Z ->
       at3 entity_candidate_ids b m j = Some id -> id ≠ 0%Z ->
       at2 transformed b m = Some h ->
       Embedding.forward σ (EntitySelector.embeddings self) 0 = Ok e0 ->
       Embedding.forward σ (EntitySelector.bias self) 0 = Ok [bias0] ->
       Embedding.forward σ (EntitySelector.embeddings self) id = Ok e ->
       Embedding.forward σ (EntitySelector.bias self) id = Ok [bias] ->
       dot h e0 + bias0 <= dot h e + bias + (10000 - 20 * temp) ->
       exists row p,
         at2 scores b m = Some row /\
         F.softmax (map (fun x => x / temp) row) !! i = Some p /\
         p < 1 / 10 ^ 6).
Proof.
  intros Hfwd Htemp.
  destruct (selector_score σ self hidden_states entity_candidate_ids scores Hfwd)
    as (transformed & Htr & Hscore).
  exists transformed. split; [exact Htr|]. split; [exact Hscore|].
  intros b m i j id h e0 bias0 e bias Hi Hj Hid Hh He0 Hb0 He Hb Hle.
  destruct (Hscore b m i 0%Z Hi) as (h1 & e1 & b1 & Hh1 & He1 & Hb1 & Hsi).
  destruct (Hscore b m j id Hj) as (h2 & e2 & b2 & Hh2 & He2 & Hb2 & Hsj).
  assert (h1 = h) as -> by congruence. assert (h2 = h) as -> by congruence.
  assert (e1 = e0) as -> by congruence. assert (b1 = bias0) as -> by congruence.
  assert (e2 = e) as -> by congruence. assert (b2 = bias) as -> by congruence.
  cbn in Hsi. destruct (Z.eqb_spec id 0) as [|_]; [done|].
  unfold at3 in Hsi, Hsj.
  destruct (at2 scores b m) as [row|]; [|done]. cbn in Hsi, Hsj.
  exists row.
  destruct (softmax_below (map (fun x => x / temp) row) i j
              ((dot h e0 + bias0 + -10000) / temp) ((dot h e + bias + 0) / temp))
    as (p & Hp & Hlt).
  - rewrite list_lookup_fmap, Hsi. done.
  - rewrite list_lookup_fmap, Hsj. done.
  - apply (Rmult_le_reg_r temp); [exact Htemp|].
    replace (((dot h e0 + bias0 + -10000) / temp + 20) * temp)
      with (dot h e0 + bias0 + -10000 + 20 * temp) by (field; lra).
    replace ((dot h e + bias + 0) / temp * temp) with (dot h e + bias) by (field; lra).
    lra.
  - exists p. done.
Qed.

End padding.

Lemma padding_candidate_probability_witness :
  exists scores transformed,
    EntitySelector.forward (H := Example.bert) Example.σ
      (LukeE2EModel.entity_selector Example.model) [[[1; 2]]]%R [[[1; 0]]]%Z = Ok scores /\
    BertPredictionHeadTransform_forward (BertForward := Example.bert) Example.σ
      (EntitySelector.transform (LukeE2EModel.entity_selector Example.model)) [[[1; 2]]]%R
      = Ok transformed /\
    exists row p,
      at2 scores 0 0 = Some row /\
      F.softmax (map (fun x => x / 2)%R row) !! 1%nat = Some p /\
      (p < 1 / 10 ^ 6)%R.
Proof.
  destruct (EntitySelector.forward (H := Example.bert) Example.σ
              (LukeE2EModel.entity_selector Example.model) [[[1; 2]]]%R [[[1; 0]]]%Z)
    as [scores|e] eqn:Hfwd.
  2:{ exfalso. revert Hfwd. run. discriminate. }
  destruct (padding_candidate_probability (H := Example.bert) Example.σ
              (LukeE2EModel.entity_selector Example.model) [[[1; 2]]]%R [[[1; 0]]]%Z
              scores 2 Hfwd ltac:(lra)) as (transformed & Htr & _ & Hprob).
  exists scores, transformed. split; [reflexivity|]. split; [exact Htr|].
  apply (Hprob 0%nat 0%nat 1%nat 0%nat 1%Z [1; 2]%R [0; 0]%R 0%R [0 + 1 * 1; 0 + 1 * 1]%R
           (0 + 1 * 1)%R); try reflexivity; try done.
  - revert Htr. run. intros [= <-]. reflexivity.
  - cbn. lra.
Defined.

Lemma uniform_of_two (x : R) : (0 < x)%R -> ¬ (x / (x + (x + 0)) < 1 / 10 ^ 6)%R.
Proof.
  intros Hx Hlt. replace (x / (x + (x + 0)))%R with (1 / 2)%R in Hlt by (field; lra).
  assert (1 / 10 ^ 6 < 1 / 2)%R; [|lra].
  unfold Rdiv. rewrite !Rmult_1_l. apply Rinv_lt_contravar; cbn; lra.
Qed.

(** C2 as stated fails: a slot whose candidates are all padding gets a
    uniform distribution, so each padding candidate has probability 1/2. *)
Lemma all_padding_slot_uniform :
  exists row p,
    EntitySelector.forward (H := Example.bert) Example.σ
      (LukeE2EModel.entity_selector Example.model) [[[1; 2]]]%R [[[0; 0]]]%Z = Ok [[row]] /\
    F.softmax row !! 0%nat = Some p /\
    ¬ (p < 1 / 10 ^ 6)%R.
Proof.
  do 2 eexists. split; [run; reflexivity|].
  split; [apply softmax_lookup; reflexivity|].
  cbn [map rsum foldr]. apply uniform_of_two, exp_pos.
Qed.

(** * Further properties of the code *)

(** ** The additive attention mask *)

Section attention_mask.
Local Open Scope R_scope.

Lemma zip_exact_length_ne {A B C} (f : A -> B -> result C) (x : list A) (y : list B) :
  length x ≠ length y -> zip_exact f x y = Raise ShapeError.
Proof.
  intros Hne. unfold zip_exact, zipM.
  destruct (Nat.eqb_spec (length x) (length y)); done.
Qed.

(** X1. For word and entity masks of the same batch size,
    [_compute_extended_attention_mask] returns, for every example, one row
    as long as the word row followed by the entity row, holding 0 where the
    mask is 1 and -10000 where the mask is 0, word positions first. *)
Theorem extended_attention_mask_values (word_attention_mask entity_attention_mask : list (list Z)) :
  length word_attention_mask = length entity_attention_mask ->
  exists extended,
    LukeBaseModel._compute_extended_attention_mask word_attention_mask entity_attention_mask
      = Ok extended /\
    length extended = length word_attention_mask /\
    forall b ws es,
      word_attention_mask !! b = Some ws -> entity_attention_mask !! b = Some es ->
      exists row,
        extended !! b = Some row /\
        length row = (length ws + length es)%nat /\
        (forall i, ws !! i = Some 1%Z -> row !! i = Some 0) /\
        (forall i, ws !! i = Some 0%Z -> row !! i = Some (-10000)) /\
        (forall j, es !! j = Some 1%Z -> row !! (length ws + j)%nat = Some 0) /\
        (forall j, es !! j = Some 0%Z -> row !! (length ws + j)%nat = Some (-10000)).
Proof.
  intros Hlen. unfold LukeBaseModel._compute_extended_attention_mask, cat1.
  rewrite zip_exact_pure by exact Hlen. cbn.
  eexists. split; [reflexivity|]. split.
  { rewrite length_map, length_zip_with. lia. }
  intros b ws es Hws Hes. exists (map (fun m => (1 - IZR m) * -10000) (ws ++ es)).
  rewrite list_lookup_fmap, lookup_zip_with, Hws. cbn. rewrite Hes. cbn.
  split; [done|]. split; [rewrite length_map, length_app; done|].
  repeat split.
  - intros i Hi. rewrite list_lookup_fmap, lookup_app_l by (eapply lookup_lt_Some, Hi).
    rewrite Hi. cbn. f_equal. lra.
  - intros i Hi. rewrite list_lookup_fmap, lookup_app_l by (eapply lookup_lt_Some, Hi).
    rewrite Hi. cbn. f_equal. lra.
  - intros j Hj. rewrite list_lookup_fmap, lookup_app_r by lia.
    replace (length ws + j - length ws)%nat with j by lia.
    rewrite Hj. cbn. f_equal. lra.
  - intros j Hj. rewrite list_lookup_fmap, lookup_app_r by lia.
    replace (length ws + j - length ws)%nat with j by lia.
    rewrite Hj. cbn. f_equal. lra.
Qed.

End attention_mask.

Lemma extended_attention_mask_values_witness :
  exists extended,
    LukeBaseModel._compute_extended_attention_mask [[1; 0]; [1; 1]]%Z [[1]; [0]]%Z = Ok extended /\
    length extended = 2 /\
    forall b ws es,
      [[1; 0]; [1; 1]]%Z !! b = Some ws -> [[1]; [0]]%Z !! b = Some es ->
      exists row,
        extended !! b = Some row /\
        length row = (length ws + length es)%nat /\
        (forall i, ws !! i = Some 1%Z -> row !! i = Some 0%R) /\
        (forall i, ws !! i = Some 0%Z -> row !! i = Some (-10000)%R) /\
        (forall j, es !! j = Some 1%Z -> row !! (length ws + j)%nat = Some 0%R) /\
        (forall j, es !! j = Some 0%Z -> row !! (length ws + j)%nat = Some (-10000)%R).
Proof.
  apply (extended_attention_mask_values [[1; 0]; [1; 1]]%Z [[1]; [0]]%Z). reflexivity.
Defined.

Section mask_first.
Context `{BertForward}.

(** X2. Both forward passes build the attention mask before anything
    else: when the word mask and the entity mask differ in their number of
    examples, [LukeModel.forward] and [LukeE2EModel.forward] raise the shape
    error of the concatenation, whatever the ids are (an id outside its table
    is not reached) and whether training or not (nothing is drawn from the
    generator). *)
Theorem forward_mask_batch_mismatch (σ : store) (training : bool)
    (self : LukeBaseModel.t) (e2e : LukeE2EModel.t)
    (word_ids word_segment_ids word_attention_mask entity_ids : list (list Z))
    (entity_candidate_ids entity_position_ids : list (list (list Z)))
    (entity_segment_ids entity_attention_mask : list (list Z))
    (masked_entity_labels : option (list (list Z))) (output_entity_selector_scores : bool)
    (g : Generator) :
  length word_attention_mask ≠ length entity_attention_mask ->
  LukeModel.forward σ training self word_ids word_segment_ids word_attention_mask
    entity_ids entity_position_ids entity_segment_ids entity_attention_mask g
  = (Raise ShapeError, g) /\
  LukeE2EModel.forward σ training e2e word_ids word_segment_ids word_attention_mask
    entity_candidate_ids entity_position_ids entity_segment_ids entity_attention_mask
    masked_entity_labels output_entity_selector_scores g
  = (Raise ShapeError, g).
Proof.
  intros Hne.
  assert (LukeBaseModel._compute_extended_attention_mask word_attention_mask
            entity_attention_mask = Raise ShapeError) as Hmask.
  { unfold LukeBaseModel._compute_extended_attention_mask, cat1.
    rewrite zip_exact_length_ne by exact Hne. done. }
  unfold LukeModel.forward, LukeE2EModel.forward. rewrite Hmask. split; reflexivity.
Qed.

End mask_first.

Lemma forward_mask_batch_mismatch_witness :
  LukeModel.forward (H := Example.bert) Example.σ true (LukeE2EModel.base Example.model)
    Example.word_ids Example.word_segment_ids [[1]; [1]]%Z [[7]]%Z
    Example.entity_position_ids Example.entity_segment_ids Example.entity_attention_mask
    Example.generator
  = (Raise ShapeError, Example.generator) /\
  LukeE2EModel.forward (H := Example.bert) Example.σ true Example.model
    Example.word_ids Example.word_segment_ids [[1]; [1]]%Z [[[7]]]%Z
    Example.entity_position_ids Example.entity_segment_ids Example.entity_attention_mask
    None false Example.generator
  = (Raise ShapeError, Example.generator).
Proof.
  apply (forward_mask_batch_mismatch (H := Example.bert) Example.σ true
           (LukeE2EModel.base Example.model) Example.model).
  vm_compute. lia.
Defined.

(** ** Position ids *)

(** X3. Only -1 is padding among the position ids: an id below -1 is
    clamped to 0 and counted as a real position, so the slot's position
    vector is the one it would have with position 0 in its place. *)
Theorem position_ids_below_minus_one (weight : tensor) (position_ids : list Z) :
  EntityEmbeddings.position_average weight position_ids
  = EntityEmbeddings.position_average weight
      (map (fun i => if (i <? -1)%Z then 0%Z else i) position_ids).
Proof.
  unfold EntityEmbeddings.position_average.
  replace (map (clamp_min 0) (map (fun i => if (i <? -1)%Z then 0%Z else i) position_ids))
    with (map (clamp_min 0) position_ids).
  2:{ rewrite map_map. apply map_ext. intros i. unfold clamp_min.
      destruct (Z.ltb_spec i (-1)); lia. }
  replace (ne_mask (-1) (map (fun i => if (i <? -1)%Z then 0%Z else i) position_ids))
    with (ne_mask (-1) position_ids).
  2:{ unfold ne_mask. rewrite map_map. apply map_ext. intros i.
      destruct (Z.ltb_spec i (-1)); [|done].
      destruct (Z.eqb_spec i (-1)); [lia|done]. }
  done.
Qed.

Lemma real_positions_padding ids k :
  real_positions (ids ++ repeat (-1)%Z k) = real_positions ids.
Proof.
  unfold real_positions. rewrite filter_app.
  replace (filter (fun i => i ≠ (-1)%Z) (repeat (-1)%Z k)) with (@nil Z).
  - apply app_nil_r.
  - symmetry. induction k as [|k IH]; [done|]. cbn [repeat].
    rewrite filter_cons, decide_False by (intros H; apply H; reflexivity). exact IH.
Qed.

(** X4. Padding a slot's position ids with further -1 entries does not
    change the slot's position vector (for a well-shaped table with at least
    one row and ids that are -1 or in range). *)
Theorem position_average_padding (n d : nat) (weight : tensor) (position_ids : list Z) (k : nat) :
  shape weight = [n; d] -> well_shaped weight -> (0 < n)%nat ->
  Forall (valid_position n) position_ids ->
  EntityEmbeddings.position_average weight (position_ids ++ repeat (-1)%Z k)
  = EntityEmbeddings.position_average weight position_ids.
Proof.
  intros Hs Hw Hn Hids.
  rewrite (position_average_pool n d weight position_ids) by done.
  rewrite (position_average_pool n d); try done.
  - unfold masked_mean_pool. rewrite real_positions_padding. done.
  - apply Forall_app. split; [done|]. apply Forall_forall. intros i Hi.
    apply list_elem_of_In, repeat_spec in Hi. left. done.
Qed.

Lemma position_average_padding_witness :
  let w := Example.σ (Embedding.weight
             (EntityEmbeddings.position_embeddings
                (LukeBaseModel.entity_embeddings (LukeE2EModel.base Example.model)))) in
  EntityEmbeddings.position_average w ([2; 3]%Z ++ repeat (-1)%Z 5)
  = EntityEmbeddings.position_average w [2; 3]%Z.
Proof.
  apply (position_average_padding 4 2).
  - reflexivity.
  - reflexivity.
  - lia.
  - repeat constructor; unfold valid_position; lia.
Defined.

(** ** Lookups out of range *)

Lemma mapM_raises_only {A B} (e : exception) (f : A -> result B) :
  raises_only e f -> raises_only e (mapM f).
Proof.
  intros Hf l. induction l as [|a l IH]; [right; eexists; done|].
  cbn. destruct (Hf a) as [->|[b ->]]; [left; done|]. cbn.
  destruct IH as [->|[bs ->]]; [left; done|right; eexists; done].
Qed.

Lemma mapM_result_raise {A B} (f : A -> result B) (e : exception) (l : list A) (i : nat) (a : A) :
  raises_only e f -> l !! i = Some a -> f a = Raise e -> mapM f l = Raise e.
Proof.
  intros Hf. revert i. induction l as [|x l IH]; intros i Hi Ha; [done|].
  cbn. destruct i as [|i]; cbn in Hi.
  - injection Hi as ->. rewrite Ha. done.
  - destruct (Hf x) as [->|[b ->]]; [done|]. cbn. rewrite (IH i Hi Ha). done.
Qed.

Lemma mapM2_result_raise {A B} (f : A -> result B) (e : exception) (t : list (list A)) b m a :
  raises_only e f -> at2 t b m = Some a -> f a = Raise e -> mapM (mapM f) t = Raise e.
Proof.
  intros Hf Ha Hr. unfold at2 in Ha.
  destruct (t !! b) as [r|] eqn:Hrow; [|done]. cbn in Ha.
  eapply mapM_result_raise; [apply mapM_raises_only, Hf | exact Hrow |].
  eapply mapM_result_raise; eauto.
Qed.

Lemma mapM3_result_raise {A B} (f : A -> result B) (e : exception)
    (t : list (list (list A))) b m c a :
  raises_only e f -> at3 t b m c = Some a -> f a = Raise e ->
  mapM (mapM (mapM f)) t = Raise e.
Proof.
  intros Hf Ha Hr. unfold at3 in Ha.
  destruct (at2 t b m) as [r|] eqn:Hrow; [|done]. cbn in Ha.
  eapply (mapM2_result_raise (mapM f)); [apply mapM_raises_only, Hf | exact Hrow |].
  eapply mapM_result_raise; eauto.
Qed.

Lemma embedding_raises_only n d (σ : store) (e : Embedding.t) :
  shape (σ (Embedding.weight e)) = [n; d] -> raises_only IndexError (Embedding.forward σ e).
Proof.
  unfold Embedding.forward, F.embedding. intros -> id. destruct (_ && _); eauto.
Qed.

Lemma embedding_out_of_range n d (σ : store) (e : Embedding.t) (id : Z) :
  shape (σ (Embedding.weight e)) = [n; d] -> ¬ (0 <= id < Z.of_nat n)%Z ->
  Embedding.forward σ e id = Raise IndexError.
Proof.
  unfold Embedding.forward, F.embedding. intros -> Hid.
  destruct (Z.leb_spec 0 id); [|done].
  destruct (Z.ltb_spec id (Z.of_nat n)); [lia|done].
Qed.

Lemma position_average_raises_only n d (w : tensor) :
  shape w = [n; d] -> raises_only IndexError (EntityEmbeddings.position_average w).
Proof.
  intros Hs ids. unfold EntityEmbeddings.position_average.
  destruct (mapM_raises_only IndexError (F.embedding w)) with (a := map (clamp_min 0) ids)
    as [->|[rows ->]]; [|left; done|right; eexists; done].
  intros a. unfold F.embedding. rewrite Hs. destruct (_ && _); eauto.
Qed.

(** X5. [EntityEmbeddings.forward] raises [IndexError], and draws
    nothing from the generator, as soon as one entity id lies outside the
    rows of the entity table. *)
Theorem entity_id_out_of_range (σ : store) (training : bool) (self : EntityEmbeddings.t)
    (n d : nat) (entity_ids : list (list Z)) (position_ids : list (list (list Z)))
    (token_type_ids : option (list (list Z))) (b m : nat) (id : Z) (g : Generator) :
  shape (σ (Embedding.weight (EntityEmbeddings.entity_embeddings self))) = [n; d] ->
  at2 entity_ids b m = Some id -> ¬ (0 <= id < Z.of_nat n)%Z ->
  EntityEmbeddings.forward σ training self entity_ids position_ids token_type_ids g
  = (Raise IndexError, g).
Proof.
  intros Hs Hid Hout. unfold EntityEmbeddings.forward, EntityEmbeddings.identity_term.
  rewrite (mapM2_result_raise _ IndexError entity_ids b m id); [done| |done|].
  - eapply embedding_raises_only, Hs.
  - eapply embedding_out_of_range; eauto.
Qed.

Lemma entity_id_out_of_range_witness :
  EntityEmbeddings.forward Example.σ false
    (LukeBaseModel.entity_embeddings (LukeE2EModel.base Example.model))
    [[1; 3]]%Z [[[0]; [0]]]%Z None Example.generator
  = (Raise IndexError, Example.generator).
Proof.
  apply (entity_id_out_of_range Example.σ false _ 3 2 [[1; 3]]%Z _ _ 0 1 3%Z).
  - reflexivity.
  - reflexivity.
  - lia.
Defined.

Lemma mapM_result_returns {A B} (f : A -> result B) (l : list A) :
  Forall (fun a => exists b, f a = Ok b) l -> exists bs, mapM f l = Ok bs.
Proof.
  induction 1 as [|a l [b Ha] _ [bs IH]]; [eexists; done|].
  cbn. rewrite Ha. cbn. rewrite IH. eexists. done.
Qed.

(** X6. With a 2-D position table of [n'] rows: [EntityEmbeddings.forward]
    raises [IndexError], drawing nothing from the generator, as soon as one
    position id is not below [n'] (the entity table being 2-D too); and when
    the table has a row and every position id is below [n'], negative ids
    included, lines 49-53 return the position term: a negative id is clamped
    to row 0 before the lookup. *)
Theorem position_id_out_of_range (σ : store) (training : bool) (self : EntityEmbeddings.t)
    (n d n' d' : nat) (entity_ids : list (list Z)) (position_ids : list (list (list Z)))
    (token_type_ids : option (list (list Z))) (g : Generator) :
  shape (σ (Embedding.weight (EntityEmbeddings.entity_embeddings self))) = [n; d] ->
  shape (σ (Embedding.weight (EntityEmbeddings.position_embeddings self))) = [n'; d'] ->
  (forall b m p i, at3 position_ids b m p = Some i -> (Z.of_nat n' <= i)%Z ->
     EntityEmbeddings.forward σ training self entity_ids position_ids token_type_ids g
     = (Raise IndexError, g)) /\
  (0 < n' ->
   (forall b m p i, at3 position_ids b m p = Some i -> (i < Z.of_nat n')%Z) ->
   exists position_embeddings,
     EntityEmbeddings.position_term σ self position_ids = Ok position_embeddings).
Proof.
  intros Hs Hs'. split.
  - intros b m p i Hi Hout.
    unfold EntityEmbeddings.forward, EntityEmbeddings.identity_term.
    destruct (mapM_raises_only _ _ (mapM_raises_only _ _ (embedding_raises_only n d σ _ Hs))
                entity_ids) as [->|[es ->]]; [done|].
    cbn. unfold EntityEmbeddings.combine, EntityEmbeddings.position_term.
    unfold at3 in Hi. destruct (at2 position_ids b m) as [ids|] eqn:Hids; [|done]. cbn in Hi.
    rewrite (mapM2_result_raise _ IndexError position_ids b m ids); [done| |done|].
    + eapply position_average_raises_only, Hs'.
    + unfold EntityEmbeddings.position_average.
      rewrite (mapM_result_raise (F.embedding _) IndexError _ p (clamp_min 0 i));
        [reflexivity| | |].
      * intros a. unfold F.embedding. rewrite Hs'. destruct (_ && _); eauto.
      * rewrite list_lookup_fmap, Hi. done.
      * unfold F.embedding. rewrite Hs'. unfold clamp_min.
        destruct (Z.leb_spec 0 (i `max` 0)); [|done].
        destruct (Z.ltb_spec (i `max` 0) (Z.of_nat n')); [lia|done].
  - intros Hn Hin. unfold EntityEmbeddings.position_term.
    apply mapM_result_returns, Forall_lookup. intros b row Hb.
    apply mapM_result_returns, Forall_lookup. intros m ids Hm.
    unfold EntityEmbeddings.position_average.
    destruct (mapM_result_returns
                (F.embedding (σ (Embedding.weight (EntityEmbeddings.position_embeddings self))))
                (map (clamp_min 0) ids)) as [vs ->]; [|eexists; done].
    apply Forall_fmap, Forall_lookup. intros p i Hp. cbn.
    assert (at3 position_ids b m p = Some i) as Hi
      by (unfold at3, at2; rewrite Hb; cbn; rewrite Hm; cbn; exact Hp).
    apply Hin in Hi. unfold F.embedding. rewrite Hs'. unfold clamp_min.
    destruct (Z.leb_spec 0 (i `max` 0)); [|lia].
    destruct (Z.ltb_spec (i `max` 0) (Z.of_nat n')); [|lia].
    eexists. done.
Qed.

Lemma position_id_out_of_range_witness :
  let self := LukeBaseModel.entity_embeddings (LukeE2EModel.base Example.model) in
  EntityEmbeddings.forward Example.σ false self
    [[1; 2]]%Z [[[0]; [4]]]%Z None Example.generator
  = (Raise IndexError, Example.generator) /\
  exists position_embeddings,
    EntityEmbeddings.position_term Example.σ self [[[-5; 3]; [-1; 0]]]%Z
    = Ok position_embeddings.
Proof.
  intros self. split.
  - apply (proj1 (position_id_out_of_range Example.σ false self 3 2 4 2 [[1; 2]]%Z
                    [[[0]; [4]]]%Z None Example.generator eq_refl eq_refl) 0 1 0 4%Z)%nat.
    + reflexivity.
    + cbn. lia.
  - apply (proj2 (position_id_out_of_range Example.σ false self 3 2 4 2 [[1; 2]]%Z
                    [[[-5; 3]; [-1; 0]]]%Z None Example.generator eq_refl eq_refl)).
    + lia.
    + intros b m p i Hi.
      destruct b as [|[|b]]; [|done|done].
      destruct m as [|[|[|m]]]; [| |done|done];
        (destruct p as [|[|[|p]]]; [| |done|done]); cbn in Hi; injection Hi as <-; lia.
Defined.

Section selector_errors.
Context `{BertForward}.
Local Open Scope R_scope.

(** X7. [EntitySelector.forward] raises [IndexError] as soon as one
    candidate id lies outside the rows of its embedding table, whatever the
    hidden states are: the lookup comes before the transform. *)
Theorem candidate_id_out_of_range (σ : store) (self : EntitySelector.t) (n d : nat)
    (hidden_states : list (list (list R))) (entity_candidate_ids : list (list (list Z)))
    (b m c : nat) (id : Z) :
  shape (σ (Embedding.weight (EntitySelector.embeddings self))) = [n; d] ->
  at3 entity_candidate_ids b m c = Some id -> ¬ (0 <= id < Z.of_nat n)%Z ->
  EntitySelector.forward σ self hidden_states entity_candidate_ids = Raise IndexError.
Proof.
  intros Hs Hid Hout. unfold EntitySelector.forward.
  rewrite (mapM3_result_raise (Embedding.forward σ (EntitySelector.embeddings self))
             IndexError entity_candidate_ids b m c id);
    [reflexivity| |done|].
  - eapply embedding_raises_only, Hs.
  - eapply embedding_out_of_range; eauto.
Qed.

End selector_errors.

Lemma candidate_id_out_of_range_witness :
  EntitySelector.forward (H := Example.bert) Example.σ
    (LukeE2EModel.entity_selector Example.model) [[[1; 2]]]%R [[[1; -1]]]%Z
  = Raise IndexError.
Proof.
  apply (candidate_id_out_of_range (H := Example.bert) Example.σ _ 3 2 _ [[[1; -1]]]%Z
           0 0 1 (-1)%Z).
  - reflexivity.
  - reflexivity.
  - lia.
Defined.

Lemma mapM_result_length {A B} (f : A -> result B) (l : list A) (ys : list B) :
  mapM f l = Ok ys -> length ys = length l.
Proof. intros HF%mapM_result_inv. symmetry. eapply Forall2_length, HF. Qed.

Lemma mapM3_same_shape {A B} (f : A -> result B) (x : list (list (list A)))
    (y : list (list (list B))) :
  mapM (mapM (mapM f)) x = Ok y -> same_shape3 x y.
Proof.
  intros HF%mapM_result_inv. eapply Forall2_impl; [exact HF|].
  intros r1 r2 Hr%mapM_result_inv. eapply Forall2_impl; [exact Hr|].
  intros c1 c2 Hc%mapM_result_length. done.
Qed.

Lemma same_shape3_zip_with_l {A B C D} (g : A -> B -> C)
    (x : list (list (list A))) (y : list (list (list B))) (z : list (list (list D))) :
  same_shape3 z x -> same_shape3 z y ->
  same_shape3 z (zip_with (zip_with (zip_with g)) x y).
Proof.
  unfold same_shape3. intros Hx. revert y.
  induction Hx as [|zr xr z x Hr _ IH]; intros y Hy; inversion Hy as [|? yr ? y' Hr' Hy']; subst;
    [constructor|].
  cbn. constructor; [|apply IH, Hy'].
  clear IH Hy Hy'. revert yr Hr'.
  induction Hr as [|zc xc zr xr Hc _ IH]; intros yr Hr'; inversion Hr' as [|? yc ? yr' Hc' Hr'']; subst;
    [constructor|].
  cbn. constructor; [|apply IH, Hr''].
  rewrite length_zip_with. lia.
Qed.

Section selector_shape.
Context `{BertForward}.
Local Open Scope R_scope.

Lemma selector_forward_same_shape (σ : store) (self : EntitySelector.t)
    (hidden_states : list (list (list R))) (entity_candidate_ids : list (list (list Z)))
    (scores : list (list (list R))) :
  EntitySelector.forward σ self hidden_states entity_candidate_ids = Ok scores ->
  same_shape3 entity_candidate_ids scores.
Proof.
  unfold EntitySelector.forward. intros Hfwd.
  apply result_bind_Ok in Hfwd as (embs & Hembs & Hfwd).
  apply result_bind_Ok in Hfwd as (biases & Hbiases & Hfwd).
  apply result_bind_Ok in Hfwd as (transformed & Htr & Hfwd).
  apply result_bind_Ok in Hfwd as (s1 & Hs1 & Hfwd).
  apply result_bind_Ok in Hfwd as (s2 & Hs2 & Hfwd).
  apply zip_exact_nested_inv in Hs1 as [Hshape1 ->].
  apply zip_exact_nested_inv in Hs2 as [_ ->].
  apply zip_exact_nested_inv in Hfwd as [_ ->].
  apply mapM3_same_shape in Hembs, Hbiases.
  assert (same_shape3 entity_candidate_ids
            (zip_with (zip_with (fun h es => map (dot h) es)) transformed embs)) as H1.
  { unfold same_shape3 in *. clear Hbiases Htr. revert transformed Hshape1.
    induction Hembs as [|ir er ids embs Hr _ IH]; intros transformed Hsh.
    { apply Forall2_nil_inv_r in Hsh as ->. constructor. }
    apply Forall2_cons_inv_r in Hsh as (tr & transformed' & Hl & Hsh & ->).
    cbn. constructor; [|apply IH; done].
    revert tr Hl. clear -Hr.
    induction Hr as [|ic ec ir er Hc _ IH]; intros [|tc tr] Hl; try discriminate; [constructor|].
    cbn. constructor; [rewrite length_map; done|]. apply IH. cbn in Hl. lia. }
  pose proof (same_shape3_zip_with_l Rplus _ _ _ H1 Hbiases) as H2.
  assert (same_shape3 entity_candidate_ids entity_candidate_ids) as Hrefl.
  { apply Forall2_lookup. intros. destruct (_ !! _); constructor.
    apply Forall2_lookup. intros. destruct (_ !! _); constructor. done. }
  exact (same_shape3_zip_with_l
           (fun x id => x + EntitySelector.padding_penalty id) _ _ _ H2 Hrefl).
Qed.

(** X8. For hidden states and candidate ids with the same number of
    examples and of mention slots in each (no axis is broadcast), the scores
    [EntitySelector.forward] returns have the shape of the candidate ids: as
    many examples, and the candidates of a mention slot and the scores of the
    slot correspond one to one. *)
Theorem selector_scores_shape (σ : store) (self : EntitySelector.t)
    (hidden_states : list (list (list R))) (entity_candidate_ids : list (list (list Z)))
    (scores : list (list (list R))) :
  same_shape2 hidden_states entity_candidate_ids ->
  EntitySelector.forward σ self hidden_states entity_candidate_ids = Ok scores ->
  length scores = length entity_candidate_ids /\
  (forall b ids, entity_candidate_ids !! b = Some ids ->
     exists rows, scores !! b = Some rows /\ length rows = length ids) /\
  (forall b m cs, at2 entity_candidate_ids b m = Some cs ->
     exists row, at2 scores b m = Some row /\ length row = length cs) /\
  (forall b m row, at2 scores b m = Some row ->
     exists cs, at2 entity_candidate_ids b m = Some cs /\ length row = length cs).
Proof.
  intros _ Hfwd. pose proof (selector_forward_same_shape _ _ _ _ _ Hfwd) as Hshape.
  unfold same_shape3 in Hshape. split; [|split; [|split]].
  - symmetry. eapply Forall2_length, Hshape.
  - intros b ids Hids.
    destruct (Forall2_lookup_l _ _ _ _ _ Hshape Hids) as (rows & Hrows & Hr).
    exists rows. split; [exact Hrows|]. symmetry. eapply Forall2_length, Hr.
  - intros b m cs Hcs.
    destruct (at2_Forall2 _ _ _ b m cs Hshape Hcs) as (row & Hrow & Hlen). eauto.
  - intros b m row Hrow. unfold at2 in *.
    destruct (scores !! b) as [rows|] eqn:Hrows; [|done]. cbn in Hrow.
    destruct (Forall2_lookup_r _ _ _ _ _ Hshape Hrows) as (ids & -> & Hr). cbn.
    destruct (Forall2_lookup_r _ _ _ _ _ Hr Hrow) as (cs & -> & Hlen). eauto.
Qed.

End selector_shape.

Lemma selector_scores_shape_witness :
  exists scores,
    EntitySelector.forward (H := Example.bert) Example.σ
      (LukeE2EModel.entity_selector Example.model) [[[1; 2]; [3; 4]]]%R [[[1; 0]; [2; 1]]]%Z
      = Ok scores /\
    length scores = 1 /\
    (forall b ids, [[[1; 0]; [2; 1]]]%Z !! b = Some ids ->
       exists rows, scores !! b = Some rows /\ length rows = length ids) /\
    (forall b m cs, at2 [[[1; 0]; [2; 1]]]%Z b m = Some cs ->
       exists row, at2 scores b m = Some row /\ length row = length cs) /\
    (forall b m row, at2 scores b m = Some row ->
       exists cs, at2 [[[1; 0]; [2; 1]]]%Z b m = Some cs /\ length row = length cs).
Proof.
  destruct (EntitySelector.forward (H := Example.bert) Example.σ
              (LukeE2EModel.entity_selector Example.model) [[[1; 2]; [3; 4]]]%R
              [[[1; 0]; [2; 1]]]%Z) as [scores|e] eqn:Hfwd.
  2:{ exfalso. revert Hfwd. run. discriminate. }
  exists scores. split; [reflexivity|].
  apply (selector_scores_shape (H := Example.bert) Example.σ
           (LukeE2EModel.entity_selector Example.model) [[[1; 2]; [3; 4]]]%R
           [[[1; 0]; [2; 1]]]%Z scores).
  - repeat constructor.
  - exact Hfwd.
Defined.

Section probabilities.
Local Open Scope R_scope.



End probabilities.


Section selector_uniform.
Context `{BertForward}.
Local Open Scope R_scope.


End selector_uniform.


Section outputs.
Context `{BertForward}.

Lemma layers_outputs (σ : store) (training : bool) (self : BertEncoder.t)
    (todo : list module) (i : nat) (hidden : seq3) (attention_mask : list (list R))
    (head_mask : list (option tensor)) (hs : list seq3) (ats : list attn4)
    (g g' : Generator) (hidden' : seq3) (hs' : list seq3) (ats' : list attn4) :
  BertEncoder.layers σ training self todo i hidden attention_mask head_mask hs ats g
    = (Ok (hidden', hs', ats'), g') ->
  (exists new, hs' = hs ++ new /\
     length new = (if BertEncoder.output_hidden_states self then length todo else 0) /\
     (todo = [] -> hidden' = hidden) /\
     (BertEncoder.output_hidden_states self = true -> todo ≠ [] -> new !! 0 = Some hidden)) /\
  length ats' = length ats + (if BertEncoder.output_attentions self then length todo else 0).
Proof.
  revert i hidden hs ats g. induction todo as [|m todo IH]; intros i hidden hs ats g Hrun.
  - cbn in Hrun. apply ST_ret_Ok in Hrun as [[= <- <- <-] _].
    split; [|destruct (BertEncoder.output_attentions self); cbn; lia].
    exists []. rewrite app_nil_r.
    destruct (BertEncoder.output_hidden_states self); done.
  - cbn [BertEncoder.layers] in Hrun. st_inv Hrun.
    apply IH in Hrun as ((new & -> & Hlen & _ & Hfirst) & Hats). split.
    + destruct (BertEncoder.output_hidden_states self) eqn:Hohs.
      * exists (hidden :: new). rewrite <- app_assoc. cbn. rewrite Hlen. done.
      * exists new. rewrite Hlen. done.
    + rewrite Hats. destruct (BertEncoder.output_attentions self); cbn; [rewrite length_app|];
        cbn; lia.
Qed.

Lemma encoder_outputs (σ : store) (training : bool) (self : BertEncoder.t)
    (hidden : seq3) (attention_mask : list (list R)) (head_mask : list (option tensor))
    (g g' : Generator) (sequence_output : seq3) (extras : list BertEncoder.output) :
  BertEncoder.forward σ training self hidden attention_mask head_mask g
    = (Ok (sequence_output, extras), g') ->
  exists hs ats,
    extras = (if BertEncoder.output_hidden_states self then [BertEncoder.hidden_states hs] else [])
             ++ (if BertEncoder.output_attentions self then [BertEncoder.attentions ats] else []) /\
    (BertEncoder.output_hidden_states self = true ->
       length hs = S (length (BertEncoder.layer self)) /\
       hs !! 0 = Some hidden /\ last hs = Some sequence_output) /\
    (BertEncoder.output_attentions self = true ->
       length ats = length (BertEncoder.layer self)).
Proof.
  unfold BertEncoder.forward. intros Hrun.
  apply ST_bind_Ok in Hrun as ([[h1 hs1] ats1] & g1 & Hlayers & Hret).
  apply ST_ret_Ok in Hret as [[= <- <-] _].
  apply layers_outputs in Hlayers as ((new & Hnew & Hlen & Hnil & Hfirst) & Hats).
  cbn in Hnew. subst hs1. cbn in Hats.
  exists (new ++ [h1]), ats1. split; [destruct (BertEncoder.output_hidden_states self); done|].
  split.
  - intros Hohs. rewrite Hohs in Hlen. rewrite length_app, Hlen. cbn.
    split; [lia|]. split; [|apply last_snoc].
    destruct (BertEncoder.layer self) as [|m ms] eqn:Hl.
    + destruct new; [|discriminate]. cbn. f_equal. apply Hnil. done.
    + rewrite lookup_app_l by (rewrite Hlen; cbn; lia). apply Hfirst; done.
  - intros Hoa. rewrite Hoa in Hats. exact Hats.
Qed.

(** X11. What [LukeModel.forward] returns when it returns: the word
    part and the entity part of the encoder's last hidden states (together
    they are those states, and each example's row is cut at the number of word
    positions exactly: the word part is its first [word_seq_size] positions,
    the entity part the positions from [word_seq_size] on), the pooler's
    output on the whole sequence, then the tuple of
    all hidden states (one more than there are layers, the last being the
    sequence just described) if the encoder is configured to output them,
    then the tuple of attentions (one per layer) if configured. *)
Theorem luke_model_outputs (σ : store) (training : bool) (self : LukeBaseModel.t)
    (word_ids word_segment_ids word_attention_mask entity_ids : list (list Z))
    (entity_position_ids : list (list (list Z)))
    (entity_segment_ids entity_attention_mask : list (list Z))
    (g g' : Generator) (outs : list value) :
  LukeModel.forward σ training self word_ids word_segment_ids word_attention_mask
    entity_ids entity_position_ids entity_segment_ids entity_attention_mask g = (Ok outs, g') ->
  let encoder := LukeBaseModel.encoder self in
  exists word_sequence_output entity_sequence_output pooled_output hs ats,
    outs = [tensor3 word_sequence_output; tensor3 entity_sequence_output; tensor2 pooled_output]
           ++ (if BertEncoder.output_hidden_states encoder
               then [encoder_output (BertEncoder.hidden_states hs)] else [])
           ++ (if BertEncoder.output_attentions encoder
               then [encoder_output (BertEncoder.attentions ats)] else []) /\
    length word_sequence_output = length entity_sequence_output /\
    word_sequence_output
      = map (take (size1 word_ids)) (zip_with app word_sequence_output entity_sequence_output) /\
    entity_sequence_output
      = map (drop (size1 word_ids)) (zip_with app word_sequence_output entity_sequence_output) /\
    Forall (fun r => length r <= size1 word_ids) word_sequence_output /\
    BertPooler_forward σ (LukeBaseModel.pooler self)
      (zip_with app word_sequence_output entity_sequence_output) = Ok pooled_output /\
    (BertEncoder.output_hidden_states encoder = true ->
       length hs = S (length (BertEncoder.layer encoder)) /\
       last hs = Some (zip_with app word_sequence_output entity_sequence_output)) /\
    (BertEncoder.output_attentions encoder = true ->
       length ats = length (BertEncoder.layer encoder)).
Proof.
  intros Hrun encoder. unfold LukeModel.forward in Hrun. st_inv Hrun.
  destruct a3 as [sequence_output extras]. cbn [fst snd] in *.
  apply lift_Ok in Hrun5 as [Hpool _].
  apply encoder_outputs in Hrun4 as (hs & ats & -> & Hhs & Hats).
  assert (zip_with app (map (take (size1 word_ids)) sequence_output)
            (map (drop (size1 word_ids)) sequence_output) = sequence_output) as Hsplit.
  { clear. induction sequence_output as [|r rs IH]; [done|]. cbn.
    rewrite take_drop, IH. done. }
  exists (map (take (size1 word_ids)) sequence_output),
         (map (drop (size1 word_ids)) sequence_output), a4, hs, ats.
  rewrite Hsplit. subst outs. fold encoder in Hhs, Hats |- *.
  split; [|split; [|split; [|split; [|split; [|split; [|split]]]]]].
  - rewrite map_app. destruct (BertEncoder.output_hidden_states encoder),
      (BertEncoder.output_attentions encoder); done.
  - rewrite !length_map. done.
  - reflexivity.
  - reflexivity.
  - apply Forall_map, Forall_forall. intros r _. cbn. rewrite length_take. lia.
  - exact Hpool.
  - intros Hohs. destruct (Hhs Hohs) as (? & _ & ?). done.
  - exact Hats.
Qed.

End outputs.

Lemma luke_model_outputs_witness :
  let base := LukeE2EModel.base Example.model in
  exists outs g' word_sequence_output entity_sequence_output pooled_output,
    LukeModel.forward (H := Example.bert) Example.σ false base Example.word_ids
      Example.word_segment_ids Example.word_attention_mask [[1]]%Z
      Example.entity_position_ids Example.entity_segment_ids Example.entity_attention_mask
      Example.generator = (Ok outs, g') /\
    outs = [tensor3 word_sequence_output; tensor3 entity_sequence_output;
            tensor2 pooled_output] /\
    length word_sequence_output = length entity_sequence_output /\
    word_sequence_output
      = map (take 1) (zip_with app word_sequence_output entity_sequence_output) /\
    entity_sequence_output
      = map (drop 1) (zip_with app word_sequence_output entity_sequence_output) /\
    Forall (fun r => length r <= 1) word_sequence_output /\
    BertPooler_forward (BertForward := Example.bert) Example.σ (LukeBaseModel.pooler base)
      (zip_with app word_sequence_output entity_sequence_output) = Ok pooled_output.
Proof.
  intros base.
  destruct (LukeModel.forward (H := Example.bert) Example.σ false base Example.word_ids
              Example.word_segment_ids Example.word_attention_mask [[1]]%Z
              Example.entity_position_ids Example.entity_segment_ids
              Example.entity_attention_mask Example.generator) as [[outs|e] g'] eqn:Hfwd.
  2:{ exfalso. revert Hfwd. run. discriminate. }
  destruct (luke_model_outputs (H := Example.bert) _ _ _ _ _ _ _ _ _ _ _ _ _ Hfwd)
    as (w & e & p & hs & ats & Houts & Hlen & Hword & Hentity & Hw & Hpool & _).
  exists outs, g', w, e, p. split; [reflexivity|].
  split; [exact Houts|]. split; [exact Hlen|]. split; [exact Hword|].
  split; [exact Hentity|]. split; [exact Hw | exact Hpool].
Defined.

Section e2e_outputs.
Context `{BertForward}.

(** X12. [output_entity_selector_scores] only adds an element: without
    it [LukeE2EModel.forward] raises what it raises with it, leaves the
    generator as it leaves it with it, and returns the same tuple without the
    element at index 3. *)
Theorem selector_scores_flag (σ : store) (training : bool) (self : LukeE2EModel.t)
    (word_ids word_segment_ids word_attention_mask : list (list Z))
    (entity_candidate_ids : list (list (list Z))) (entity_position_ids : list (list (list Z)))
    (entity_segment_ids entity_attention_mask : list (list Z))
    (masked_entity_labels : option (list (list Z))) (g : Generator) :
  LukeE2EModel.forward σ training self word_ids word_segment_ids word_attention_mask
    entity_candidate_ids entity_position_ids entity_segment_ids entity_attention_mask
    masked_entity_labels false g
  = match
      LukeE2EModel.forward σ training self word_ids word_segment_ids word_attention_mask
        entity_candidate_ids entity_position_ids entity_segment_ids entity_attention_mask
        masked_entity_labels true g
    with
    | (Ok outs, g') => (Ok (delete 3%nat outs), g')
    | (Raise e, g') => (Raise e, g')
    end.
Proof.
  unfold LukeE2EModel.forward, mbind, ST_bind.
  repeat match goal with
         | |- context [match ?m ?s with (r, s') => _ end] =>
             destruct (m s) as [[?|?] ?]; try reflexivity
         end.
Qed.

End e2e_outputs.

Lemma writes_within_refl ls st : writes_within ls st st.
Proof. split; done. Qed.

Lemma writes_within_trans ls st1 st2 st3 :
  writes_within ls st1 st2 -> writes_within ls st2 st3 -> writes_within ls st1 st3.
Proof.
  intros [Hs1 Hf1] [Hs2 Hf2]. split; intros l.
  - rewrite Hs2. apply Hs1.
  - intros Hl. rewrite Hf2, Hf1; done.
Qed.

Lemma writes_within_mono ls ls' st st' :
  ls ⊆ ls' -> writes_within ls st st' -> writes_within ls' st st'.
Proof. intros Hsub [Hs Hf]. split; [exact Hs|]. intros l Hl. apply Hf. intros Hin. apply Hl, Hsub, Hin. Qed.

Lemma load_param_writes state_dict prefix name param st r st' :
  nnModule.load_param state_dict prefix (name, param) st = (r, st') ->
  writes_within [param] st st'.
Proof.
  unfold nnModule.load_param, mbind, ST_bind, get, modify, lift, mret, ST_ret.
  destruct (assoc (prefix +:+ name) state_dict) as [t|].
  2:{ intros [= _ <-]. split; done. }
  assert (forall t' st0, shape t' = shape (nnModule.params st param) ->
            writes_within [param] st
              (nnModule.mkLoad (<[param := t']> (nnModule.params st)) (nnModule.missing_keys st0)
                 (nnModule.unexpected_keys st0) (nnModule.error_msgs st0))) as Hw.
  { intros t' st0 Ht'. split; intros l; cbn.
    - destruct (decide (param = l)) as [->|Hne];
        [rewrite fn_lookup_insert | rewrite fn_lookup_insert_ne by done]; done.
    - intros Hl. rewrite fn_lookup_insert_ne; [done|]. intros ->. apply Hl. constructor. }
  destruct (shape (nnModule.params st param)) as [|n s] eqn:Hshape.
  - destruct (shape t) as [|k [|? ?]] eqn:Ht.
    + unfold nnModule.shape_eqb. rewrite Ht. cbn. intros [= _ <-]. apply Hw. done.
    + destruct (data t) as [|x xs]; [intros [= _ <-]; apply writes_within_refl|].
      cbn. intros [= _ <-]. apply Hw. done.
    + unfold nnModule.shape_eqb. rewrite Ht.
      rewrite bool_decide_eq_false_2 by done. intros [= _ <-]. split; done.
  - replace (match shape t with
             | [] | _ => (Ok t, st)
             end) with (@Ok tensor t, st) by (destruct (shape t) as [|? [|? ?]]; done).
    unfold nnModule.shape_eqb. case_bool_decide as Heq; intros [= _ <-].
    + apply Hw. done.
    + split; done.
Qed.

Lemma ST_bind_inv {S A B} (m : ST S A) (f : A -> ST S B) (s s' : S) (r : result B) :
  (m ≫= f) s = (r, s') ->
  (exists e, m s = (Raise e, s') /\ r = Raise e) \/
  (exists a s1, m s = (Ok a, s1) /\ f a s1 = (r, s')).
Proof.
  unfold mbind, ST_bind. destruct (m s) as [[a|e] s1]; [eauto|].
  intros [= <- <-]. eauto.
Qed.

Lemma for_each_load_param_writes state_dict prefix ps st r st' :
  nnModule.for_each (nnModule.load_param state_dict prefix) ps st = (r, st') ->
  writes_within ps.*2 st st'.
Proof.
  revert st. induction ps as [|[name param] ps IH]; intros st Hrun.
  - injection Hrun as _ <-. apply writes_within_refl.
  - cbn [nnModule.for_each] in Hrun.
    apply ST_bind_inv in Hrun as [(e & Hrun & _)|(a & st1 & Hrun & Hrest)];
      apply load_param_writes in Hrun.
    + eapply writes_within_mono; [|exact Hrun]. intros l Hl. cbn.
      apply list_elem_of_singleton in Hl as ->. constructor.
    + eapply writes_within_trans.
      * eapply writes_within_mono; [|exact Hrun]. intros l Hl. cbn.
        apply list_elem_of_singleton in Hl as ->. constructor.
      * eapply writes_within_mono; [|apply IH, Hrest]. intros l Hl. cbn. constructor. exact Hl.
Qed.

Lemma for_each_check_key_params m prefix keys st r st' :
  nnModule.for_each (nnModule.check_key m prefix) keys st = (r, st') ->
  nnModule.params st' = nnModule.params st.
Proof.
  revert st. induction keys as [|k keys IH]; intros st Hrun.
  - injection Hrun as _ <-. done.
  - cbn [nnModule.for_each] in Hrun.
    assert (forall r1 st1, nnModule.check_key m prefix k st = (r1, st1) ->
              nnModule.params st1 = nnModule.params st) as Hk.
    { unfold nnModule.check_key. intros r1 st1.
      destruct (String.prefix prefix k); [destruct (_ || _)|]; intros [= _ <-]; done. }
    apply ST_bind_inv in Hrun as [(e & Hrun & _)|(a & st1 & Hrun & Hrest)].
    + eapply Hk, Hrun.
    + rewrite (IH _ Hrest). eapply Hk, Hrun.
Qed.

Lemma load_from_state_dict_writes m state_dict prefix st r st' :
  nnModule._load_from_state_dict m state_dict prefix st = (r, st') ->
  writes_within (_parameters m).*2 st st'.
Proof.
  unfold nnModule._load_from_state_dict. intros Hrun.
  apply ST_bind_inv in Hrun as [(e & Hrun & _)|(a & st1 & Hrun & Hrest)].
  - eapply for_each_load_param_writes, Hrun.
  - apply for_each_load_param_writes in Hrun as [Hs Hf].
    apply for_each_check_key_params in Hrest.
    split; intros l; rewrite Hrest; auto.
Qed.

Lemma load_writes state_dict m :
  forall prefix st r st',
    LukeBaseModel.load state_dict m prefix st = (r, st') ->
    writes_within (nnModule.parameter_keys prefix m).*2 st st'.
Proof.
  induction m as [c ps ms IH] using module_induction. intros prefix st r st' Hrun.
  cbn [LukeBaseModel.load nnModule.parameter_keys] in *.
  rewrite fmap_app.
  apply ST_bind_inv in Hrun as [(e & Hrun & _)|(a & st1 & Hrun & Hrest)];
    apply load_from_state_dict_writes in Hrun; cbn [_parameters] in Hrun.
  { eapply writes_within_mono; [|exact Hrun]. intros l Hl. apply elem_of_app. left.
    rewrite <- list_fmap_compose. exact Hl. }
  eapply writes_within_trans.
  { eapply writes_within_mono; [|exact Hrun]. intros l Hl. apply elem_of_app. left.
    rewrite <- list_fmap_compose. exact Hl. }
  eapply writes_within_mono; [intros l Hl; apply elem_of_app; right; exact Hl|].
  clear Hrun. revert st1 Hrest.
  induction ms as [|[name child] ms IHms]; intros st1 Hrest.
  - injection Hrest as _ <-. apply writes_within_refl.
  - apply Forall_cons in IH as [IHchild IHrest]. cbn in IHchild.
    rewrite fmap_app.
    apply ST_bind_inv in Hrest as [(e & Hrun & _)|(a' & st2 & Hrun & Hrest)];
      apply IHchild in Hrun.
    + eapply writes_within_mono; [|exact Hrun]. intros l Hl. apply elem_of_app. left. exact Hl.
    + eapply writes_within_trans.
      * eapply writes_within_mono; [|exact Hrun]. intros l Hl. apply elem_of_app. left. exact Hl.
      * eapply writes_within_mono; [|apply (IHms IHrest), Hrest].
        intros l Hl. apply elem_of_app. right. exact Hl.
Qed.

(** X13. Whatever [load_bert_weights] does (return, [RuntimeError],
    [KeyError]), every tensor of the store keeps its shape, the locations
    that are not parameters of the model keep their tensors, and the log
    grows by at most one record. *)
Theorem load_bert_weights_frame (self : module) (state_dict : Dict.t tensor)
    (σ σ' : store) (log log' : list log_record) (r : result unit) :
  LukeBaseModel.load_bert_weights self state_dict (σ, log) = (r, (σ', log')) ->
  (forall l, shape (σ' l) = shape (σ l)) /\
  (forall l, l ∉ param_locs self -> σ' l = σ l) /\
  (exists records, log' = log ++ records /\ length records <= 1).
Proof.
  unfold LukeBaseModel.load_bert_weights.
  destruct (LukeBaseModel.rename_keys state_dict) as [state_dict'|e].
  2:{ intros [= _ <- <-]. split; [done|]. split; [done|]. exists []. rewrite app_nil_r. split; [done|cbn; lia]. }
  destruct (LukeBaseModel.load state_dict' self "" (nnModule.mkLoad σ [] [] []))
    as [r0 st] eqn:Hload.
  apply load_writes in Hload as [Hs Hf]. cbn in Hs, Hf.
  destruct r0 as [[]|e].
  2:{ intros [= _ <- <-]. split; [done|]. split; [done|]. exists []. rewrite app_nil_r. split; [done|cbn; lia]. }
  assert (exists records,
            (if (0 <? length (nnModule.unexpected_keys st))%nat
             then log ++ [mkLog INFO (weights_not_used (class_name self)
                                        (Str.sorted (nnModule.unexpected_keys st)))]
             else log) = log ++ records /\ length records <= 1) as Hlog.
  { destruct (0 <? _)%nat; [eexists; split; [done|]; cbn; lia|].
    exists []. rewrite app_nil_r. cbn. split; [done|lia]. }
  destruct (0 <? length (nnModule.error_msgs st))%nat; intros [= _ <- <-]; done.
Qed.

Lemma load_bert_weights_frame_witness :
  let self := LukeE2EModel.registry Example.model in
  exists r σ' log',
    LukeBaseModel.load_bert_weights self Example.checkpoint (Example.σ, []) = (r, (σ', log')) /\
    (forall l, shape (σ' l) = shape (Example.σ l)) /\
    (forall l, l ∉ param_locs self -> σ' l = Example.σ l) /\
    (exists records, log' = [] ++ records /\ length records <= 1).
Proof.
  intros self.
  destruct (LukeBaseModel.load_bert_weights self Example.checkpoint (Example.σ, []))
    as [r [σ' log']] eqn:Hload.
  exists r, σ', log'. split; [reflexivity|].
  exact (load_bert_weights_frame _ _ _ _ _ _ _ Hload).
Defined.

Section loaded.
Variables (σ : store) (state_dict : Dict.t tensor) (l : loc) (t : tensor).
Hypothesis shape_t : shape t = shape (σ l).

Lemma load_step_at st key param :
  (forall l', shape (nnModule.params st l') = shape (σ l')) ->
  (param = l -> assoc key state_dict = Some t \/ not_loaded σ state_dict (key, l)) ->
  let st' := load_step state_dict st (key, param) in
  (nnModule.params st' l = t \/ nnModule.params st' l = nnModule.params st l) /\
  (param = l -> assoc key state_dict = Some t -> nnModule.params st' l = t).
Proof.
  intros Hs Hk. cbn. unfold load_step.
  destruct (decide (param = l)) as [->|Hne].
  - destruct (Hk eq_refl) as [Hload|Hnl].
    + rewrite Hload. unfold nnModule.shape_eqb. rewrite Hs.
      rewrite bool_decide_eq_true_2 by exact shape_t. cbn. rewrite fn_lookup_insert. auto.
    + unfold not_loaded in Hnl. cbn in Hnl.
      destruct (assoc key state_dict) as [t'|] eqn:Ht'; cbn; [|split; [auto|done]].
      unfold nnModule.shape_eqb. rewrite Hs. rewrite bool_decide_eq_false_2 by done. cbn.
      split; [auto|]. intros _ [= ->]. done.
  - split; [right|done].
    destruct (assoc key state_dict) as [t'|]; [|done].
    destruct (nnModule.shape_eqb _ _); [|done]. cbn. apply fn_lookup_insert_ne. done.
Qed.

Lemma foldl_load_step_at entries st :
  (forall l', shape (nnModule.params st l') = shape (σ l')) ->
  (forall key, (key, l) ∈ entries ->
     assoc key state_dict = Some t \/ not_loaded σ state_dict (key, l)) ->
  let st' := foldl (load_step state_dict) st entries in
  (nnModule.params st' l = t \/ nnModule.params st' l = nnModule.params st l) /\
  (forall key, (key, l) ∈ entries -> assoc key state_dict = Some t -> nnModule.params st' l = t).
Proof.
  revert st. induction entries as [|[key param] entries IH]; intros st Hs Hk; cbn.
  { split; [auto|]. intros key Hin. apply elem_of_nil in Hin. done. }
  destruct (load_step_at st key param Hs) as [Hweak Hstrong].
  { intros ->. apply Hk. constructor. }
  destruct (IH (load_step state_dict st (key, param))) as [IHweak IHstrong].
  { intros l'. rewrite load_step_shape. apply Hs. }
  { intros k Hin. apply Hk. apply list_elem_of_further, Hin. }
  cbn in *. split.
  - destruct IHweak as [->| ->]; auto.
  - intros k Hin Hload. apply elem_of_cons in Hin as [[= -> ->]|Hin].
    + destruct IHweak as [->| ->]; auto.
    + eapply IHstrong; eauto.
Qed.

End loaded.

(** X14. A parameter whose key is in the renamed state dict with a
    tensor of the parameter's shape holds that tensor after
    [load_bert_weights], whether the call returns or raises for other keys
    (when the parameter has several keys, the others must be absent,
    mismatched or hold the same tensor). *)
Theorem load_bert_weights_copies (self : module) (state_dict state_dict' : Dict.t tensor)
    (σ σ' : store) (log log' : list log_record) (r : result unit)
    (key : string) (l : loc) (t : tensor) :
  let keys := nnModule.parameter_keys "" self in
  LukeBaseModel.rename_keys state_dict = Ok state_dict' ->
  no_scalar σ keys ->
  (key, l) ∈ keys -> assoc key state_dict' = Some t -> shape t = shape (σ l) ->
  (forall key', (key', l) ∈ keys ->
     assoc key' state_dict' = Some t \/ not_loaded σ state_dict' (key', l)) ->
  LukeBaseModel.load_bert_weights self state_dict (σ, log) = (r, (σ', log')) ->
  σ' l = t.
Proof.
  intros keys Hrename Hns Hin Hkey Hshape Hall.
  destruct (load_steps state_dict' self "" (nnModule.mkLoad σ [] [] []) Hns)
    as (u & Hload & Hu).
  fold keys in Hload.
  unfold LukeBaseModel.load_bert_weights. rewrite Hrename, Hload.
  destruct (foldl_load_step_at σ state_dict' l t Hshape keys (nnModule.mkLoad σ [] [] []))
    as [_ Hcopied]; [done|exact Hall|].
  specialize (Hcopied key Hin Hkey). cbn in Hcopied |- *.
  repeat match goal with |- context [if ?b then _ else _] => destruct b end;
    intros [= _ <- _]; exact Hcopied.
Qed.

Lemma load_bert_weights_copies_witness :
  let self := LukeE2EModel.registry Example.model in
  exists r σ' log',
    LukeBaseModel.load_bert_weights self Example.plain_checkpoint (Example.σ, [])
      = (r, (σ', log')) /\
    σ' 21 = Tensor [2] [3; 4]%R.
Proof.
  intros self.
  destruct (LukeBaseModel.load_bert_weights self Example.plain_checkpoint (Example.σ, []))
    as [r [σ' log']] eqn:Hload.
  exists r, σ', log'. split; [reflexivity|].
  apply (load_bert_weights_copies self Example.plain_checkpoint Example.plain_renamed
           Example.σ σ' [] log' r "embeddings.LayerNorm.weight" 21 (Tensor [2] [3; 4]%R)).
  - reflexivity.
  - exact example_no_scalar.
  - apply list_elem_of_In. run. tauto.
  - reflexivity.
  - reflexivity.
  - intros key' Hin. apply list_elem_of_In in Hin. revert Hin. run. intros Hin.
    repeat (destruct Hin as [Hin|Hin]; [try discriminate Hin|]); [|destruct Hin].
    injection Hin as <-. left. reflexivity.
  - exact Hload.
Defined.

Lemma rename_keys_stable (d : Dict.t tensor) :
  Forall (fun k => LukeBaseModel.new_key k = k) (Dict.keys d) ->
  LukeBaseModel.rename_keys d = Ok d.
Proof.
  unfold LukeBaseModel.rename_keys. generalize (Dict.keys d). intros ks.
  induction 1 as [|k ks Hk _ IH]; [done|].
  cbn [foldl]. cbn [mbind result_bind]. unfold LukeBaseModel.rename at 2.
  rewrite Hk, String.eqb_refl. exact IH.
Qed.

Lemma assoc_NoDup {V} (d : list (string * V)) (k : string) (v : V) :
  NoDup d.*1 -> (k, v) ∈ d -> assoc k d = Some v.
Proof.
  induction d as [|[k0 v0] d IH]; intros Hnd Hin; [apply elem_of_nil in Hin; done|].
  cbn in Hnd. apply NoDup_cons in Hnd as [Hk0 Hnd]. cbn.
  apply elem_of_cons in Hin as [[= -> ->]|Hin].
  - rewrite String.eqb_refl. done.
  - destruct (String.eqb_spec k k0) as [->|Hne]; [|apply IH; done].
    exfalso. apply Hk0. apply list_elem_of_fmap. exists (k0, v). done.
Qed.

Lemma omap_all_None {A B} (f : A -> option B) (l : list A) :
  Forall (fun x => f x = None) l -> omap f l = [].
Proof. induction 1 as [|x l Hx _ IH]; [done|]. cbn. rewrite Hx. exact IH. Qed.

(** X15. Round trip: loading the state dict of a model into a store
    where the parameters have the same shapes returns normally and leaves
    every parameter with the tensor of the state dict (for parameter keys that
    are distinct and that the renaming leaves alone). *)
Theorem load_own_state_dict (m : module) (σ σ1 : store) (log : list log_record) :
  let keys := nnModule.parameter_keys "" m in
  NoDup keys.*1 ->
  Forall (fun k => LukeBaseModel.new_key k = k) keys.*1 ->
  no_scalar σ keys ->
  Forall (fun p => shape (σ1 p.2) = shape (σ p.2)) keys ->
  exists σ' log',
    LukeBaseModel.load_bert_weights m (nnModule.state_dict σ1 m) (σ, log) = (Ok tt, (σ', log')) /\
    Forall (fun p => σ' p.2 = σ1 p.2) keys.
Proof.
  intros keys Hnd Hstable Hns Hshape.
  assert (forall key l, (key, l) ∈ keys -> assoc key (nnModule.state_dict σ1 m) = Some (σ1 l)) as Hassoc.
  { intros key l Hin. apply assoc_NoDup.
    - unfold nnModule.state_dict. rewrite <- list_fmap_compose. exact Hnd.
    - unfold nnModule.state_dict. apply list_elem_of_fmap. exists (key, l). done. }
  assert (LukeBaseModel.rename_keys (nnModule.state_dict σ1 m) = Ok (nnModule.state_dict σ1 m)) as Hrename.
  { apply rename_keys_stable. unfold Dict.keys, nnModule.state_dict.
    rewrite <- list_fmap_compose. exact Hstable. }
  destruct (load_steps (nnModule.state_dict σ1 m) m "" (nnModule.mkLoad σ [] [] []) Hns)
    as (u & Hload & Hu).
  fold keys in Hload.
  set (st := foldl (load_step (nnModule.state_dict σ1 m)) (nnModule.mkLoad σ [] [] []) keys) in *.
  assert (nnModule.error_msgs st = []) as Herr.
  { subst st. rewrite (foldl_load_step_errors σ) by done. cbn.
    apply omap_all_None.
    { apply Forall_forall. intros [key l] Hin. unfold mismatch. cbn.
      rewrite (Hassoc key l Hin). cbn. unfold nnModule.shape_eqb.
      rewrite Forall_forall in Hshape.
      rewrite bool_decide_eq_true_2 by (apply (Hshape (key, l) Hin)). done. } }
  exists (nnModule.params st). eexists. split.
  - unfold LukeBaseModel.load_bert_weights. rewrite Hrename, Hload.
    cbn [nnModule.params nnModule.unexpected_keys nnModule.error_msgs add_unexpected].
    rewrite Herr. cbn. reflexivity.
  - apply Forall_forall. intros [key l] Hin. cbn.
    assert (shape (σ1 l) = shape (σ l)) as Hsl.
    { rewrite Forall_forall in Hshape. apply (Hshape (key, l) Hin). }
    destruct (foldl_load_step_at σ (nnModule.state_dict σ1 m) l (σ1 l) Hsl keys
                (nnModule.mkLoad σ [] [] [])) as [_ Hcopied]; [done| |].
    + intros key' Hin'. left. apply Hassoc, Hin'.
    + eapply Hcopied; eauto.
Qed.

Lemma load_own_state_dict_witness :
  let m := LukeE2EModel.registry Example.model in
  let σ1 : store := fun l => Tensor (shape (Example.σ l)) (map (fun _ => 7%R) (data (Example.σ l))) in
  exists σ' log',
    LukeBaseModel.load_bert_weights m (nnModule.state_dict σ1 m) (Example.σ, []) = (Ok tt, (σ', log')) /\
    Forall (fun p => σ' p.2 = σ1 p.2) (nnModule.parameter_keys "" m).
Proof.
  intros m σ1. apply (load_own_state_dict m Example.σ σ1 []).
  - apply (bool_decide_unpack _). vm_compute. exact I.
  - apply (bool_decide_unpack _). vm_compute. exact I.
  - exact example_no_scalar.
  - apply Forall_forall. intros p _. reflexivity.
Defined.

(** ** The renaming loop *)

Lemma assoc_None_keys {V} (k : string) (d : Dict.t V) :
  assoc k d = None <-> k ∉ Dict.keys d.
Proof.
  unfold Dict.keys. induction d as [|[k0 v0] d IH]; cbn.
  - split; [intros _ Hin; apply elem_of_nil in Hin; done|done].
  - destruct (String.eqb_spec k k0) as [->|Hne].
    + split; [done|]. intros Hn. exfalso. apply Hn. constructor.
    + rewrite IH. split; intros Hn Hin; apply Hn.
      * apply elem_of_cons in Hin as [?|?]; done.
      * apply list_elem_of_further, Hin.
Qed.

Lemma keys_setitem {V} (k : string) (v : V) (d : Dict.t V) :
  Dict.keys (Dict.setitem k v d)
  = if Dict.contains k d then Dict.keys d else Dict.keys d ++ [k].
Proof.
  unfold Dict.keys, Dict.contains. induction d as [|[k0 v0] d IH]; cbn; [done|].
  destruct (String.eqb_spec k k0) as [->|Hne]; cbn; [done|].
  rewrite IH. destruct (assoc k d); done.
Qed.

Lemma NoDup_setitem {V} (k : string) (v : V) (d : Dict.t V) :
  NoDup (Dict.keys d) -> NoDup (Dict.keys (Dict.setitem k v d)).
Proof.
  intros Hnd. rewrite keys_setitem. unfold Dict.contains.
  destruct (assoc k d) eqn:Hk; [done|].
  apply NoDup_app. split; [done|]. split; [|apply NoDup_singleton].
  intros x Hx ->%list_elem_of_singleton. apply assoc_None_keys in Hk. done.
Qed.

Lemma keys_delitem_subseteq {V} (k : string) (d : Dict.t V) :
  Dict.keys (Dict.delitem k d) ⊆ Dict.keys d.
Proof.
  unfold Dict.keys. induction d as [|[k0 v0] d IH]; cbn; [done|].
  destruct (String.eqb k k0); cbn.
  - intros x Hx. apply list_elem_of_further, Hx.
  - intros x Hx. apply elem_of_cons in Hx as [->|Hx]; [constructor|].
    apply list_elem_of_further, IH, Hx.
Qed.

Lemma NoDup_delitem {V} (k : string) (d : Dict.t V) :
  NoDup (Dict.keys d) ->
  NoDup (Dict.keys (Dict.delitem k d)) /\ k ∉ Dict.keys (Dict.delitem k d).
Proof.
  unfold Dict.keys. induction d as [|[k0 v0] d IH]; cbn.
  - intros _. split; [constructor|]. intros Hin. apply elem_of_nil in Hin. done.
  - intros [Hk0 Hnd]%NoDup_cons. destruct (String.eqb_spec k k0) as [->|Hne]; cbn.
    + done.
    + destruct (IH Hnd) as [IH1 IH2]. split.
      * apply NoDup_cons. split; [|done]. intros Hin. apply Hk0.
        apply (keys_delitem_subseteq k d), Hin.
      * intros Hin. apply elem_of_cons in Hin as [?|?]; done.
Qed.

Section rename.
Variable state_dict : Dict.t tensor.
Hypothesis keys_NoDup : NoDup (Dict.keys state_dict).
Hypothesis keys_no_clash : no_clash (Dict.keys state_dict).

Lemma rename_step processed k todo d :
  Dict.keys state_dict = processed ++ k :: todo ->
  renamed_so_far state_dict processed (k :: todo) d ->
  exists d', LukeBaseModel.rename d k = Ok d' /\ renamed_so_far state_dict (processed ++ [k]) todo d'.
Proof.
  intros Hkeys (Hnd & Hdone & Htodo & Hdom).
  assert (k ∈ Dict.keys state_dict) as Hk by (rewrite Hkeys, elem_of_app; right; constructor).
  assert (forall k', k' ∈ processed -> k' ∈ Dict.keys state_dict /\ k' ≠ k) as Hproc.
  { intros k' Hin. split; [rewrite Hkeys, elem_of_app; auto|]. intros ->.
    rewrite Hkeys in keys_NoDup. apply NoDup_app in keys_NoDup as (_ & Hdisj & _).
    apply (Hdisj k Hin). constructor. }
  assert (forall k', k' ∈ todo -> k' ∈ Dict.keys state_dict /\ k' ≠ k) as Htd.
  { intros k' Hin. split; [rewrite Hkeys, elem_of_app; right; apply list_elem_of_further, Hin|].
    intros ->. rewrite Hkeys in keys_NoDup. apply NoDup_app in keys_NoDup as (_ & _ & Hnd').
    apply NoDup_cons in Hnd' as [Hn _]. done. }
  unfold LukeBaseModel.rename.
  destruct (String.eqb_spec k (LukeBaseModel.new_key k)) as [Heq|Hne].
  - exists d. split; [done|]. split; [exact Hnd|]. split; [|split].
    + intros k' [Hin| ->%list_elem_of_singleton]%elem_of_app; [apply Hdone, Hin|].
      rewrite <- Heq. apply Htodo. constructor.
    + intros k' Hin. apply Htodo, list_elem_of_further, Hin.
    + intros q Hq. destruct (Hdom q Hq) as [Hin|Hin].
      * left. rewrite map_app. apply elem_of_app. auto.
      * apply elem_of_cons in Hin as [->|Hin]; [|auto].
        left. rewrite map_app. apply elem_of_app. right. cbn. rewrite <- Heq. constructor.
  - destruct (assoc k d) as [v|] eqn:Hv.
    2:{ exfalso. rewrite Htodo in Hv by constructor.
        apply assoc_None_keys in Hv. done. }
    eexists. split; [reflexivity|].
    destruct (NoDup_delitem k (Dict.setitem (LukeBaseModel.new_key k) v d)) as [Hnd' Hgone].
    { apply NoDup_setitem, Hnd. }
    split; [exact Hnd'|]. split; [|split].
    + intros k' [Hin| ->%list_elem_of_singleton]%elem_of_app.
      * destruct (Hproc k' Hin) as [Hin' Hne'].
        destruct (keys_no_clash k' k Hin' Hk Hne') as [Hc1 Hc2].
        rewrite assoc_delitem_ne by done. rewrite assoc_setitem.
        destruct (String.eqb_spec (LukeBaseModel.new_key k') (LukeBaseModel.new_key k));
          [done|]. apply Hdone, Hin.
      * rewrite assoc_delitem_ne by done. rewrite assoc_setitem, String.eqb_refl.
        rewrite <- Hv. apply Htodo. constructor.
    + intros k' Hin. destruct (Htd k' Hin) as [Hin' Hne'].
      rewrite assoc_delitem_ne by done. rewrite assoc_setitem.
      assert (k ≠ k') as Hne'' by done.
      destruct (keys_no_clash k k' Hk Hin' Hne'') as [Hc1 Hc2].
      destruct (String.eqb_spec k' (LukeBaseModel.new_key k)); [done|].
      apply Htodo, list_elem_of_further, Hin.
    + intros q Hq.
      assert (q ≠ k) as Hqk by (intros ->; done).
      apply keys_delitem_subseteq in Hq. rewrite keys_setitem in Hq.
      assert (q ∈ Dict.keys d \/ q = LukeBaseModel.new_key k) as [Hq'| ->].
      { destruct (Dict.contains _ d); [auto|].
        apply elem_of_app in Hq as [?| ->%list_elem_of_singleton]; auto. }
      * destruct (Hdom q Hq') as [Hin|Hin].
        -- left. rewrite map_app. apply elem_of_app. auto.
        -- apply elem_of_cons in Hin as [->|Hin]; [done|auto].
      * left. rewrite map_app. apply elem_of_app. right. constructor.
Qed.

Lemma rename_loop todo : forall processed d,
  Dict.keys state_dict = processed ++ todo ->
  renamed_so_far state_dict processed todo d ->
  exists d', foldl (fun d key => d ← d; LukeBaseModel.rename d key) (Ok d) todo = Ok d' /\
             renamed_so_far state_dict (processed ++ todo) [] d'.
Proof.
  induction todo as [|k todo IH]; intros processed d Hkeys Hinv.
  - exists d. rewrite app_nil_r. done.
  - destruct (rename_step processed k todo d Hkeys Hinv) as (d1 & Hstep & Hinv1).
    cbn [foldl]. cbn [mbind result_bind]. rewrite Hstep.
    destruct (IH (processed ++ [k]) d1) as (d' & Hfold & Hinv').
    { rewrite <- app_assoc. exact Hkeys. }
    { exact Hinv1. }
    exists d'. rewrite <- app_assoc in Hinv'. done.
Qed.

End rename.

(** X16. The renaming loop on a dict where no new key clashes with
    another key, old or new: it does not fail, the keys of the result are
    distinct, every entry is found under its new key with its tensor, and the
    result holds nothing else. *)
Theorem rename_keys_entries (state_dict : Dict.t tensor) :
  NoDup (Dict.keys state_dict) -> no_clash (Dict.keys state_dict) ->
  exists state_dict',
    LukeBaseModel.rename_keys state_dict = Ok state_dict' /\
    NoDup (Dict.keys state_dict') /\
    (forall k v, assoc k state_dict = Some v ->
       assoc (LukeBaseModel.new_key k) state_dict' = Some v) /\
    (forall k' v, assoc k' state_dict' = Some v ->
       exists k, LukeBaseModel.new_key k = k' /\ assoc k state_dict = Some v).
Proof.
  intros Hnd Hclash.
  destruct (rename_loop state_dict Hnd Hclash (Dict.keys state_dict) [] state_dict)
    as (d' & Hfold & Hnd' & Hdone & _ & Hdom).
  { done. }
  { split; [exact Hnd|]. split; [|split].
    - intros k Hk. apply elem_of_nil in Hk. done.
    - done.
    - auto. }
  exists d'. split; [exact Hfold|]. split; [exact Hnd'|]. cbn in Hdone, Hdom. split.
  - intros k v Hk. rewrite Hdone; [done|].
    destruct (decide (k ∈ Dict.keys state_dict)) as [|Hn]; [done|].
    apply assoc_None_keys in Hn. congruence.
  - intros k' v Hk'.
    assert (k' ∈ Dict.keys d') as Hin.
    { destruct (decide (k' ∈ Dict.keys d')) as [|Hn]; [done|].
      apply assoc_None_keys in Hn. congruence. }
    destruct (Hdom k' Hin) as [Hin'|Hin']; [|apply elem_of_nil in Hin'; done].
    apply list_elem_of_fmap in Hin' as (k & -> & Hk).
    exists k. split; [done|]. rewrite <- Hdone by done. exact Hk'.
Qed.

Lemma rename_keys_entries_witness :
  exists state_dict',
    LukeBaseModel.rename_keys Example.checkpoint = Ok state_dict' /\
    NoDup (Dict.keys state_dict') /\
    (forall k v, assoc k Example.checkpoint = Some v ->
       assoc (LukeBaseModel.new_key k) state_dict' = Some v) /\
    (forall k' v, assoc k' state_dict' = Some v ->
       exists k, LukeBaseModel.new_key k = k' /\ assoc k Example.checkpoint = Some v).
Proof.
  apply (rename_keys_entries Example.checkpoint).
  - apply (bool_decide_unpack _). vm_compute. exact I.
  - intros k1 k2 H1 H2 Hne. apply list_elem_of_In in H1, H2. cbn in H1, H2.
    destruct H1 as [<-|[<-|[<-|[]]]], H2 as [<-|[<-|[<-|[]]]]; try done;
      split; vm_compute; discriminate.
Defined.

Lemma parameter_keys_Module prefix c ps ms :
  (nnModule.parameter_keys prefix (Module c ps ms)).*2
  = ps.*2 ++ concat (map (fun nm => (nnModule.parameter_keys (prefix +:+ nm.1 +:+ ".") nm.2).*2) ms).
Proof.
  cbn [nnModule.parameter_keys]. rewrite fmap_app. f_equal.
  - rewrite <- list_fmap_compose. done.
  - induction ms as [|[name child] ms IH]; [done|]. rewrite fmap_app, IH. done.
Qed.

Lemma parameter_keys_locs m : forall prefix, (nnModule.parameter_keys prefix m).*2 = param_locs m.
Proof.
  unfold param_locs. induction m as [c ps ms IH] using module_induction. intros prefix.
  rewrite !parameter_keys_Module. f_equal. f_equal.
  induction IH as [|[name child] ms Hc _ IHms]; [done|].
  cbn. rewrite IHms. f_equal. cbn in Hc. rewrite Hc. symmetry. apply Hc.
Qed.

Lemma param_locs_Module c ps ms :
  param_locs (Module c ps ms) = ps.*2 ++ concat (map (fun nm => param_locs nm.2) ms).
Proof.
  unfold param_locs at 1. rewrite parameter_keys_Module. f_equal. f_equal.
  apply map_ext. intros nm. apply parameter_keys_locs.
Qed.

Lemma allocated_nil h h' :
  next h' = next h -> cells h' = cells h -> allocated h h' [].
Proof. intros Hn Hc. split; [done|]. split; [cbn; lia|]. intros l _. rewrite Hc. done. Qed.

Lemma allocated_app h h1 h2 l1 l2 :
  allocated h h1 l1 -> allocated h1 h2 l2 -> allocated h h2 (l1 ++ l2).
Proof.
  intros (H1 & Hn1 & Hf1) (H2 & Hn2 & Hf2). split; [|split].
  - rewrite length_app, seq_app, <- H1, <- Hn1, <- H2. done.
  - rewrite length_app. lia.
  - intros l Hl. rewrite Hf2 by lia. apply Hf1, Hl.
Qed.

Lemma allocated_NoDup h h' ls : allocated h h' ls -> NoDup ls.
Proof. intros (-> & _). apply NoDup_seq. Qed.

Lemma allocated_range h h' ls l : allocated h h' ls -> l ∈ ls -> next h <= l < next h'.
Proof. intros (-> & -> & _) Hin. apply elem_of_seq in Hin. rewrite length_seq in *. lia. Qed.

Lemma Embedding_init_allocated n d p h h' e :
  Embedding.init n d p h = (Ok e, h') ->
  allocated h h' [Embedding.weight e] /\ param_locs (Embedding.registry e) = [Embedding.weight e].
Proof.
  intros H. split; [|done].
  pose proof (Embedding_init_attrs _ _ _ _ _ _ H) as (_ & _ & _ & ->).
  unfold Embedding.init in H.
  assert (next h' = S (next h) /\ forall l, l < next h -> cells h' l = cells h l) as [Hn Hf].
  { destruct p as [i|]; [destruct (i <? n)%nat; [|discriminate]|];
      unfold mbind, ST_bind, mret, ST_ret, new_parameter, normal_, write, modify, get, with_gen,
        draw_normal in H; cbn in H; injection H as _ <-; cbn;
      (split; [done|]); intros l Hl; rewrite !fn_lookup_insert_ne by lia; done. }
  split; [done|]. split; [cbn; lia|]. exact Hf.
Qed.

Lemma allocated_refl h : allocated h h [].
Proof. apply allocated_nil; done. Qed.

Lemma Embedding_init_registry n d p h h' e :
  Embedding.init n d p h = (Ok e, h') -> allocated h h' (param_locs (Embedding.registry e)).
Proof. intros H. apply Embedding_init_allocated in H as [H _]. exact H. Qed.

Lemma BertLayerNorm_init_allocated n eps h h' ln :
  BertLayerNorm.init n eps h = (Ok ln, h') ->
  allocated h h' (param_locs (BertLayerNorm.registry ln)).
Proof.
  unfold BertLayerNorm.init, mbind, ST_bind, mret, ST_ret, new_parameter. cbn.
  intros [= <- <-]. split; [done|]. split; [cbn; lia|]. cbn. intros l Hl.
  rewrite !fn_lookup_insert_ne by lia. done.
Qed.

Lemma Linear_init_allocated i o h h' m :
  Linear.init i o h = (Ok m, h') -> allocated h h' (param_locs m).
Proof.
  unfold Linear.init, mbind, ST_bind, mret, ST_ret, new_parameter, with_gen, draw_uniform. cbn.
  intros [= <- <-]. split; [done|]. split; [cbn; lia|]. cbn. intros l Hl.
  rewrite !fn_lookup_insert_ne by lia. done.
Qed.

Lemma param_locs_Dropout : param_locs Dropout.registry = [].
Proof. reflexivity. Qed.

(** Turns the runs of the constructors a constructor calls into their
    allocations and chains them. *)
Ltac allocations :=
  repeat match goal with
         | H : Embedding.init _ _ _ _ = (Ok _, _) |- _ => apply Embedding_init_registry in H
         | H : BertLayerNorm.init _ _ _ = (Ok _, _) |- _ => apply BertLayerNorm_init_allocated in H
         | H : Linear.init _ _ _ = (Ok _, _) |- _ => apply Linear_init_allocated in H
         end.

Ltac chain :=
  subst;
  repeat (rewrite param_locs_Module; cbn [map concat app fmap list_fmap snd]);
  rewrite ?param_locs_Dropout, ?app_nil_r, <- ?app_assoc; cbn [app];
  repeat first
    [ eassumption
    | apply allocated_refl
    | eapply allocated_app; [eassumption|] ].

Lemma BertEmbeddings_init_allocated config h h' m :
  BertEmbeddings_init config h = (Ok m, h') -> allocated h h' (param_locs m).
Proof.
  unfold BertEmbeddings_init. intros H. st_inv H. subst. allocations. chain.
Qed.

Lemma BertSelfAttention_init_allocated config h h' m :
  BertSelfAttention_init config h = (Ok m, h') -> allocated h h' (param_locs m).
Proof.
  unfold BertSelfAttention_init. intros H. st_inv H. subst.
  destruct (_ =? 0)%nat; [|discriminate]. apply ST_ret_Ok in Hrun as [_ <-].
  allocations. chain.
Qed.

Lemma BertOutput_init_allocated name n config h h' m :
  BertOutput_init name n config h = (Ok m, h') -> allocated h h' (param_locs m).
Proof.
  unfold BertOutput_init. intros H. st_inv H. subst. allocations. chain.
Qed.

Lemma BertLayer_init_allocated config h h' m :
  BertLayer_init config h = (Ok m, h') -> allocated h h' (param_locs m).
Proof.
  unfold BertLayer_init. intros H. st_inv H. subst.
  apply BertSelfAttention_init_allocated in Hrun.
  apply BertOutput_init_allocated in Hrun0, Hrun2.
  allocations. chain.
Qed.

Lemma BertPooler_init_allocated config h h' m :
  BertPooler_init config h = (Ok m, h') -> allocated h h' (param_locs m).
Proof.
  unfold BertPooler_init. intros H. st_inv H. subst. allocations. chain.
Qed.

Lemma BertPredictionHeadTransform_init_allocated config h h' m :
  BertPredictionHeadTransform_init config h = (Ok m, h') -> allocated h h' (param_locs m).
Proof.
  unfold BertPredictionHeadTransform_init. intros H. st_inv H. subst. allocations. chain.
Qed.

Lemma BertEncoder_registry_locs e :
  param_locs (BertEncoder.registry e) = concat (map param_locs (BertEncoder.layer e)).
Proof.
  unfold BertEncoder.registry. rewrite param_locs_Module.
  cbn [map concat app fmap list_fmap snd]. rewrite param_locs_Module, app_nil_r.
  cbn [fmap list_fmap app]. f_equal.
  change (map (fun nm => param_locs nm.2) ?l) with ((fun nm => param_locs nm.2) <$> l).
  rewrite fmap_imap. cbn [snd]. apply imap_const.
Qed.

Lemma layers_init_allocated config (l : list nat) h h' ms :
  mapM (fun _ => BertLayer_init config) l h = (Ok ms, h') ->
  allocated h h' (concat (map param_locs ms)).
Proof.
  revert h ms. induction l as [|x l IH]; intros h ms H.
  - apply ST_ret_Ok in H as [<- <-]. apply allocated_refl.
  - simpl in H. st_inv H. subst. cbn.
    apply BertLayer_init_allocated in Hrun. apply IH in Hrun0.
    eapply allocated_app; eassumption.
Qed.

Lemma BertEncoder_init_allocated config h h' e :
  BertEncoder.init config h = (Ok e, h') -> allocated h h' (param_locs (BertEncoder.registry e)).
Proof.
  unfold BertEncoder.init. intros H. st_inv H. subst.
  rewrite BertEncoder_registry_locs. cbn. eapply layers_init_allocated, Hrun.
Qed.

Lemma EntityEmbeddings_init_allocated config n h h' e :
  EntityEmbeddings.init config n h = (Ok e, h') ->
  allocated h h' (param_locs (EntityEmbeddings.registry e)).
Proof.
  unfold EntityEmbeddings.init. intros H. st_inv H. subst.
  unfold EntityEmbeddings.registry. cbn [EntityEmbeddings.entity_embeddings
    EntityEmbeddings.position_embeddings EntityEmbeddings.token_type_embeddings
    EntityEmbeddings.LayerNorm]. allocations. chain.
Qed.

Lemma EntitySelector_init_allocated config h h' s :
  EntitySelector.init config h = (Ok s, h') ->
  allocated h h' (param_locs (EntitySelector.registry s)).
Proof.
  unfold EntitySelector.init. intros H. st_inv H. subst.
  apply BertPredictionHeadTransform_init_allocated in Hrun.
  unfold EntitySelector.registry. cbn [EntitySelector.transform EntitySelector.embeddings
    EntitySelector.bias]. allocations. chain.
Qed.

Lemma LukeBaseModel_init_allocated config h h' base :
  LukeBaseModel.init config h = (Ok base, h') ->
  allocated h h' (param_locs (LukeModel.registry base)).
Proof.
  unfold LukeBaseModel.init. intros H. st_inv H. subst.
  apply BertEncoder_init_allocated in Hrun.
  apply BertPooler_init_allocated in Hrun0.
  apply BertEmbeddings_init_allocated in Hrun1.
  apply EntityEmbeddings_init_allocated in Hrun2.
  unfold LukeModel.registry, LukeBaseModel.children.
  cbn [LukeBaseModel.encoder LukeBaseModel.pooler LukeBaseModel.embeddings
       LukeBaseModel.entity_embeddings]. chain.
Qed.

Lemma EntitySelector_registry_locs s :
  param_locs (EntitySelector.registry s)
  = param_locs (EntitySelector.transform s)
    ++ [Embedding.weight (EntitySelector.embeddings s);
        Embedding.weight (EntitySelector.bias s)].
Proof.
  unfold EntitySelector.registry. rewrite param_locs_Module.
  cbn [map concat app fmap list_fmap snd]. done.
Qed.

Lemma LukeE2EModel_registry_locs self :
  param_locs (LukeE2EModel.registry self)
  = param_locs (LukeModel.registry (LukeE2EModel.base self))
    ++ param_locs (EntityEmbeddings.registry (LukeE2EModel.mask_entity_embeddings self))
    ++ param_locs (BertEncoder.registry (LukeE2EModel.el_encoder self))
    ++ param_locs (EntitySelector.registry (LukeE2EModel.entity_selector self)).
Proof.
  unfold LukeE2EModel.registry, LukeModel.registry. rewrite !param_locs_Module.
  cbn [fmap list_fmap app]. rewrite map_app, concat_app. f_equal.
  cbn [map concat snd]. rewrite app_nil_r. done.
Qed.

Lemma entity_table_in_base base :
  Embedding.weight (EntityEmbeddings.entity_embeddings (LukeBaseModel.entity_embeddings base))
  ∈ param_locs (LukeModel.registry base).
Proof.
  unfold LukeModel.registry, LukeBaseModel.children. rewrite param_locs_Module.
  cbn [map concat app fmap list_fmap snd].
  rewrite !elem_of_app. right. right. right. left.
  unfold EntityEmbeddings.registry. rewrite param_locs_Module.
  cbn [map concat app fmap list_fmap snd]. rewrite elem_of_app. left. constructor.
Qed.

(** What [LukeE2EModel.__init__] allocates: the parameters of the model,
    with the selector's own table, which the constructor then drops, in the
    place where the model has the entity table a second time. *)
Lemma LukeE2EModel_init_allocated (config : LukeE2EConfig.t) (h h' : heap)
    (self : LukeE2EModel.t) :
  LukeE2EModel.init config h = (Ok self, h') ->
  exists dropped before,
    allocated h h' (before ++ dropped :: [Embedding.weight
                                            (EntitySelector.bias (LukeE2EModel.entity_selector self))]) /\
    before = param_locs (LukeModel.registry (LukeE2EModel.base self))
             ++ param_locs (EntityEmbeddings.registry (LukeE2EModel.mask_entity_embeddings self))
             ++ param_locs (BertEncoder.registry (LukeE2EModel.el_encoder self))
             ++ param_locs (EntitySelector.transform (LukeE2EModel.entity_selector self)) /\
    param_locs (LukeE2EModel.registry self)
    = before ++ Embedding.weight
                  (EntityEmbeddings.entity_embeddings
                     (LukeBaseModel.entity_embeddings (LukeE2EModel.base self)))
             :: [Embedding.weight (EntitySelector.bias (LukeE2EModel.entity_selector self))].
Proof.
  intros H. apply LukeE2EModel_init_inv in H
    as (base & h1 & mask & h2 & el & h3 & sel & Hbase & Hmask & Hel & Hsel & ->).
  apply LukeBaseModel_init_allocated in Hbase.
  apply EntityEmbeddings_init_allocated in Hmask.
  apply BertEncoder_init_allocated in Hel.
  apply EntitySelector_init_allocated in Hsel. rewrite EntitySelector_registry_locs in Hsel.
  exists (Embedding.weight (EntitySelector.embeddings sel)). eexists.
  split; [|split; [reflexivity|]].
  - cbn [LukeE2EModel.base LukeE2EModel.mask_entity_embeddings LukeE2EModel.el_encoder
         LukeE2EModel.entity_selector LukeE2EModel.tie EntitySelector.transform
         EntitySelector.bias].
    rewrite <- !app_assoc.
    eapply allocated_app; [exact Hbase|]. eapply allocated_app; [exact Hmask|].
    eapply allocated_app; [exact Hel|]. exact Hsel.
  - rewrite LukeE2EModel_registry_locs, EntitySelector_registry_locs.
    cbn [LukeE2EModel.base LukeE2EModel.mask_entity_embeddings LukeE2EModel.el_encoder
         LukeE2EModel.entity_selector LukeE2EModel.tie EntitySelector.transform
         EntitySelector.bias EntitySelector.embeddings Embedding.weight].
    rewrite <- !app_assoc. done.
Qed.

Lemma replaced_lookup {A} (before after : list A) (x w : A) (i j : nat) (l : A) :
  NoDup (before ++ x :: after) ->
  (before ++ w :: after) !! i = Some l -> (before ++ w :: after) !! j = Some l ->
  i = j \/ l = w.
Proof.
  intros Hnd Hi Hj.
  destruct (decide (i = length before)) as [->|Hi'].
  { right. rewrite list_lookup_middle in Hi by done. congruence. }
  destruct (decide (j = length before)) as [->|Hj'].
  { right. rewrite list_lookup_middle in Hj by done. congruence. }
  left.
  assert (forall k, k ≠ length before ->
            (before ++ w :: after) !! k = (before ++ x :: after) !! k) as Hsame.
  { intros k Hk. destruct (decide (k < length before)).
    - rewrite !lookup_app_l by done. done.
    - rewrite !lookup_app_r by lia.
      destruct (k - length before) as [|k0] eqn:Hk0; [lia|done]. }
  rewrite Hsame in Hi, Hj by done.
  eapply NoDup_lookup; eauto.
Qed.

(** X17. In a model [LukeE2EModel.__init__] has built, two parameter
    keys name the same parameter only if it is the entity table (which the
    selector shares); every parameter is a location the constructor
    allocated, and the cells that existed before are as they were. *)
Theorem init_parameters_distinct (config : LukeE2EConfig.t) (h h' : heap)
    (self : LukeE2EModel.t) :
  LukeE2EModel.init config h = (Ok self, h') ->
  let locs := param_locs (LukeE2EModel.registry self) in
  let shared :=
    Embedding.weight
      (EntityEmbeddings.entity_embeddings
         (LukeBaseModel.entity_embeddings (LukeE2EModel.base self))) in
  (forall i j l, locs !! i = Some l -> locs !! j = Some l -> i = j \/ l = shared) /\
  (forall l, l ∈ locs -> next h <= l < next h') /\
  (forall l, l < next h -> cells h' l = cells h l).
Proof.
  intros H locs shared. subst locs.
  destruct (LukeE2EModel_init_allocated _ _ _ _ H) as (dropped & before & Halloc & Hbefore & ->).
  fold shared. split; [|split].
  - intros i j l. apply (replaced_lookup _ _ dropped). eapply allocated_NoDup, Halloc.
  - intros l Hl. apply elem_of_app in Hl as [Hl|Hl].
    + eapply allocated_range; [exact Halloc|]. apply elem_of_app. auto.
    + apply elem_of_cons in Hl as [->|Hl].
      * eapply allocated_range; [exact Halloc|]. apply elem_of_app. left.
        rewrite Hbefore. apply elem_of_app. left. apply entity_table_in_base.
      * eapply allocated_range; [exact Halloc|]. apply elem_of_app. right.
        apply list_elem_of_further, Hl.
  - apply Halloc.
Qed.

Lemma init_parameters_distinct_witness :
  let locs := param_locs (LukeE2EModel.registry Example.model) in
  let shared :=
    Embedding.weight
      (EntityEmbeddings.entity_embeddings
         (LukeBaseModel.entity_embeddings (LukeE2EModel.base Example.model))) in
  (forall i j l, locs !! i = Some l -> locs !! j = Some l -> i = j \/ l = shared) /\
  (forall l, l ∈ locs -> next Example.empty_heap <= l < next Example.built.2) /\
  (forall l, l < next Example.empty_heap -> cells Example.built.2 l = cells Example.empty_heap l).
Proof.
  exact (init_parameters_distinct Example.config Example.empty_heap Example.built.2
           Example.model built_ok).
Defined.

(** X18. The entity-linking stack and the placeholder embeddings have
    parameters of their own: none of them is a parameter of the base model
    (its encoder, pooler, word embeddings and entity embeddings). *)
Theorem entity_linking_own_parameters (config : LukeE2EConfig.t) (h h' : heap)
    (self : LukeE2EModel.t) (l : loc) :
  LukeE2EModel.init config h = (Ok self, h') ->
  l ∈ param_locs (BertEncoder.registry (LukeE2EModel.el_encoder self)) \/
  l ∈ param_locs (EntityEmbeddings.registry (LukeE2EModel.mask_entity_embeddings self)) ->
  l ∉ param_locs (LukeModel.registry (LukeE2EModel.base self)).
Proof.
  intros H Hl Hbase.
  destruct (LukeE2EModel_init_allocated _ _ _ _ H) as (dropped & before & Halloc & -> & _).
  apply allocated_NoDup in Halloc. rewrite <- !app_assoc in Halloc.
  apply NoDup_app in Halloc as (_ & Hdisj & _).
  apply (Hdisj l Hbase). rewrite !elem_of_app. tauto.
Qed.

Lemma entity_linking_own_parameters_witness :
  33%nat ∉ param_locs (LukeModel.registry (LukeE2EModel.base Example.model)).
Proof.
  apply (entity_linking_own_parameters Example.config Example.empty_heap Example.built.2
           Example.model 33 built_ok).
  left. apply list_elem_of_In. vm_compute. tauto.
Defined.

(** ** The initialisation scheme *)

Lemma rewritten_within_refl ls h : rewritten_within ls h h.
Proof. split; [done|]. split; done. Qed.

Lemma rewritten_within_trans ls h1 h2 h3 :
  rewritten_within ls h1 h2 -> rewritten_within ls h2 h3 -> rewritten_within ls h1 h3.
Proof.
  intros (Hn1 & Hs1 & Hf1) (Hn2 & Hs2 & Hf2). split; [congruence|]. split; intros l.
  - rewrite Hs2. apply Hs1.
  - intros Hl. rewrite Hf2, Hf1; done.
Qed.

Lemma rewritten_within_mono ls ls' h h' :
  ls ⊆ ls' -> rewritten_within ls h h' -> rewritten_within ls' h h'.
Proof.
  intros Hsub (Hn & Hs & Hf). split; [done|]. split; [done|].
  intros l Hl. apply Hf. intros Hin. apply Hl, Hsub, Hin.
Qed.

Lemma fill_rewritten l c h : exists h', fill_ l c h = (Ok tt, h') /\ rewritten_within [l] h h' /\
                                        gen h' = gen h.
Proof.
  unfold fill_, mbind, ST_bind, get, write, modify.
  eexists. split; [reflexivity|]. cbn [cells next gen]. split; [|done]. split; [done|].
  split; intros l'; cbn [cells].
  - destruct (decide (l = l')) as [->|Hne];
      [rewrite fn_lookup_insert | rewrite fn_lookup_insert_ne by done]; done.
  - intros Hl. apply fn_lookup_insert_ne. intros ->. apply Hl. constructor.
Qed.

Lemma normal_rewritten l mean std h :
  exists h', normal_ l mean std h = (Ok tt, h') /\ rewritten_within [l] h h'.
Proof.
  unfold normal_, mbind, ST_bind, get, write, modify, with_gen, draw_normal.
  eexists. split; [reflexivity|]. split; [done|]. split; intros l'; cbn [cells].
  - destruct (decide (l = l')) as [->|Hne];
      [rewrite fn_lookup_insert | rewrite fn_lookup_insert_ne by done]; done.
  - intros Hl. apply fn_lookup_insert_ne. intros ->. apply Hl. constructor.
Qed.

Lemma attr_cases name m h :
  (exists l, LukeBaseModel.attr name m h = (Ok l, h) /\ l ∈ (_parameters m).*2) \/
  LukeBaseModel.attr name m h = (Raise (AttributeError name), h).
Proof.
  unfold LukeBaseModel.attr. destruct (assoc name (_parameters m)) as [l|] eqn:Hl; [|auto].
  left. exists l. split; [done|].
  induction (_parameters m) as [|[k v] ps IH]; [done|]. cbn in Hl |- *.
  destruct (String.eqb name k).
  - injection Hl as ->. constructor.
  - apply list_elem_of_further, IH, Hl.
Qed.

Lemma assoc_elem_of {V} (name : string) (ps : list (string * V)) (v : V) :
  assoc name ps = Some v -> v ∈ ps.*2.
Proof.
  induction ps as [|[k v'] ps IH]; [done|]. cbn.
  destruct (String.eqb name k).
  - intros [= ->]. constructor.
  - intros Hl. apply list_elem_of_further, IH, Hl.
Qed.

Lemma init_weights_rewritten config m h r h' :
  LukeBaseModel.init_weights config m h = (r, h') ->
  rewritten_within (_parameters m).*2 h h' /\ ok_or_missing_attribute r.
Proof.
  unfold LukeBaseModel.init_weights.
  assert (forall l, l ∈ (_parameters m).*2 -> [l] ⊆ (_parameters m).*2) as Hsub.
  { intros l Hl x ->%list_elem_of_singleton. exact Hl. }
  assert (forall h0 r0 h1,
            match class_of m, assoc "bias" (_parameters m) with
            | nn_Linear, Some bias => zero_ bias
            | _, _ => mret tt
            end h0 = (r0, h1) ->
            rewritten_within (_parameters m).*2 h0 h1 /\ r0 = Ok tt) as Hbias.
  { intros h0 r0 h1.
    destruct (class_of m); try (intros [= <- <-]; split; [apply rewritten_within_refl|done]).
    destruct (assoc "bias" (_parameters m)) as [b|] eqn:Hb;
      [|intros [= <- <-]; split; [apply rewritten_within_refl|done]].
    destruct (fill_rewritten b 0 h0) as (h2 & Hrun & Hw & _). unfold zero_. rewrite Hrun.
    intros [= <- <-]. split; [|done].
    eapply rewritten_within_mono; [|exact Hw]. apply Hsub. eapply assoc_elem_of, Hb. }
  assert (forall l c h0 r0 h1, l ∈ (_parameters m).*2 -> fill_ l c h0 = (r0, h1) ->
            rewritten_within (_parameters m).*2 h0 h1 /\ ok_or_missing_attribute r0) as Hfill.
  { intros l c h0 r0 h1 Hl Hrun. destruct (fill_rewritten l c h0) as (h2 & Hrun' & Hw & _).
    rewrite Hrun' in Hrun. injection Hrun as <- <-.
    split; [|left; done]. eapply rewritten_within_mono; [|exact Hw]. apply Hsub, Hl. }
  assert (forall l a b h0 r0 h1, l ∈ (_parameters m).*2 -> normal_ l a b h0 = (r0, h1) ->
            rewritten_within (_parameters m).*2 h0 h1 /\ ok_or_missing_attribute r0) as Hnormal.
  { intros l a b h0 r0 h1 Hl Hrun. destruct (normal_rewritten l a b h0) as (h2 & Hrun' & Hw).
    rewrite Hrun' in Hrun. injection Hrun as <- <-.
    split; [|left; done]. eapply rewritten_within_mono; [|exact Hw]. apply Hsub, Hl. }
  assert (forall name (k : loc -> ST heap unit) h0 r0 h1,
            (forall l h2 r2 h3, l ∈ (_parameters m).*2 -> k l h2 = (r2, h3) ->
               rewritten_within (_parameters m).*2 h2 h3 /\ ok_or_missing_attribute r2) ->
            (LukeBaseModel.attr name m ≫= k) h0 = (r0, h1) ->
            rewritten_within (_parameters m).*2 h0 h1 /\ ok_or_missing_attribute r0) as Hattr.
  { intros name k h0 r0 h1 Hk Hrun.
    destruct (attr_cases name m h0) as [(l & Hl & Hin)|Hraise].
    - rewrite (ST_bind_run _ _ _ _ _ Hl) in Hrun. eapply Hk; eauto.
    - rewrite (ST_bind_raise _ _ _ _ _ Hraise) in Hrun. injection Hrun as <- <-.
      split; [apply rewritten_within_refl|]. right. eauto. }
  intros Hrun. apply ST_bind_inv in Hrun as [(e & Hrun & ->)|([] & h1 & Hrun & Hrest)].
  - destruct (class_of m) as [|d| | | |]; try discriminate Hrun.
    + eapply Hattr; [|exact Hrun]. intros l h2 r2 h3 Hl Hk; eapply Hnormal; [exact Hl|exact Hk].
    + eapply Hattr; [|exact Hrun]. intros l h2 r2 h3 Hl.
      destruct (d =? 1)%nat; [apply Hfill | apply Hnormal]; exact Hl.
    + eapply Hattr; [|exact Hrun]. intros l h2 r2 h3 Hl Hrun2.
      apply ST_bind_inv in Hrun2 as [(e' & Hrun2 & ->)|([] & h4 & Hrun2 & Hrest)].
      * eapply Hfill; [exact Hl|exact Hrun2].
      * apply Hfill in Hrun2 as [Hw _]; [|done].
        eapply Hattr in Hrest as [Hw' Hr]; [|intros l' h5 r5 h6 Hl' Hk; eapply Hfill; [exact Hl'|exact Hk]].
        split; [|exact Hr]. eapply rewritten_within_trans; eauto.
  - apply Hbias in Hrest as [Hw ->]. split; [|left; done].
    eapply rewritten_within_trans; [|exact Hw].
    destruct (class_of m) as [|d| | | |];
      try (apply ST_ret_Ok in Hrun as [_ <-]; apply rewritten_within_refl).
    + eapply Hattr; [|exact Hrun]. intros l h2 r2 h3 Hl Hk; eapply Hnormal; [exact Hl|exact Hk].
    + eapply Hattr; [|exact Hrun]. intros l h2 r2 h3 Hl.
      destruct (d =? 1)%nat; [apply Hfill | apply Hnormal]; exact Hl.
    + eapply Hattr; [|exact Hrun]. intros l h2 r2 h3 Hl Hrun2.
      apply ST_bind_inv in Hrun2 as [(e' & Hrun2 & ->)|([] & h4 & Hrun2 & Hrest)].
      * eapply Hfill; [exact Hl|exact Hrun2].
      * apply Hfill in Hrun2 as [Hw2 _]; [|done].
        eapply Hattr in Hrest as [Hw' Hr]; [|intros l' h5 r5 h6 Hl' Hk; eapply Hfill; [exact Hl'|exact Hk]].
        split; [|exact Hr]. eapply rewritten_within_trans; eauto.
Qed.

(** X19. Applying [init_weights] over a module tree allocates nothing,
    keeps the shape of every tensor, leaves alone the locations that are not
    parameters of the tree, and raises nothing but for a missing attribute. *)
Theorem init_weights_frame (config : BertConfig.t) (m : module) :
  forall (h h' : heap) (r : result unit),
    nnModule.apply (LukeBaseModel.init_weights config) m h = (r, h') ->
    next h' = next h /\
    (forall l, shape (cells h' l) = shape (cells h l)) /\
    (forall l, l ∉ param_locs m -> cells h' l = cells h l) /\
    (r = Ok tt \/ exists name, r = Raise (AttributeError name)).
Proof.
  enough (forall h h' r,
            nnModule.apply (LukeBaseModel.init_weights config) m h = (r, h') ->
            rewritten_within (param_locs m) h h' /\ ok_or_missing_attribute r) as Hm.
  { intros h h' r Hrun. destruct (Hm h h' r Hrun) as [(? & ? & ?) ?]. done. }
  induction m as [c ps ms IH] using module_induction. intros h h' r Hrun.
  cbn [nnModule.apply] in Hrun. rewrite param_locs_Module.
  apply ST_bind_inv in Hrun as [(e & Hrun & ->)|([] & h1 & Hrun & Hself)].
  - enough (rewritten_within (concat (map (fun nm => param_locs nm.2) ms)) h h' /\
            ok_or_missing_attribute (Raise e)) as [Hw Hr].
    { split; [|exact Hr]. eapply rewritten_within_mono; [|exact Hw].
      intros l Hl. apply elem_of_app. auto. }
    clear -IH Hrun. revert h Hrun.
    induction ms as [|[name child] ms IHms]; intros h Hrun; [discriminate|].
    apply Forall_cons in IH as [IHchild IHrest]. cbn in IHchild. cbn [map concat snd].
    apply ST_bind_inv in Hrun as [(e' & Hrun & [= ->])|([] & h1 & Hrun & Hrest)].
    + apply IHchild in Hrun as [Hw Hr]. split; [|exact Hr].
      eapply rewritten_within_mono; [|exact Hw]. intros l Hl. apply elem_of_app. auto.
    + apply IHchild in Hrun as [Hw _]. destruct (IHms IHrest h1 Hrest) as [Hw' Hr].
      split; [|exact Hr]. eapply rewritten_within_trans.
      * eapply rewritten_within_mono; [|exact Hw]. intros l Hl. apply elem_of_app. auto.
      * eapply rewritten_within_mono; [|exact Hw']. intros l Hl. apply elem_of_app. auto.
  - apply init_weights_rewritten in Hself as [Hw Hr]. cbn [_parameters] in Hw.
    split; [|exact Hr]. eapply rewritten_within_trans.
    2:{ eapply rewritten_within_mono; [|exact Hw]. intros l Hl. apply elem_of_app. auto. }
    eapply rewritten_within_mono; [intros l Hl; apply elem_of_app; right; exact Hl|].
    clear -IH Hrun. revert h Hrun.
    induction ms as [|[name child] ms IHms]; intros h Hrun.
    { apply ST_ret_Ok in Hrun as [_ <-]. apply rewritten_within_refl. }
    apply Forall_cons in IH as [IHchild IHrest]. cbn in IHchild. cbn [map concat snd].
    apply ST_bind_inv in Hrun as [(e' & Hrun & [=])|([] & h2 & Hrun & Hrest)].
    apply IHchild in Hrun as [Hw _]. pose proof (IHms IHrest h2 Hrest) as Hw'.
    eapply rewritten_within_trans.
    * eapply rewritten_within_mono; [|exact Hw]. intros l Hl. apply elem_of_app. auto.
    * eapply rewritten_within_mono; [|exact Hw']. intros l Hl. apply elem_of_app. auto.
Qed.

Lemma init_weights_frame_witness :
  exists r h',
    nnModule.apply (LukeBaseModel.init_weights Example.config)
      (LukeE2EModel.registry Example.model) Example.built.2 = (r, h') /\
    next h' = next Example.built.2 /\
    (forall l, shape (cells h' l) = shape (cells Example.built.2 l)) /\
    (forall l, l ∉ param_locs (LukeE2EModel.registry Example.model) ->
       cells h' l = cells Example.built.2 l) /\
    (r = Ok tt \/ exists name, r = Raise (AttributeError name)).
Proof.
  destruct (nnModule.apply (LukeBaseModel.init_weights Example.config)
              (LukeE2EModel.registry Example.model) Example.built.2) as [r h'] eqn:Hrun.
  exists r, h'. split; [reflexivity|].
  exact (init_weights_frame Example.config _ _ _ _ Hrun).
Defined.

(** ** What the constructors establish *)

Lemma Embedding_init_shaped n d p h h' e :
  Embedding.init n d p h = (Ok e, h') ->
  table_shaped (cells h') e n d /\ Embedding.weight e < next h'.
Proof.
  intros H. pose proof (Embedding_init_attrs _ _ _ _ _ _ H) as (Hn & Hd & _ & Hw).
  pose proof (Embedding_init_allocated _ _ _ _ _ _ H) as [(_ & Hnext & _) _].
  split; [|cbn in Hnext; lia]. clear Hnext. split; [done|]. split; [done|].
  rewrite Hw. unfold Embedding.init in H.
  destruct p as [i|]; [destruct (Nat.ltb_spec i n) as [Hi|]; [|discriminate]|];
    unfold mbind, ST_bind, mret, ST_ret, new_parameter, normal_, write, modify, get, with_gen,
      draw_normal in H; cbn in H; injection H as _ <-; cbn [cells];
    rewrite !fn_lookup_insert; unfold well_shaped, fill_row; cbn [shape data nth numel foldr].
  - split; [done|]. rewrite !length_app, length_take, length_drop, repeat_length.
    rewrite !length_map, length_seq.
    assert (S i * d <= n * d) by (apply Nat.mul_le_mono_r; lia). lia.
  - split; [done|]. rewrite !length_map, length_seq. done.
Qed.

Lemma BertLayerNorm_init_fresh n eps h h' ln :
  BertLayerNorm.init n eps h = (Ok ln, h') ->
  layer_norm_shaped (cells h') ln n /\
  BertLayerNorm.weight ln < next h' /\ BertLayerNorm.bias ln < next h' /\
  BertLayerNorm.variance_epsilon ln = eps.
Proof.
  unfold BertLayerNorm.init, mbind, ST_bind, mret, ST_ret, new_parameter.
  cbn [cells next gen]. intros [= <- <-]. unfold layer_norm_shaped.
  cbn [cells next BertLayerNorm.weight BertLayerNorm.bias BertLayerNorm.variance_epsilon].
  split; [|split; [lia|split; [lia|done]]]. split.
  - rewrite fn_lookup_insert_ne by lia. rewrite fn_lookup_insert. apply repeat_length.
  - rewrite fn_lookup_insert. apply repeat_length.
Qed.

Lemma table_shaped_frame h1 h2 ls e n d :
  allocated h1 h2 ls -> Embedding.weight e < next h1 ->
  table_shaped (cells h1) e n d -> table_shaped (cells h2) e n d.
Proof.
  intros (_ & _ & Hf) Hw (? & ? & ? & ?). unfold table_shaped. rewrite Hf by done. done.
Qed.

Lemma layer_norm_shaped_frame h1 h2 ls ln n :
  allocated h1 h2 ls -> BertLayerNorm.weight ln < next h1 -> BertLayerNorm.bias ln < next h1 ->
  layer_norm_shaped (cells h1) ln n -> layer_norm_shaped (cells h2) ln n.
Proof.
  intros (_ & _ & Hf) Hw Hb (? & ?). unfold layer_norm_shaped. rewrite !Hf by done. done.
Qed.

Lemma allocated_next h h' ls : allocated h h' ls -> next h <= next h'.
Proof. intros (_ & -> & _). lia. Qed.

Lemma entity_embeddings_shaped_frame h1 h2 ls config e n :
  allocated h1 h2 ls -> entity_embeddings_below e (next h1) ->
  entity_embeddings_shaped (cells h1) config e n -> entity_embeddings_shaped (cells h2) config e n.
Proof.
  intros Ha (H1 & H2 & H3 & H4 & H5) (T1 & T2 & T3 & L).
  split; [|split; [|split]];
    try (eapply table_shaped_frame; eauto); try (eapply layer_norm_shaped_frame; eauto).
Qed.

Lemma EntityEmbeddings_init_shaped (config : LukeConfig.t) (n : option nat) h h' e :
  EntityEmbeddings.init config n h = (Ok e, h') ->
  entity_embeddings_shaped (cells h') config e
    (match n with Some n => n | None => LukeConfig.entity_vocab_size config end) /\
  entity_embeddings_below e (next h') /\
  row (BertConfig.hidden_size config)
      (cells h' (Embedding.weight (EntityEmbeddings.entity_embeddings e))) 0
  = vzero (BertConfig.hidden_size config).
Proof.
  unfold EntityEmbeddings.init. intros H. st_inv H. subst.
  pose proof (Embedding_init_padding_row _ _ _ _ _ Hrun) as Hrow.
  pose proof (Embedding_init_shaped _ _ _ _ _ _ Hrun) as [T1 W1].
  pose proof (Embedding_init_shaped _ _ _ _ _ _ Hrun0) as [T2 W2].
  pose proof (Embedding_init_shaped _ _ _ _ _ _ Hrun1) as [T3 W3].
  pose proof (BertLayerNorm_init_fresh _ _ _ _ _ Hrun2) as (L & W4 & W5 & Heps).
  apply Embedding_init_registry in Hrun0 as A2, Hrun1 as A3.
  apply BertLayerNorm_init_allocated in Hrun2 as A4.
  pose proof (allocated_next _ _ _ A2). pose proof (allocated_next _ _ _ A3).
  pose proof (allocated_next _ _ _ A4).
  cbn. split; [|split].
  - split; [|split; [|split]]; cbn.
    + eapply table_shaped_frame; [exact A4|lia|].
      eapply table_shaped_frame; [exact A3|lia|].
      eapply table_shaped_frame; [exact A2|lia|]. exact T1.
    + eapply table_shaped_frame; [exact A4|lia|].
      eapply table_shaped_frame; [exact A3|lia|]. exact T2.
    + eapply table_shaped_frame; [exact A4|lia|]. exact T3.
    + exact L.
  - unfold entity_embeddings_below. cbn. lia.
  - destruct A2 as (_ & _ & F2), A3 as (_ & _ & F3), A4 as (_ & _ & F4).
    rewrite F4, F3, F2 by lia. exact Hrow.
Qed.

Lemma LukeBaseModel_init_shaped (config : LukeConfig.t) h h' base :
  LukeBaseModel.init config h = (Ok base, h') ->
  entity_embeddings_shaped (cells h') config (LukeBaseModel.entity_embeddings base)
    (LukeConfig.entity_vocab_size config) /\
  entity_embeddings_below (LukeBaseModel.entity_embeddings base) (next h') /\
  row (BertConfig.hidden_size config)
      (cells h' (Embedding.weight
                   (EntityEmbeddings.entity_embeddings (LukeBaseModel.entity_embeddings base)))) 0
  = vzero (BertConfig.hidden_size config).
Proof.
  unfold LukeBaseModel.init. intros H. st_inv H. subst. cbn.
  apply EntityEmbeddings_init_shaped in Hrun2 as (Hs & Hb & Hrow). done.
Qed.

Lemma EntitySelector_init_shaped (config : LukeConfig.t) h h' s :
  EntitySelector.init config h = (Ok s, h') ->
  table_shaped (cells h') (EntitySelector.bias s) (LukeConfig.entity_vocab_size config) 1 /\
  Embedding.num_embeddings (EntitySelector.embeddings s) = LukeConfig.entity_vocab_size config /\
  Embedding.embedding_dim (EntitySelector.embeddings s) = BertConfig.hidden_size config /\
  row 1 (cells h' (Embedding.weight (EntitySelector.bias s))) 0 = vzero 1.
Proof.
  unfold EntitySelector.init. intros H. st_inv H. subst. cbn.
  pose proof (Embedding_init_attrs _ _ _ _ _ _ Hrun0) as (? & ? & _).
  pose proof (Embedding_init_padding_row _ _ _ _ _ Hrun1) as Hrow.
  apply Embedding_init_shaped in Hrun1 as [T _]. done.
Qed.

Lemma LukeE2EModel_init_shaped (config : LukeE2EConfig.t) (h h' : heap) (self : LukeE2EModel.t) :
  LukeE2EModel.init config h = (Ok self, h') ->
  let σ := cells h' in
  let d := BertConfig.hidden_size config in
  let entity := LukeBaseModel.entity_embeddings (LukeE2EModel.base self) in
  let selector := LukeE2EModel.entity_selector self in
  entity_embeddings_shaped σ config entity (LukeConfig.entity_vocab_size config) /\
  entity_embeddings_shaped σ config (LukeE2EModel.mask_entity_embeddings self) 2 /\
  table_shaped σ (EntitySelector.embeddings selector) (LukeConfig.entity_vocab_size config) d /\
  table_shaped σ (EntitySelector.bias selector) (LukeConfig.entity_vocab_size config) 1 /\
  row d (σ (Embedding.weight (EntityEmbeddings.entity_embeddings entity))) 0 = vzero d /\
  row 1 (σ (Embedding.weight (EntitySelector.bias selector))) 0 = vzero 1.
Proof.
  intros H σ d entity selector. subst σ d entity selector.
  apply LukeE2EModel_init_inv in H
    as (base & h1 & mask & h2 & el & h3 & sel & Hbase & Hmask & Hel & Hsel & ->).
  cbn [LukeE2EModel.base LukeE2EModel.mask_entity_embeddings LukeE2EModel.entity_selector
       LukeE2EModel.tie EntitySelector.embeddings EntitySelector.bias].
  pose proof (LukeBaseModel_init_shaped _ _ _ _ Hbase) as (Sb & Bb & Rb).
  pose proof (EntityEmbeddings_init_shaped _ _ _ _ _ Hmask) as (Sm & Bm & _).
  pose proof (EntitySelector_init_shaped _ _ _ _ Hsel) as (Tbias & Hn & Hd & Hrow).
  apply EntityEmbeddings_init_allocated in Hmask as Am.
  apply BertEncoder_init_allocated in Hel as Ae.
  apply EntitySelector_init_allocated in Hsel as As.
  pose proof (allocated_next _ _ _ Am). pose proof (allocated_next _ _ _ Ae).
  assert (entity_embeddings_shaped (cells h') config (LukeBaseModel.entity_embeddings base)
            (LukeConfig.entity_vocab_size config)) as Sb'.
  { eapply entity_embeddings_shaped_frame; [exact As| |].
    { destruct Bb as (? & ? & ? & ? & ?). unfold entity_embeddings_below. lia. }
    eapply entity_embeddings_shaped_frame; [exact Ae| |].
    { destruct Bb as (? & ? & ? & ? & ?). unfold entity_embeddings_below. lia. }
    eapply entity_embeddings_shaped_frame; [exact Am|exact Bb|exact Sb]. }
  split; [exact Sb'|]. split; [|split; [|split; [exact Tbias|split; [|exact Hrow]]]].
  - eapply entity_embeddings_shaped_frame; [exact As| |].
    { destruct Bm as (? & ? & ? & ? & ?). unfold entity_embeddings_below. lia. }
    eapply entity_embeddings_shaped_frame; [exact Ae|exact Bm|exact Sm].
  - destruct Sb' as ((_ & _ & Hshape & Hws) & _). split; [exact Hn|]. split; [exact Hd|].
    cbn [Embedding.weight]. done.
  - destruct Bb as (Hlt & _).
    destruct Am as (_ & _ & Fm), Ae as (_ & _ & Fe), As as (_ & _ & Fs).
    rewrite Fs, Fe, Fm by lia. exact Rb.
Qed.

(** X20. Every model [LukeE2EModel.__init__] builds has parameters of
    the shapes its forward pass indexes: the three tables and the LayerNorm of
    the entity embeddings and of the placeholder embeddings (two rows for the
    latter's entity table), the selector's table (the entity table) and its
    one-column bias table; and the row of the padding id 0 is zero in the
    entity table and in the bias table. *)
Theorem init_shapes (config : LukeE2EConfig.t) (h h' : heap) (self : LukeE2EModel.t) :
  LukeE2EModel.init config h = (Ok self, h') ->
  let σ := cells h' in
  let d := BertConfig.hidden_size config in
  let entity := LukeBaseModel.entity_embeddings (LukeE2EModel.base self) in
  let mask := LukeE2EModel.mask_entity_embeddings self in
  let selector := LukeE2EModel.entity_selector self in
  (table_shaped σ (EntityEmbeddings.entity_embeddings entity)
     (LukeConfig.entity_vocab_size config) d /\
   table_shaped σ (EntityEmbeddings.position_embeddings entity)
     (BertConfig.max_position_embeddings config) d /\
   table_shaped σ (EntityEmbeddings.token_type_embeddings entity)
     (BertConfig.type_vocab_size config) d /\
   layer_norm_shaped σ (EntityEmbeddings.LayerNorm entity) d) /\
  (table_shaped σ (EntityEmbeddings.entity_embeddings mask) 2 d /\
   table_shaped σ (EntityEmbeddings.position_embeddings mask)
     (BertConfig.max_position_embeddings config) d /\
   table_shaped σ (EntityEmbeddings.token_type_embeddings mask)
     (BertConfig.type_vocab_size config) d /\
   layer_norm_shaped σ (EntityEmbeddings.LayerNorm mask) d) /\
  (Embedding.weight (EntitySelector.embeddings selector)
   = Embedding.weight (EntityEmbeddings.entity_embeddings entity) /\
   table_shaped σ (EntitySelector.embeddings selector) (LukeConfig.entity_vocab_size config) d /\
   table_shaped σ (EntitySelector.bias selector) (LukeConfig.entity_vocab_size config) 1) /\
  row d (σ (Embedding.weight (EntityEmbeddings.entity_embeddings entity))) 0 = vzero d /\
  row 1 (σ (Embedding.weight (EntitySelector.bias selector))) 0 = vzero 1.
Proof.
  intros H σ d entity mask selector.
  destruct (LukeE2EModel_init_shaped _ _ _ _ H) as (He & Hm & Hs & Hb & Hr & Hrb).
  split; [exact He|]. split; [exact Hm|]. split; [|split; [exact Hr|exact Hrb]].
  split; [|split; [exact Hs|exact Hb]].
  apply LukeE2EModel_init_inv in H as (base & h1 & m & h2 & el & h3 & sel & _ & _ & _ & _ & Hself).
  subst selector entity. rewrite Hself. reflexivity.
Qed.

Lemma init_shapes_witness :
  let σ := cells Example.built.2 in
  let entity := LukeBaseModel.entity_embeddings (LukeE2EModel.base Example.model) in
  let mask := LukeE2EModel.mask_entity_embeddings Example.model in
  let selector := LukeE2EModel.entity_selector Example.model in
  (table_shaped σ (EntityEmbeddings.entity_embeddings entity) 3 2 /\
   table_shaped σ (EntityEmbeddings.position_embeddings entity) 4 2 /\
   table_shaped σ (EntityEmbeddings.token_type_embeddings entity) 2 2 /\
   layer_norm_shaped σ (EntityEmbeddings.LayerNorm entity) 2) /\
  (table_shaped σ (EntityEmbeddings.entity_embeddings mask) 2 2 /\
   table_shaped σ (EntityEmbeddings.position_embeddings mask) 4 2 /\
   table_shaped σ (EntityEmbeddings.token_type_embeddings mask) 2 2 /\
   layer_norm_shaped σ (EntityEmbeddings.LayerNorm mask) 2) /\
  (Embedding.weight (EntitySelector.embeddings selector)
   = Embedding.weight (EntityEmbeddings.entity_embeddings entity) /\
   table_shaped σ (EntitySelector.embeddings selector) 3 2 /\
   table_shaped σ (EntitySelector.bias selector) 3 1) /\
  row 2 (σ (Embedding.weight (EntityEmbeddings.entity_embeddings entity))) 0 = vzero 2 /\
  row 1 (σ (Embedding.weight (EntitySelector.bias selector))) 0 = vzero 1.
Proof.
  exact (init_shapes Example.config Example.empty_heap Example.built.2 Example.model built_ok).
Defined.

(** X21. In every model [LukeE2EModel.__init__] builds with a non-empty
    position table, the position component of the entity embeddings is, for
    position ids that are -1 or in range, the masked mean-pool of the table's
    rows, and the padding entity (id 0) is looked up as the zero vector. *)
Theorem fresh_model_embeddings (config : LukeE2EConfig.t) (h h' : heap)
    (self : LukeE2EModel.t) (position_ids : list (list (list Z))) :
  LukeE2EModel.init config h = (Ok self, h') ->
  0 < BertConfig.max_position_embeddings config ->
  Forall (Forall (Forall (valid_position (BertConfig.max_position_embeddings config))))
    position_ids ->
  let entity := LukeBaseModel.entity_embeddings (LukeE2EModel.base self) in
  EntityEmbeddings.position_term (cells h') entity position_ids
  = Ok (map (map (masked_mean_pool
                    (cells h' (Embedding.weight (EntityEmbeddings.position_embeddings entity)))))
            position_ids) /\
  (0 < LukeConfig.entity_vocab_size config ->
   Embedding.forward (cells h') (EntityEmbeddings.entity_embeddings entity) 0
   = Ok (vzero (BertConfig.hidden_size config))).
Proof.
  intros H Hpos Hids entity.
  destruct (LukeE2EModel_init_shaped _ _ _ _ H)
    as (((_ & _ & Hse & _) & (_ & _ & Hsp & Hwp) & _) & _ & _ & _ & Hrow & _).
  fold entity in Hse, Hsp, Hwp, Hrow. split.
  - unfold EntityEmbeddings.position_term.
    apply mapM_result_ok. eapply Forall_impl; [exact Hids|]. cbn. intros slots Hslots.
    apply mapM_result_ok. eapply Forall_impl; [exact Hslots|]. cbn. intros ids Hv.
    eapply position_average_pool; eauto.
  - intros Hn. unfold Embedding.forward, F.embedding. rewrite Hse.
    destruct (Z.leb_spec 0 0); [|lia].
    destruct (Z.ltb_spec 0 (Z.of_nat (LukeConfig.entity_vocab_size config))); [|lia].
    cbn. f_equal. exact Hrow.
Qed.

Lemma fresh_model_embeddings_witness :
  let entity := LukeBaseModel.entity_embeddings (LukeE2EModel.base Example.model) in
  EntityEmbeddings.position_term Example.σ entity [[[2; 3]; [-1; -1]]]%Z
  = Ok (map (map (masked_mean_pool
                    (Example.σ (Embedding.weight (EntityEmbeddings.position_embeddings entity)))))
            [[[2; 3]; [-1; -1]]]%Z) /\
  (0 < 3 ->
   Embedding.forward Example.σ (EntityEmbeddings.entity_embeddings entity) 0 = Ok (vzero 2)).
Proof.
  apply (fresh_model_embeddings Example.config Example.empty_heap Example.built.2 Example.model
           [[[2; 3]; [-1; -1]]]%Z built_ok).
  - cbn. lia.
  - repeat constructor; unfold valid_position; cbn; lia.
Defined.

(** ** The shape of the entity embeddings *)

Lemma same_shape2_trans {A B C} (x : list (list A)) (y : list (list B)) (z : list (list C)) :
  same_shape2 x y -> same_shape2 y z -> same_shape2 x z.
Proof.
  unfold same_shape2. intros Hxy. revert z.
  induction Hxy as [|a b x y Hab _ IH]; intros z Hyz.
  - apply Forall2_nil_inv_l in Hyz as ->. constructor.
  - apply Forall2_cons_inv_l in Hyz as (c & z' & Hbc & Hyz & ->).
    constructor; [congruence|]. apply IH, Hyz.
Qed.

Lemma same_shape2_sym {A B} (x : list (list A)) (y : list (list B)) :
  same_shape2 x y -> same_shape2 y x.
Proof. unfold same_shape2. induction 1; constructor; done. Qed.

Lemma mapM2_same_shape {A B} (f : A -> result B) (x : list (list A)) (y : list (list B)) :
  mapM (mapM f) x = Ok y -> same_shape2 x y.
Proof.
  intros HF%mapM_result_inv. eapply Forall2_impl; [exact HF|].
  intros r1 r2 Hr%mapM_result_length. done.
Qed.

Lemma mapM2_Forall {A B} (f : A -> result B) (P : B -> Prop) (x : list (list A))
    (y : list (list B)) :
  (forall a b, f a = Ok b -> P b) -> mapM (mapM f) x = Ok y -> Forall (Forall P) y.
Proof.
  intros Hf HF%mapM_result_inv.
  induction HF as [|r1 r2 x y Hr _ IH]; constructor; [|exact IH].
  apply mapM_result_inv in Hr. induction Hr as [|a b r1 r2 Hab _ IHr]; constructor; eauto.
Qed.

Lemma embedding_length σ e n d id v :
  table_shaped σ e n d -> Embedding.forward σ e id = Ok v -> length v = d.
Proof.
  intros (_ & _ & Hs & Hw). unfold Embedding.forward, F.embedding. rewrite Hs.
  destruct (Z.leb_spec 0 id); [|done]. destruct (Z.ltb_spec id (Z.of_nat n)); [|done].
  intros [= <-]. eapply length_row; eauto. lia.
Qed.

Lemma position_average_length σ e n d ids v :
  table_shaped σ e n d ->
  EntityEmbeddings.position_average (σ (Embedding.weight e)) ids = Ok v -> length v = d.
Proof.
  intros Ht. unfold EntityEmbeddings.position_average. intros H.
  apply result_bind_Ok in H as (rows & Hrows & [= <-]).
  pose proof Ht as (_ & _ & Hs & _).
  rewrite length_vdiv, Hs. cbn [nth]. apply length_sum_rows.
  apply mapM_result_inv in Hrows.
  assert (Forall (fun r => length r = d) rows) as Hlen.
  { clear -Hrows Ht. induction Hrows as [|i r ids' rows Hi _ IH]; constructor; [|exact IH].
    eapply (embedding_length σ e); eauto. }
  clear Hrows. revert rows Hlen. generalize (ne_mask (-1) ids). intros mask.
  induction mask as [|c mask IH]; intros rows Hlen; [constructor|].
  destruct Hlen as [|r rows Hr Hlen]; [constructor|]. cbn.
  constructor; [rewrite length_vscale; exact Hr|]. apply IH, Hlen.
Qed.

Lemma add3_shape d x y z :
  add3 x y = Ok z -> width3 d x -> width3 d y -> same_shape2 x z /\ width3 d z.
Proof.
  unfold add3. intros [Hsh ->]%zip_exact_nested_inv Hx Hy. unfold width3, same_shape2 in *.
  revert y Hsh Hy. induction Hx as [|xr x Hxr _ IH]; intros y Hsh Hy.
  - apply Forall2_nil_inv_l in Hsh as ->. split; constructor.
  - apply Forall2_cons_inv_l in Hsh as (yr & y' & Hl & Hsh & ->).
    apply Forall_cons in Hy as [Hyr Hy]. destruct (IH y' Hsh Hy) as [IH1 IH2].
    cbn. split; constructor; try done.
    + rewrite length_zip_with. lia.
    + clear -Hxr Hyr Hl. revert yr Hyr Hl.
      induction Hxr as [|a xr Ha _ IHr]; intros yr Hyr Hl; [constructor|].
      destruct Hyr as [|b yr Hb Hyr]; [discriminate|]. cbn. constructor.
      * rewrite length_vadd. lia.
      * apply IHr; [exact Hyr|]. cbn in Hl. lia.
Qed.

Lemma LayerNorm_forward_length σ ln d x :
  layer_norm_shaped σ ln d -> length x = d -> length (BertLayerNorm.forward σ ln x) = d.
Proof.
  intros [Hw Hb] Hx. unfold BertLayerNorm.forward.
  rewrite length_vadd. unfold vmul. rewrite length_zip_with, length_map. lia.
Qed.

Lemma mapM_ST_Forall2 {S A B} (f : A -> ST S B) (l : list A) (s s' : S) (ys : list B) :
  mapM f l s = (Ok ys, s') ->
  Forall2 (fun a b => exists s1 s2, f a s1 = (Ok b, s2)) l ys.
Proof.
  revert s ys. induction l as [|a l IH]; intros s ys H.
  - apply ST_ret_Ok in H as [<- _]. constructor.
  - simpl in H. st_inv H. subst. constructor; eauto.
Qed.

Lemma Dropout_forward_vec_length training p x g y g' :
  Dropout.forward_vec training p x g = (Ok y, g') -> length y = length x.
Proof.
  unfold Dropout.forward_vec. destruct training.
  - destruct (Rle_dec 0 p); [|discriminate]. destruct (Rle_dec p 1); [|discriminate].
    unfold mbind, ST_bind, draw_uniform, mret, ST_ret. intros [= <- _].
    rewrite length_zip_with, length_map, length_seq. lia.
  - intros [<- _]%ST_ret_Ok. done.
Qed.

Lemma Dropout_forward3_shape training p d x g y g' :
  Dropout.forward3 training p x g = (Ok y, g') -> width3 d x -> same_shape2 x y /\ width3 d y.
Proof.
  unfold Dropout.forward3. intros HF%mapM_ST_Forall2 Hx. unfold width3, same_shape2 in *.
  induction HF as [|xr yr x y (s1 & s2 & Hr) _ IH]; [split; constructor|].
  apply Forall_cons in Hx as [Hxr Hx]. destruct (IH Hx) as [IH1 IH2].
  apply mapM_ST_Forall2 in Hr.
  split; constructor; try done.
  - eapply Forall2_length in Hr. done.
  - clear -Hr Hxr. induction Hr as [|a b xr yr (s1 & s2 & Hab) _ IHr]; [constructor|].
    apply Forall_cons in Hxr as [Ha Hxr]. constructor; [|apply IHr, Hxr].
    apply Dropout_forward_vec_length in Hab. congruence.
Qed.

Lemma EntityEmbeddings_forward_shaped (σ : store) (training : bool) (config : BertConfig.t)
    (self : EntityEmbeddings.t) (n : nat) (entity_ids : list (list Z))
    (position_ids : list (list (list Z))) (token_type_ids : option (list (list Z)))
    (g g' : Generator) (embeddings : seq3) :
  entity_embeddings_shaped σ config self n ->
  EntityEmbeddings.forward σ training self entity_ids position_ids token_type_ids g
    = (Ok embeddings, g') ->
  same_shape2 entity_ids embeddings /\ width3 (BertConfig.hidden_size config) embeddings.
Proof.
  intros (Te & Tp & Tt & Hln) Hrun. unfold EntityEmbeddings.forward in Hrun.
  apply ST_bind_Ok in Hrun as (es & g0 & [Hes <-]%lift_Ok & Hrun).
  unfold EntityEmbeddings.combine in Hrun. st_inv Hrun.
  apply lift_Ok in Hrun0 as [Hps <-], Hrun1 as [Hts <-], Hrun2 as [Hs1 <-], Hrun3 as [Hs2 <-].
  unfold EntityEmbeddings.identity_term in Hes.
  unfold EntityEmbeddings.position_term in Hps.
  unfold EntityEmbeddings.token_type_term in Hts.
  pose proof (mapM2_same_shape _ _ _ Hes) as Hshape.
  assert (width3 (BertConfig.hidden_size config) es) as Wes.
  { eapply mapM2_Forall; [|exact Hes]. intros id v. eapply embedding_length, Te. }
  assert (width3 (BertConfig.hidden_size config) a) as Wps.
  { eapply mapM2_Forall; [|exact Hps]. intros ids v. eapply position_average_length, Tp. }
  assert (width3 (BertConfig.hidden_size config) a0) as Wts.
  { eapply mapM2_Forall; [|exact Hts]. intros id v. eapply embedding_length, Tt. }
  destruct (add3_shape _ _ _ _ Hs1 Wes Wps) as [Sh1 W1].
  destruct (add3_shape _ _ _ _ Hs2 W1 Wts) as [Sh2 W2].
  apply (Dropout_forward3_shape _ _ (BertConfig.hidden_size config)) in Hrun as [Sh3 W3].
  - split; [|exact W3].
    eapply same_shape2_trans; [exact Hshape|]. eapply same_shape2_trans; [exact Sh1|].
    eapply same_shape2_trans; [exact Sh2|].
    eapply same_shape2_trans; [|exact Sh3].
    unfold same_shape2. clear. induction a2 as [|r a2 IH]; constructor; [|exact IH].
    rewrite length_map. done.
  - clear -W2 Hln. unfold width3 in *. apply Forall_map. eapply Forall_impl; [exact W2|].
    cbn. intros r Hr. apply Forall_map. eapply Forall_impl; [exact Hr|].
    cbn. intros v Hv. apply LayerNorm_forward_length; done.
Qed.

(** X22. With parameters of the shapes the constructor gives them, and
    position ids and segment ids that have the (B, E) examples and slots of
    the entity ids (no axis is broadcast), [EntityEmbeddings.forward] returns,
    when it returns, a (B, E, H) tensor: one row per example, one vector per
    entity slot of the ids, [hidden_size] entries in every vector. *)
Theorem entity_embeddings_forward_shape (σ : store) (training : bool) (config : BertConfig.t)
    (self : EntityEmbeddings.t) (n : nat) (entity_ids : list (list Z))
    (position_ids : list (list (list Z))) (token_type_ids : option (list (list Z)))
    (g g' : Generator) (embeddings : seq3) :
  entity_embeddings_shaped σ config self n ->
  same_shape2 entity_ids position_ids ->
  match token_type_ids with
  | Some token_type_ids => same_shape2 entity_ids token_type_ids
  | None => True
  end ->
  EntityEmbeddings.forward σ training self entity_ids position_ids token_type_ids g
    = (Ok embeddings, g') ->
  length embeddings = length entity_ids /\
  (forall b ids, entity_ids !! b = Some ids ->
     exists row, embeddings !! b = Some row /\ length row = length ids) /\
  (forall b e v, at2 embeddings b e = Some v -> length v = BertConfig.hidden_size config).
Proof.
  intros Hshaped _ _ Hrun.
  destruct (EntityEmbeddings_forward_shaped _ _ _ _ _ _ _ _ _ _ _ Hshaped Hrun) as [Hsh Hw].
  unfold same_shape2, width3 in *. split; [|split].
  - symmetry. eapply Forall2_length, Hsh.
  - intros b ids Hids.
    destruct (Forall2_lookup_l _ _ _ _ _ Hsh Hids) as (row & Hrow & Hlen). eauto.
  - intros b e v Hv. unfold at2 in Hv.
    destruct (embeddings !! b) as [row|] eqn:Hrow; [|done]. cbn in Hv.
    rewrite Forall_forall in Hw. specialize (Hw row (list_elem_of_lookup_2 _ _ _ Hrow)).
    rewrite Forall_forall in Hw. apply Hw. eapply list_elem_of_lookup_2, Hv.
Qed.

Lemma entity_embeddings_forward_shape_witness :
  exists embeddings g',
    EntityEmbeddings.forward Example.σ true
      (LukeBaseModel.entity_embeddings (LukeE2EModel.base Example.model))
      [[1; 0]; [2; 1]]%Z [[[0; 1]; [-1; -1]]; [[2; -1]; [3; 3]]]%Z (Some [[0; 0]; [0; 0]]%Z)
      Example.generator
    = (Ok embeddings, g') /\
    length embeddings = 2 /\
    (forall b ids, [[1; 0]; [2; 1]]%Z !! b = Some ids ->
       exists row, embeddings !! b = Some row /\ length row = length ids) /\
    (forall b e v, at2 embeddings b e = Some v -> length v = 2).
Proof.
  destruct (EntityEmbeddings.forward Example.σ true
              (LukeBaseModel.entity_embeddings (LukeE2EModel.base Example.model))
              [[1; 0]; [2; 1]]%Z [[[0; 1]; [-1; -1]]; [[2; -1]; [3; 3]]]%Z
              (Some [[0; 0]; [0; 0]]%Z) Example.generator) as [[embeddings|e] g'] eqn:Hfwd.
  2:{ exfalso. revert Hfwd. run.
      destruct (Rle_dec 0 (1 / 10)) as [|Hn]; [|exfalso; apply Hn; lra].
      destruct (Rle_dec (1 / 10) 1) as [|Hn]; [|exfalso; apply Hn; lra].
      discriminate. }
  exists embeddings, g'. split; [reflexivity|].
  destruct (LukeE2EModel_init_shaped _ _ _ _ built_ok) as (Hshaped & _).
  apply (entity_embeddings_forward_shape Example.σ true Example.config _ 3
           [[1; 0]; [2; 1]]%Z [[[0; 1]; [-1; -1]]; [[2; -1]; [3; 3]]]%Z
           (Some [[0; 0]; [0; 0]]%Z) Example.generator g' embeddings Hshaped).
  - repeat constructor.
  - repeat constructor.
  - exact Hfwd.
Defined.

(** ** Batches *)

Lemma lookup_repeat {A} (a : A) (n i : nat) : i < n -> repeat a n !! i = Some a.
Proof.
  revert i. induction n as [|n IH]; intros i Hi; [lia|].
  destruct i as [|i]; [done|]. cbn. apply IH. lia.
Qed.

Lemma max_list_ge (l : list nat) (x : nat) : x ∈ l -> x <= max_list l.
Proof.
  induction l as [|y l IH]; [intros H; apply elem_of_nil in H; done|].
  intros [->|Hin]%elem_of_cons; cbn; [lia|]. specialize (IH Hin). lia.
Qed.

Lemma max_list_attained (l : list nat) : l ≠ [] -> max_list l ∈ l.
Proof.
  induction l as [|y l IH]; [done|]. intros _. cbn.
  destruct l as [|z l'].
  - cbn. rewrite Nat.max_0_r. constructor.
  - destruct (Nat.max_spec y (max_list (z :: l'))) as [[_ ->]|[_ ->]].
    + apply list_elem_of_further, IH. done.
    + constructor.
Qed.

(** X23. [create_padded_sequence] on a non-empty batch returns one row
    per example, all of the length of the longest attribute value; a row
    starts with the example's value and holds the padding value after it, and
    some row has no padding at all.  An empty batch raises. *)
Theorem create_padded_sequence_rows (values : list (list Z)) (padding_value : Z) :
  values ≠ [] ->
  exists rows width,
    ReadingComprehension.create_padded_sequence values padding_value = Ok rows /\
    length rows = length values /\
    Forall (fun r => length r = width) rows /\
    (forall i s, values !! i = Some s ->
       exists r, rows !! i = Some r /\ take (length s) r = s /\
                 forall j, length s <= j < width -> r !! j = Some padding_value) /\
    (exists s, s ∈ values /\ length s = width).
Proof.
  intros Hne. unfold ReadingComprehension.create_padded_sequence,
    ReadingComprehension.pad_sequence.
  destruct values as [|s0 values'] eqn:Hv; [done|]. rewrite <- Hv in *. clear Hv s0 values'.
  set (w := max_list (map length values)).
  assert (forall s, s ∈ values -> length s <= w) as Hle.
  { intros s Hs. apply max_list_ge. apply list_elem_of_fmap. exists s. done. }
  exists (map (fun s => s ++ repeat padding_value (w - length s)) values), w.
  split; [done|]. split; [apply length_map|]. split; [|split].
  - apply Forall_map, Forall_forall. intros s Hs. cbn.
    rewrite length_app, repeat_length. specialize (Hle s Hs). lia.
  - intros i s Hi. exists (s ++ repeat padding_value (w - length s)).
    rewrite list_lookup_fmap, Hi. split; [done|]. split.
    + rewrite take_app_length. done.
    + intros j Hj. rewrite lookup_app_r by lia. apply lookup_repeat. lia.
  - assert (w ∈ map length values) as Hin.
    { apply max_list_attained. destruct values; done. }
    apply list_elem_of_fmap in Hin as (s & Hs & Hin). exists s. done.
Qed.

Lemma create_padded_sequence_rows_witness :
  exists rows width,
    ReadingComprehension.create_padded_sequence [[5; 6; 7]; [8]]%Z 0 = Ok rows /\
    length rows = 2 /\
    Forall (fun r => length r = width) rows /\
    (forall i s, [[5; 6; 7]; [8]]%Z !! i = Some s ->
       exists r, rows !! i = Some r /\ take (length s) r = s /\
                 forall j, length s <= j < width -> r !! j = Some 0%Z) /\
    (exists s, s ∈ [[5; 6; 7]; [8]]%Z /\ length s = width).
Proof.
  apply (create_padded_sequence_rows [[5; 6; 7]; [8]]%Z 0). discriminate.
Defined.

Lemma slice_to_take {A} (k : Z) (s : list A) :
  exists m, ReadingComprehension.slice_to k s = take m s /\
            forall s' : list A, length s' = length s ->
              ReadingComprehension.slice_to k s' = take m s'.
Proof.
  unfold ReadingComprehension.slice_to. destruct (0 <=? k)%Z.
  - eexists. split; [done|]. done.
  - eexists. split; [done|]. intros s' ->. done.
Qed.

Section padded_batch.
Local Open Scope R_scope.

(** X24. Padding never attends: for a non-empty batch, when the word
    and entity attention masks are built as [collate_fn] builds them (padded
    with 0, the entity mask cut at [max_entity_length]), the additive mask of
    the model exists and is -10000 at every position the padding added, for
    the words and for the entity slots of every example. *)
Theorem padded_positions_masked (word_masks entity_masks : list (list Z))
    (max_entity_length : Z) :
  word_masks ≠ [] -> length word_masks = length entity_masks ->
  exists word_attention_mask entity_attention_mask extended,
    ReadingComprehension.create_padded_sequence word_masks 0 = Ok word_attention_mask /\
    ReadingComprehension.entity_field entity_masks 0 max_entity_length
      = Ok entity_attention_mask /\
    LukeBaseModel._compute_extended_attention_mask word_attention_mask entity_attention_mask
      = Ok extended /\
    forall i ws es,
      word_masks !! i = Some ws -> entity_masks !! i = Some es ->
      exists row,
        extended !! i = Some row /\
        (forall j, (length ws <= j < size1 word_attention_mask)%nat ->
           row !! j = Some (-10000)) /\
        (forall j, (length es <= j < size1 entity_attention_mask)%nat ->
           row !! (size1 word_attention_mask + j)%nat = Some (-10000)).
Proof.
  intros Hne Hlen.
  assert (entity_masks ≠ []) as Hne' by (destruct word_masks, entity_masks; done).
  unfold ReadingComprehension.entity_field, ReadingComprehension.create_padded_sequence,
    ReadingComprehension.pad_sequence.
  destruct word_masks as [|w0 wrest] eqn:Hw; [done|]. rewrite <- Hw in *.
  destruct entity_masks as [|e0 erest] eqn:He; [done|]. rewrite <- He in *.
  set (W := max_list (map length word_masks)).
  set (E := max_list (map length entity_masks)).
  set (wpad := fun s : list Z => s ++ repeat 0%Z (W - length s)).
  set (epad := fun s : list Z => s ++ repeat 0%Z (E - length s)).
  assert (forall s, s ∈ word_masks -> length (wpad s) = W) as HW.
  { intros s Hs. unfold wpad. rewrite length_app, repeat_length.
    assert (length s <= W)%nat; [|lia].
    apply max_list_ge, list_elem_of_fmap. exists s. done. }
  assert (forall s, s ∈ entity_masks -> length (epad s) = E) as HE.
  { intros s Hs. unfold epad. rewrite length_app, repeat_length.
    assert (length s <= E)%nat; [|lia].
    apply max_list_ge, list_elem_of_fmap. exists s. done. }
  cbn [mbind result_bind].
  destruct (slice_to_take max_entity_length (epad e0)) as (m & _ & Hslice).
  assert (map (ReadingComprehension.slice_to max_entity_length) (map epad entity_masks)
          = map (fun s => take m (epad s)) entity_masks) as Hem.
  { rewrite map_map. apply map_ext_in. intros s Hs%list_elem_of_In. apply Hslice.
    rewrite !HE; [done| |exact Hs]. rewrite He. constructor. }
  rewrite Hem.
  eexists _, _, _. split; [reflexivity|]. split; [reflexivity|].
  unfold LukeBaseModel._compute_extended_attention_mask, cat1.
  rewrite zip_exact_pure by (rewrite !length_map; exact Hlen).
  split; [reflexivity|]. intros i ws es Hws Hes.
  eexists. rewrite list_lookup_fmap, lookup_zip_with, !list_lookup_fmap, Hws, Hes.
  split; [reflexivity|].
  assert (size1 (map wpad word_masks) = W) as ->.
  { unfold size1. rewrite Hw. cbn [map hd]. apply HW. rewrite Hw. constructor. }
  assert (size1 (map (fun s => take m (epad s)) entity_masks) = (m `min` E)%nat) as ->.
  { unfold size1. rewrite He. cbn [map hd].
    rewrite length_take, HE; [done|]. rewrite He. constructor. }
  pose proof (HW ws (list_elem_of_lookup_2 _ _ _ Hws)) as HWs.
  pose proof (HE es (list_elem_of_lookup_2 _ _ _ Hes)) as HEs.
  split.
  - intros j Hj. rewrite list_lookup_fmap, lookup_app_l by lia.
    unfold wpad. rewrite lookup_app_r by lia. rewrite lookup_repeat by lia.
    cbn. f_equal. lra.
  - intros j Hj. rewrite list_lookup_fmap, lookup_app_r by lia.
    replace (W + j - length (wpad ws))%nat with j by lia.
    rewrite lookup_take_lt by lia.
    unfold epad. rewrite lookup_app_r by lia. rewrite lookup_repeat by lia.
    cbn. f_equal. lra.
Qed.

End padded_batch.

Lemma padded_positions_masked_witness :
  exists word_attention_mask entity_attention_mask extended,
    ReadingComprehension.create_padded_sequence [[1; 1; 1]; [1]]%Z 0 = Ok word_attention_mask /\
    ReadingComprehension.entity_field [[1]; [1; 1; 1]]%Z 0 2 = Ok entity_attention_mask /\
    LukeBaseModel._compute_extended_attention_mask word_attention_mask entity_attention_mask
      = Ok extended /\
    forall i ws es,
      [[1; 1; 1]; [1]]%Z !! i = Some ws -> [[1]; [1; 1; 1]]%Z !! i = Some es ->
      exists row,
        extended !! i = Some row /\
        (forall j, (length ws <= j < size1 word_attention_mask)%nat ->
           row !! j = Some (-10000)%R) /\
        (forall j, (length es <= j < size1 entity_attention_mask)%nat ->
           row !! (size1 word_attention_mask + j)%nat = Some (-10000)%R).
Proof.
  apply (padded_positions_masked [[1; 1; 1]; [1]]%Z [[1]; [1; 1; 1]]%Z 2).
  - discriminate.
  - reflexivity.
Defined.

(** ** One candidate per mention *)

Lemma mapM_result_fmap {A B C} (f : A -> result B) (k : B -> C) (l : list A) (bs : list B) :
  mapM f l = Ok bs -> mapM (fun a => b ← f a; Ok (k b)) l = Ok (map k bs).
Proof.
  revert bs. induction l as [|a l IH]; intros bs H.
  - injection H as <-. done.
  - cbn in H. apply result_bind_Ok in H as (b & Hb & H).
    apply result_bind_Ok in H as (bs' & Hbs & [= <-]).
    cbn. rewrite Hb. cbn. rewrite (IH _ Hbs). done.
Qed.

Lemma mapM_result_fmap_raise {A B C} (f : A -> result B) (k : B -> C) (l : list A) e :
  mapM f l = Raise e -> mapM (fun a => b ← f a; Ok (k b)) l = Raise e.
Proof.
  revert e. induction l as [|a l IH]; intros e H; [discriminate|].
  cbn in *. destruct (f a) as [b|e']; cbn in *; [|congruence].
  destruct (mapM f l) as [bs|e'']; [discriminate|].
  cbn in H. injection H as <-. rewrite (IH e'' eq_refl). reflexivity.
Qed.

Lemma mapM3_one_candidate {A B} (f : A -> result B) (x : list (list A)) (y : list (list B)) :
  mapM (mapM f) x = Ok y -> mapM (mapM (mapM f)) (one_candidate x) = Ok (one_candidate y).
Proof.
  intros H. unfold one_candidate. rewrite mapM_result_map.
  erewrite (mapM_result_ext _ (fun r => ys ← mapM f r; Ok (map (fun b => [b]) ys))).
  - apply mapM_result_fmap, H.
  - intros r. rewrite mapM_result_map.
    destruct (mapM f r) as [ys|e] eqn:Hr.
    + cbn. erewrite (mapM_result_ext _ (fun a => b ← f a; Ok [b])).
      * apply mapM_result_fmap, Hr.
      * intros a. cbn. destruct (f a); reflexivity.
    + cbn. erewrite (mapM_result_ext _ (fun a => b ← f a; Ok [b])).
      * apply mapM_result_fmap_raise, Hr.
      * intros a. cbn. destruct (f a); reflexivity.
Qed.

Lemma add4_broadcast_one_candidate (x y z : seq3) :
  add3 x y = Ok z -> add4_broadcast (one_candidate x) y = Ok (one_candidate z).
Proof.
  unfold add3, add4_broadcast. intros [Hsh ->]%zip_exact_nested_inv.
  rewrite zip_exact_nested.
  - f_equal. unfold one_candidate. clear Hsh. revert y.
    induction x as [|r x IH]; intros [|yr y]; try done.
    cbn. f_equal; [|apply IH]. clear IH. revert yr.
    induction r as [|v r IHr]; intros [|w yr]; try done.
    cbn. f_equal. apply IHr.
  - unfold one_candidate. apply Forall2_fmap_l. eapply Forall2_impl; [exact Hsh|].
    intros r1 r2 Hl. cbn. rewrite length_map. exact Hl.
Qed.

Lemma mapM_ST_id {S A} (f : A -> ST S A) (l : list A) (s : S) :
  (forall a s, f a s = (Ok a, s)) -> mapM f l s = (Ok l, s).
Proof.
  intros Hf. induction l as [|a l IH]; [done|].
  simpl. rewrite (ST_bind_run _ _ _ _ _ (Hf a s)), (ST_bind_run _ _ _ _ _ IH). done.
Qed.

Lemma Dropout_eval3 p (x : seq3) (g : Generator) : Dropout.forward3 false p x g = (Ok x, g).
Proof.
  unfold Dropout.forward3. apply mapM_ST_id. intros r s. apply mapM_ST_id. done.
Qed.

Lemma Dropout_eval4 p (x : list seq3) (g : Generator) :
  Dropout.forward4 false p x g = (Ok x, g).
Proof.
  unfold Dropout.forward4. apply mapM_ST_id. intros r s. apply mapM_ST_id.
  intros r' s'. apply mapM_ST_id. done.
Qed.

Section single_candidate.
Local Open Scope R_scope.

Lemma softmax_one (s : R) : F.softmax [s] = [1].
Proof.
  unfold F.softmax. cbn. f_equal. pose proof (exp_pos s). field. lra.
Qed.

Lemma mix_one_candidate (d : nat) (x : seq3) (scores : list (list (list R))) :
  width3 d x -> same_shape3 (one_candidate x) scores ->
  zip_exact (zip_exact (fun es ps => Ok (sum_rows d (zip_with vscale ps es))))
    (one_candidate x) (map (map F.softmax) scores) = Ok x.
Proof.
  intros Hw Hs. unfold width3, same_shape3, one_candidate in *.
  rewrite zip_exact_nested.
  2:{ apply Forall2_fmap_r. eapply Forall2_impl; [exact Hs|].
      intros r1 r2 Hr. cbn. rewrite length_map. eapply Forall2_length, Hr. }
  f_equal. revert scores Hs. induction Hw as [|r x Hr _ IH]; intros scores Hs.
  - cbn in Hs. apply Forall2_nil_inv_l in Hs as ->. done.
  - cbn in Hs. apply Forall2_cons_inv_l in Hs as (sr & scores' & Hrow & Hs & ->).
    cbn. f_equal; [|apply IH, Hs].
    clear -Hr Hrow. revert sr Hrow. induction Hr as [|v r Hv _ IHr]; intros sr Hrow.
    + cbn in Hrow. apply Forall2_nil_inv_l in Hrow as ->. done.
    + cbn in Hrow. apply Forall2_cons_inv_l in Hrow as (sc & sr' & Hlen & Hrow & ->).
      cbn. f_equal; [|apply IHr, Hrow].
      destruct sc as [|s [|? ?]]; try discriminate Hlen.
      rewrite softmax_one. cbn. rewrite vscale_1. apply vadd_zero_r. exact Hv.
Qed.

End single_candidate.

(** X25. With a single candidate in every mention slot the soft
    selection is a hard one: in evaluation mode, and with parameters of the
    shapes the constructor gives them, the candidates' embeddings weighted by
    the softmax of any scores (lines 199-203) are the embeddings
    [EntityEmbeddings.forward] computes for the candidates themselves. *)
Theorem single_candidate_mix (σ : store) (self : LukeE2EModel.t) (n : nat)
    (entity_ids : list (list Z)) (entity_position_ids : list (list (list Z)))
    (entity_segment_ids : list (list Z)) (scores : list (list (list R)))
    (g g' : Generator) (embeddings : seq3) :
  let entity := LukeBaseModel.entity_embeddings (LukeE2EModel.base self) in
  entity_embeddings_shaped σ (LukeE2EModel.config self) entity n ->
  same_shape3 (one_candidate entity_ids) scores ->
  EntityEmbeddings.forward σ false entity entity_ids entity_position_ids
    (Some entity_segment_ids) g = (Ok embeddings, g') ->
  LukeE2EModel.mix_candidates σ false self (map (map F.softmax) scores)
    (one_candidate entity_ids) entity_position_ids entity_segment_ids g
  = (Ok embeddings, g).
Proof.
  intros entity Hshaped Hscores Hrun.
  pose proof (EntityEmbeddings_forward_shaped _ _ _ _ _ _ _ _ _ _ _ Hshaped Hrun) as [Hsh Hw].
  unfold EntityEmbeddings.forward in Hrun.
  apply ST_bind_Ok in Hrun as (es & g0 & [Hes <-]%lift_Ok & Hrun).
  unfold EntityEmbeddings.combine in Hrun. st_inv Hrun.
  apply lift_Ok in Hrun0 as [Hps <-], Hrun1 as [Hts <-], Hrun2 as [Hs1 <-], Hrun3 as [Hs2 <-].
  rewrite Dropout_eval3 in Hrun. injection Hrun as <- _.
  unfold EntityEmbeddings.identity_term in Hes.
  set (ln := BertLayerNorm.forward σ (EntityEmbeddings.LayerNorm entity)) in *.
  assert (EntityEmbeddings.forward_candidates σ false entity (one_candidate entity_ids)
            entity_position_ids entity_segment_ids g
          = (Ok (one_candidate (map (map ln) a2)), g)) as Hcand.
  { unfold EntityEmbeddings.forward_candidates.
    rewrite (mapM3_one_candidate _ _ _ Hes). rewrite ST_bind_lift_Ok.
    rewrite Hps, ST_bind_lift_Ok, Hts, ST_bind_lift_Ok.
    rewrite (add4_broadcast_one_candidate _ _ _ Hs1), ST_bind_lift_Ok.
    rewrite (add4_broadcast_one_candidate _ _ _ Hs2), ST_bind_lift_Ok.
    fold ln.
    assert (map (map (map ln)) (one_candidate a2) = one_candidate (map (map ln) a2)) as ->.
    { unfold one_candidate. rewrite !map_map. apply map_ext. intros r.
      rewrite !map_map. done. }
    apply Dropout_eval4. }
  unfold LukeE2EModel.mix_candidates. fold entity.
  rewrite (ST_bind_run _ _ _ _ _ Hcand).
  unfold lift. f_equal. apply mix_one_candidate; [exact Hw|].
  unfold same_shape3, one_candidate in *.
  apply Forall2_fmap_l. apply Forall2_fmap_l in Hscores.
  assert (same_shape2 (map (map ln) a2) entity_ids) as Hsh' by (apply same_shape2_sym, Hsh).
  clear -Hscores Hsh'. unfold same_shape2 in Hsh'. revert scores Hscores.
  induction Hsh' as [|r ids x y Hl _ IH]; intros scores Hscores.
  - apply Forall2_nil_inv_l in Hscores as ->. constructor.
  - apply Forall2_cons_inv_l in Hscores as (sr & scores' & Hrow & Hscores & ->).
    constructor; [|apply IH, Hscores]. clear IH.
    apply Forall2_fmap_l. apply Forall2_fmap_l in Hrow.
    apply Forall2_same_length_lookup_2.
    + eapply Forall2_length in Hrow. lia.
    + intros i v sc Hv Hsc.
      destruct (lookup_lt_is_Some_2 ids i) as [c Hc].
      { rewrite <- Hl. eapply lookup_lt_Some, Hv. }
      pose proof (Forall2_lookup_lr _ _ _ _ _ _ Hrow Hc Hsc) as Hlen. exact Hlen.
Qed.

Lemma single_candidate_mix_witness :
  let entity := LukeBaseModel.entity_embeddings (LukeE2EModel.base Example.model) in
  exists embeddings,
    EntityEmbeddings.forward Example.σ false entity [[1; 2]]%Z [[[0; -1]; [1; 2]]]%Z
      (Some [[0; 1]]%Z) Example.generator = (Ok embeddings, Example.generator) /\
    LukeE2EModel.mix_candidates Example.σ false Example.model
      (map (map F.softmax) [[[3]; [-4]]]%R) (one_candidate [[1; 2]]%Z)
      [[[0; -1]; [1; 2]]]%Z [[0; 1]]%Z Example.generator
    = (Ok embeddings, Example.generator).
Proof.
  intros entity.
  destruct (EntityEmbeddings.forward Example.σ false entity [[1; 2]]%Z [[[0; -1]; [1; 2]]]%Z
              (Some [[0; 1]]%Z) Example.generator) as [[embeddings|e] g'] eqn:Hfwd.
  2:{ exfalso. revert Hfwd. run. discriminate. }
  assert (g' = Example.generator) as -> by (revert Hfwd; run; intros [= _ <-]; reflexivity).
  exists embeddings. split; [reflexivity|].
  destruct (LukeE2EModel_init_shaped _ _ _ _ built_ok) as (Hshaped & _).
  apply (single_candidate_mix Example.σ Example.model 3 _ _ _ _ Example.generator
           Example.generator embeddings Hshaped); [|exact Hfwd].
  repeat constructor.
Defined.
